(** * pymdht: the Controller (core/controller.py)

    A shallow embedding of [Controller] and of the objects it talks to.

    - Timestamps are the values of [ptime.time()]: Python floats, taken
      here as exact rationals ([Q]); only their order and the sums
      [current_ts + 1], [current_ts + maintenance_delay] and
      [time.time() - CACHE_VALID_PERIOD] are used.
    - The collaborators (querier, routing manager, lookup manager and its
      lookup objects, responder and its tracker, experimental manager), the
      clock and the user's callbacks are not part of the controller: every
      call the controller makes on them is a constructor of [Call], answered
      by an environment ([handle]) that the development is parametric in.
    - The mutable attributes of [self] are the record [Controller]; a method
      is a computation in the monad [M], which threads the controller, the
      environment and the history of calls, and can raise.
    - Python lists are Rocq lists taken by value; a value that may be
      [None] where the code tests its truth is an [option]. *)

From Stdlib Require Import List Bool String PeanoNat QArith Lqa Lia.
Import ListNotations.
Close Scope Q_scope.

Set Implicit Arguments.

(** ** Python values *)

(** [message.QUERY], [message.RESPONSE], [message.ERROR]; any other value of
    [msg.type] is [OTHER_TYPE]. *)
Inductive MsgType : Type := QUERY | RESPONSE | ERROR | OTHER_TYPE.

(** A list-valued result that may also be [None]. *)
Definition PyList (A : Type) : Type := option (list A).

(** Truth value of a Python list or [None]: [None] and [[]] are false. *)
Definition truthy {A : Type} (l : PyList A) : bool :=
  match l with
  | Some (_ :: _) => true
  | _ => false
  end.

(** The list a truthy value stands for ([[]] when it is false). *)
Definition items {A : Type} (l : PyList A) : list A :=
  match l with
  | Some xs => xs
  | None => []
  end.

(** The value given as [callback_f]: [None], a callable, or some other
    object. *)
Inductive PyCallback (F : Type) : Type :=
| CbNone
| CbCallable (f : F)
| CbOther.
Arguments CbNone {F}.
Arguments CbOther {F}.

(** [callback_f and callable(callback_f)]. *)
Definition callable {F : Type} (cb : PyCallback F) : option F :=
  match cb with
  | CbCallable f => Some f
  | _ => None
  end.

(** Exceptions the controller's own code can raise. *)
Inductive Exn : Type :=
| NameError (name : string).

(** [a > b], [a < b] and [a >= b] on timestamps. *)
Definition Qltb (a b : Q) : bool := negb (Qle_bool b a).
Definition Qgeb (a b : Q) : bool := Qle_bool b a.

(** The builtin [min(a, b)] of two numbers: [b] when [b < a], else [a]. *)
Definition py_min (a b : Q) : Q := if Qltb b a then b else a.

(** [CACHE_VALID_PERIOD = 5 * 60]. *)
Definition CACHE_VALID_PERIOD : Q := (5 * 60)%Q.

(** ** The objects the controller handles *)

(** Identifiers, nodes, messages, lookup objects and outstanding queries are
    defined in modules the controller imports; it only reads the attributes
    listed here. *)
Class Objects : Type := {
  Id : Type;                       (* identifier.Id: node ids, info-hashes *)
  Id_eq_dec : forall a b : Id, {a = b} + {a <> b};   (* Id.__eq__ *)
  LogDistance : Type;
  distance_log : Id -> Id -> LogDistance;   (* a.distance(b).log *)
  Addr : Type;
  Node : Type;
  node_id : Node -> Id;            (* node.id *)
  Peer : Type;
  LookupId : Type;
  Callable : Type;                 (* callables given as callback_f *)
  Port : Type;
  Query : Type;                    (* outgoing queries, not yet registered *)
  Data : Type;                     (* bencoded bytes *)
  Tid : Type;
  Msg : Type;                      (* decoded incoming message *)
  msg_type : Msg -> MsgType;       (* msg.type *)
  src_node : Msg -> Node;          (* msg.src_node *)
  tid : Msg -> Tid;                (* msg.tid *)
  all_nodes : Msg -> list Node;    (* msg.all_nodes *)
  OutMsg : Type;                   (* response built by the responder *)
  stamp : OutMsg -> Tid -> Data;   (* response_msg.stamp(tid) *)
  LookupObj : Type;
  lookup_id : LookupObj -> LookupId;
  info_hash : LookupObj -> Id;
  callback_f : LookupObj -> PyCallback Callable;
  RelatedQuery : Type;             (* the querier's outstanding query *)
  lookup_obj : RelatedQuery -> option LookupObj;
  dst_node : RelatedQuery -> Node;
  rtt : RelatedQuery -> Q;
}.

Section Model.

Context {O : Objects}.

(** [message.Datagram(data, addr)]. *)
Record Datagram : Type := mkDatagram { data : Data; addr : Addr }.

(** What ends up in the list handed back to the reactor: datagrams made by
    the querier or from a response, and, on the ERROR path, the announce
    queries that are put there without being registered. *)
Inductive Outbound : Type :=
| Dgram (d : Datagram)
| Unregistered (q : Query).

(** One entry of [_cached_lookups]: [(ts, info_hash, peers)]. *)
Definition CachedLookup : Type := (Q * Id * list Peer)%type.

(** The attributes of [self] that the methods read and write. *)
Record Controller : Type := mkController {
  _my_id : Id;
  _next_maintenance_ts : Q;
  _next_timeout_ts : Q;
  _next_main_loop_call_ts : Q;
  _cached_lookups : list CachedLookup;
}.

(** ** Calls on the collaborators *)

(** Every call that leaves the controller, indexed by the type of its
    result. *)
Inductive Call : Type -> Type :=
| Time_time : Call Q
| Querier_get_timeout_queries : Call (Q * list RelatedQuery)
| Querier_register_queries (queries : list Query) : Call (Q * list Datagram)
| Querier_get_related_query (msg : Msg) : Call (option RelatedQuery)
| Routing_get_closest_rnodes (log_distance : LogDistance) (num : nat)
    (flag : bool) : Call (list Node)
| Routing_do_maintenance : Call (Q * list Query * option (Id * list Node))
| Routing_on_query_received (src : Node) : Call (PyList Query)
| Routing_on_response_received (src : Node) (rtt_ : Q) (nodes : list Node) :
    Call (PyList Query)
| Routing_on_error_received (a : Addr) : Call (PyList Query)
| Routing_on_timeout (dst : Node) : Call (PyList Query)
| Responder_get_response (msg : Msg) : Call (option OutMsg)
| Tracker_get (h : Id) : Call (PyList Peer)
| LookupM_get_peers (lid : LookupId) (h : Id) (cb : PyCallback Callable)
    (bt_port : Port) : Call LookupObj
| LookupM_maintenance_lookup (target : Id) : Call LookupObj
| Lookup_start (lo : LookupObj) (rnodes : list Node) (bootstrapper : bool) :
    Call (list Query)
| Lookup_on_response_received (lo : LookupObj) (msg : Msg) (src : Node) :
    Call (list Query * PyList Peer * nat * bool)
| Lookup_on_error_received (lo : LookupObj) (msg : Msg) (a : Addr) :
    Call (list Query * nat * bool)
| Lookup_on_timeout (lo : LookupObj) (dst : Node) :
    Call (list Query * nat * bool)
| Lookup_announce (lo : LookupObj) : Call (list Query * bool)
| Exp_on_query_received (msg : Msg) : Call (PyList Query)
| Exp_on_response_received (msg : Msg) (rq : RelatedQuery) :
    Call (PyList Query)
| Exp_on_error_received (msg : Msg) (rq : RelatedQuery) : Call (PyList Query)
| Exp_on_timeout (rq : RelatedQuery) : Call (PyList Query)
| Callback (f : Callable) (lid : LookupId) (peers : option (list Peer))
    (node : option Node) : Call unit.

(** A call and the answer it got, for the history. *)
Inductive AnyCall : Type :=
| Called (R : Type) (c : Call R) (r : R).

(** A history entry: the call with its answer, and the controller as it was
    when the call was made. *)
Record Entry : Type := mkEntry { at_ctl : Controller; what : AnyCall }.

(** The environment: the state of everything outside the controller, the
    answer it gives to each call, and the decoder of the message factory
    ([None] stands for a raised [message.MsgError]). *)
Class Environment : Type := {
  Env : Type;
  handle : forall R : Type, Call R -> Env -> R * Env;
  incoming_msg : Datagram -> option Msg;
}.

Context {E : Environment}.

(** ** The monad of methods *)

Record World : Type := mkWorld {
  ctl : Controller;
  env : Env;
  trace : list Entry;
}.

Inductive Outcome (A : Type) : Type :=
| Returned (a : A) (w : World)
| Raised (e : Exn) (w : World).
Arguments Raised {A}.

Definition M (A : Type) : Type := World -> Outcome A.

Definition ret {A : Type} (a : A) : M A := fun w => Returned a w.

Definition bind {A B : Type} (m : M A) (k : A -> M B) : M B :=
  fun w =>
    match m w with
    | Returned a w' => k a w'
    | Raised e w' => Raised e w'
    end.

Definition raise {A : Type} (e : Exn) : M A := fun w => Raised e w.

(** Read an attribute of [self]. *)
Definition self {A : Type} (f : Controller -> A) : M A :=
  fun w => Returned (f (ctl w)) w.

(** Assign the attributes of [self]. *)
Definition assign (f : Controller -> Controller) : M unit :=
  fun w => Returned tt (mkWorld (f (ctl w)) (env w) (trace w)).

(** Make a call: the environment answers and moves on, the history grows. *)
Definition call {R : Type} (c : Call R) : M R :=
  fun w =>
    let (r, e') := handle c (env w) in
    Returned r
      (mkWorld (ctl w) e' (trace w ++ [mkEntry (ctl w) (Called c r)])).

End Model.

Arguments Raised {O E A} e w.

Declare Scope py_scope.
Delimit Scope py_scope with py.
Notation "x <- m ;; k" := (bind m (fun x => k))
  (at level 100, m at next level, right associativity) : py_scope.
Notation "' p <- m ;; k" := (bind m (fun p => k))
  (at level 100, p pattern, m at next level, right associativity) : py_scope.
Notation "m ;; k" := (bind m (fun _ => k))
  (at level 100, right associativity) : py_scope.

Local Open Scope py_scope.

(** ** The methods of [Controller] *)

Section Methods.

Context {O : Objects} {E : Environment}.

(** Assignments to the attributes of [self]. *)
Definition set_next_maintenance_ts (v : Q) (c : Controller) : Controller :=
  mkController (_my_id c) v (_next_timeout_ts c) (_next_main_loop_call_ts c)
    (_cached_lookups c).

Definition set_next_timeout_ts (v : Q) (c : Controller) : Controller :=
  mkController (_my_id c) (_next_maintenance_ts c) v
    (_next_main_loop_call_ts c) (_cached_lookups c).

Definition set_next_main_loop_call_ts (v : Q) (c : Controller) : Controller :=
  mkController (_my_id c) (_next_maintenance_ts c) (_next_timeout_ts c) v
    (_cached_lookups c).

Definition set_cached_lookups (v : list CachedLookup) (c : Controller) :
  Controller :=
  mkController (_my_id c) (_next_maintenance_ts c) (_next_timeout_ts c)
    (_next_main_loop_call_ts c) v.

(** [Controller.__init__], as far as the attributes of [self] go: the three
    timestamps are the time of construction and the cache is empty.
    [my_id] is the id the node ends up with (given or random). *)
Definition __init__ (my_id : Id) (e : Env) : World :=
  let (current_ts, e') := handle Time_time e in
  mkWorld (mkController my_id current_ts current_ts current_ts []) e' [].

(** *** The peer cache *)

(** The [for] loop of [_get_cached_peers]: the peers of the first entry
    with [ts > oldest_valid_ts and info_hash == cached_info_hash]; falling
    off the loop returns [None]. *)
Fixpoint scan_cached (oldest_valid_ts : Q) (h : Id)
  (cache : list CachedLookup) : option (list Peer) :=
  match cache with
  | [] => None
  | (ts, cached_info_hash, peers) :: rest =>
      if Qltb oldest_valid_ts ts && (if Id_eq_dec h cached_info_hash then true else false)
      then Some peers
      else scan_cached oldest_valid_ts h rest
  end.

Definition _get_cached_peers (h : Id) : M (option (list Peer)) :=
  now <- call Time_time ;;
  let oldest_valid_ts := (now - CACHE_VALID_PERIOD)%Q in
  cache <- self _cached_lookups ;;
  ret (scan_cached oldest_valid_ts h cache).

(** The [while] loop of [_add_cache_peers]: delete the head while there is
    one and its timestamp is [< oldest_valid_ts]. *)
Fixpoint drop_old (oldest_valid_ts : Q) (cache : list CachedLookup) :
  list CachedLookup :=
  match cache with
  | [] => []
  | (ts, h, peers) :: rest =>
      if Qltb ts oldest_valid_ts then drop_old oldest_valid_ts rest
      else cache
  end.

(** [cache[-1]], with the entries before it, when the list is not empty. *)
Fixpoint split_last (cache : list CachedLookup) :
  option (list CachedLookup * CachedLookup) :=
  match cache with
  | [] => None
  | e :: rest =>
      match split_last rest with
      | None => Some ([], e)
      | Some (front, l) => Some (e :: front, l)
      end
  end.

(** [_add_cache_peers].  The batches are held by value here, and the
    effect of [extend] is told for the entry it is called on.  What it does
    to a list object that is held elsewhere as well is told in
    [ByReference] below. *)
Definition _add_cache_peers (h : Id) (peers : list Peer) : M unit :=
  now <- call Time_time ;;
  let oldest_valid_ts := (now - CACHE_VALID_PERIOD)%Q in
  cache <- self _cached_lookups ;;
  let kept := drop_old oldest_valid_ts cache in
  assign (set_cached_lookups kept) ;;
  match split_last kept with
  | Some (front, (ts, last_hash, batch)) =>
      if Id_eq_dec last_hash h
      then assign (set_cached_lookups (front ++ [(ts, last_hash, batch ++ peers)]))
      else
        now' <- call Time_time ;;
        assign (set_cached_lookups (kept ++ [(now', h, peers)]))
  | None =>
      now' <- call Time_time ;;
      assign (set_cached_lookups (kept ++ [(now', h, peers)]))
  end.

(** *** Registering queries *)

Definition _register_queries (queries_to_send : PyList Query) :
  M (list Datagram) :=
  if negb (truthy queries_to_send) then ret []
  else
    ' (timeout_call_ts, datagrams_to_send) <-
        call (Querier_register_queries (items queries_to_send)) ;;
    next <- self _next_main_loop_call_ts ;;
    assign (set_next_main_loop_call_ts (py_min next timeout_call_ts)) ;;
    ret datagrams_to_send.

Definition _announce (lo : LookupObj) : M (list Query) :=
  ' (queries_to_send, announce_to_myself) <- call (Lookup_announce lo) ;;
  ret queries_to_send.

(** [if callback_f and callable(callback_f): callback_f(lid, peers, node)]. *)
Definition invoke_if_callable (cb : PyCallback Callable) (lid : LookupId)
  (peers : option (list Peer)) (node : option Node) : M unit :=
  match callable cb with
  | Some f => call (Callback f lid peers node)
  | None => ret tt
  end.

(** *** Timeouts and the heartbeat *)

(** [_on_timeout].  When the experimental manager hands back queries, they
    are registered and then [datagrams_to_send.extend(datagrams)] is
    evaluated: the method has no local of that name and the module no
    global, so the statement raises [NameError]. *)
Definition _on_timeout (related_query : RelatedQuery) : M (list Query) :=
  let queries_to_send := [] in
  exp_queries_to_send <- call (Exp_on_timeout related_query) ;;
  queries_to_send <-
    match lookup_obj related_query with
    | Some lo =>
        ' (lookup_queries_to_send, num_parallel_queries, lookup_done) <-
            call (Lookup_on_timeout lo (dst_node related_query)) ;;
        let queries_to_send := queries_to_send ++ lookup_queries_to_send in
        if (lookup_done : bool) then
          invoke_if_callable (callback_f lo) (lookup_id lo) None None ;;
          announce <- _announce lo ;;
          ret (queries_to_send ++ announce)
        else ret queries_to_send
    | None => ret queries_to_send
    end ;;
  maintenance_queries_to_send <-
    call (Routing_on_timeout (dst_node related_query)) ;;
  let queries_to_send :=
    if truthy maintenance_queries_to_send
    then queries_to_send ++ items maintenance_queries_to_send
    else queries_to_send in
  if truthy exp_queries_to_send then
    datagrams <- _register_queries exp_queries_to_send ;;
    raise (NameError "datagrams_to_send")
  else ret queries_to_send.

(** [for query in timeout_queries:
       queries_to_send.extend(self._on_timeout(query))]. *)
Fixpoint for_timeout_queries (timeout_queries : list RelatedQuery)
  (queries_to_send : list Query) : M (list Query) :=
  match timeout_queries with
  | [] => ret queries_to_send
  | query :: rest =>
      qs <- _on_timeout query ;;
      for_timeout_queries rest (queries_to_send ++ qs)
  end.

(** The timeout sweep of [main_loop]. *)
Definition take_care_of_timeouts (current_ts : Q)
  (queries_to_send : list Query) : M (list Query) :=
  next_timeout_ts <- self _next_timeout_ts ;;
  if Qgeb current_ts next_timeout_ts then
    ' (ts, timeout_queries) <- call Querier_get_timeout_queries ;;
    assign (set_next_timeout_ts ts) ;;
    for_timeout_queries timeout_queries queries_to_send
  else ret queries_to_send.

(** The routing table maintenance of [main_loop]; the clock is read again
    for the test. *)
Definition routing_table_maintenance (current_ts : Q)
  (queries_to_send : list Query) : M (list Query) :=
  now <- call Time_time ;;
  next_maintenance_ts <- self _next_maintenance_ts ;;
  if Qgeb now next_maintenance_ts then
    ' (maintenance_delay, queries, maintenance_lookup) <-
        call Routing_do_maintenance ;;
    assign (set_next_maintenance_ts (current_ts + maintenance_delay)%Q) ;;
    next <- self _next_main_loop_call_ts ;;
    next_maintenance_ts <- self _next_maintenance_ts ;;
    assign (set_next_main_loop_call_ts (py_min next next_maintenance_ts)) ;;
    let queries_to_send := queries_to_send ++ queries in
    match maintenance_lookup with
    | Some (target, rnodes) =>
        lo <- call (LookupM_maintenance_lookup target) ;;
        started <- call (Lookup_start lo rnodes false) ;;
        ret (queries_to_send ++ started)
    | None => ret queries_to_send
    end
  else ret queries_to_send.

Definition main_loop : M (Q * list Datagram) :=
  let queries_to_send := [] in
  current_ts <- call Time_time ;;
  next <- self _next_main_loop_call_ts ;;
  if Qgeb current_ts next then
    assign (set_next_main_loop_call_ts (current_ts + 1)%Q) ;;
    queries_to_send <- take_care_of_timeouts current_ts queries_to_send ;;
    queries_to_send <- routing_table_maintenance current_ts queries_to_send ;;
    datagrams_to_send <- _register_queries (Some queries_to_send) ;;
    next <- self _next_main_loop_call_ts ;;
    ret (next, datagrams_to_send)
  else
    ret (next, []).

(** *** Incoming datagrams *)

(** The common end of [on_datagram_received]: register the maintenance
    queries, then the experimental ones if there are any. *)
Definition send_plugin_queries (datagrams_to_send : list Outbound)
  (maintenance_queries_to_send exp_queries_to_send : PyList Query) :
  M (Q * list Outbound) :=
  datagrams <- _register_queries maintenance_queries_to_send ;;
  let datagrams_to_send := datagrams_to_send ++ map Dgram datagrams in
  datagrams_to_send <-
    (if truthy exp_queries_to_send then
       datagrams <- _register_queries exp_queries_to_send ;;
       ret (datagrams_to_send ++ map Dgram datagrams)
     else ret datagrams_to_send) ;;
  next <- self _next_main_loop_call_ts ;;
  ret (next, datagrams_to_send).

(** [return self._next_main_loop_call_ts, datagrams_to_send]. *)
Definition return_now (datagrams_to_send : list Outbound) :
  M (Q * list Outbound) :=
  next <- self _next_main_loop_call_ts ;;
  ret (next, datagrams_to_send).

(** The branch [msg.type == message.QUERY]. *)
Definition on_query (datagram : Datagram) (msg : Msg)
  (datagrams_to_send : list Outbound) : M (Q * list Outbound) :=
  my_id <- self _my_id ;;
  if Id_eq_dec (node_id (src_node msg)) my_id then
    return_now datagrams_to_send
  else
    exp_queries_to_send <- call (Exp_on_query_received msg) ;;
    response_msg <- call (Responder_get_response msg) ;;
    let datagrams_to_send :=
      match response_msg with
      | Some r =>
          let bencoded_response := stamp r (tid msg) in
          datagrams_to_send ++ [Dgram (mkDatagram bencoded_response (addr datagram))]
      | None => datagrams_to_send
      end in
    maintenance_queries_to_send <-
      call (Routing_on_query_received (src_node msg)) ;;
    send_plugin_queries datagrams_to_send maintenance_queries_to_send
      exp_queries_to_send.

(** The lookup related tasks of the RESPONSE branch. *)
Definition response_lookup_tasks (msg : Msg) (lo : LookupObj)
  (datagrams_to_send : list Outbound) : M (list Outbound) :=
  ' (lookup_queries_to_send, peers, num_parallel_queries, lookup_done) <-
      call (Lookup_on_response_received lo msg (src_node msg)) ;;
  datagrams <- _register_queries (Some lookup_queries_to_send) ;;
  let datagrams_to_send := datagrams_to_send ++ map Dgram datagrams in
  (if truthy peers then
     _add_cache_peers (info_hash lo) (items peers) ;;
     invoke_if_callable (callback_f lo) (lookup_id lo) (Some (items peers))
       (Some (src_node msg))
   else ret tt) ;;
  if (lookup_done : bool) then
    invoke_if_callable (callback_f lo) (lookup_id lo) None
      (Some (src_node msg)) ;;
    queries_to_send <- _announce lo ;;
    datagrams <- _register_queries (Some queries_to_send) ;;
    ret (datagrams_to_send ++ map Dgram datagrams)
  else ret datagrams_to_send.

(** The branch [msg.type == message.RESPONSE]. *)
Definition on_response (msg : Msg) (datagrams_to_send : list Outbound) :
  M (Q * list Outbound) :=
  related_query <- call (Querier_get_related_query msg) ;;
  match related_query with
  | None => return_now datagrams_to_send
  | Some rq =>
      exp_queries_to_send <- call (Exp_on_response_received msg rq) ;;
      datagrams_to_send <-
        match lookup_obj rq with
        | Some lo => response_lookup_tasks msg lo datagrams_to_send
        | None => ret datagrams_to_send
        end ;;
      maintenance_queries_to_send <-
        call (Routing_on_response_received (src_node msg) (rtt rq)
                (all_nodes msg)) ;;
      send_plugin_queries datagrams_to_send maintenance_queries_to_send
        exp_queries_to_send
  end.

(** The lookup related tasks of the ERROR branch; the announce queries go
    into [datagrams_to_send] as they are. *)
Definition error_lookup_tasks (datagram : Datagram) (msg : Msg)
  (lo : LookupObj) (datagrams_to_send : list Outbound) : M (list Outbound) :=
  ' (lookup_queries_to_send, num_parallel_queries, lookup_done) <-
      call (Lookup_on_error_received lo msg (addr datagram)) ;;
  datagrams <- _register_queries (Some lookup_queries_to_send) ;;
  let datagrams_to_send := datagrams_to_send ++ map Dgram datagrams in
  match callable (callback_f lo) with
  | Some f =>
      if (lookup_done : bool)
      then call (Callback f (lookup_id lo) None (Some (src_node msg)))
      else ret tt
  | None => ret tt
  end ;;
  if (lookup_done : bool) then
    datagrams <- _announce lo ;;
    ret (datagrams_to_send ++ map Unregistered datagrams)
  else ret datagrams_to_send.

(** The branch [msg.type == message.ERROR]. *)
Definition on_error (datagram : Datagram) (msg : Msg)
  (datagrams_to_send : list Outbound) : M (Q * list Outbound) :=
  related_query <- call (Querier_get_related_query msg) ;;
  match related_query with
  | None => return_now datagrams_to_send
  | Some rq =>
      exp_queries_to_send <- call (Exp_on_error_received msg rq) ;;
      datagrams_to_send <-
        match lookup_obj rq with
        | Some lo => error_lookup_tasks datagram msg lo datagrams_to_send
        | None => ret datagrams_to_send
        end ;;
      maintenance_queries_to_send <-
        call (Routing_on_error_received (addr datagram)) ;;
      send_plugin_queries datagrams_to_send maintenance_queries_to_send
        exp_queries_to_send
  end.

Definition on_datagram_received (datagram : Datagram) :
  M (Q * list Outbound) :=
  let datagrams_to_send := [] in
  match incoming_msg datagram with
  | None => return_now datagrams_to_send
  | Some msg =>
      match msg_type msg with
      | QUERY => on_query datagram msg datagrams_to_send
      | RESPONSE => on_response msg datagrams_to_send
      | ERROR => on_error datagram msg datagrams_to_send
      | OTHER_TYPE => return_now datagrams_to_send
      end
  end.

(** *** Starting a lookup *)

Definition get_peers (lid : LookupId) (h : Id) (cb : PyCallback Callable)
  (bt_port : Port) (use_cache : bool) : M (list Datagram) :=
  let datagrams_to_send := [] in
  let start_lookup : M (list Datagram) :=
    lo <- call (LookupM_get_peers lid h cb bt_port) ;;
    my_id <- self _my_id ;;
    let log_distance := distance_log (info_hash lo) my_id in
    bootstrap_rnodes <-
      call (Routing_get_closest_rnodes log_distance 0 true) ;;
    peers <- call (Tracker_get (info_hash lo)) ;;
    let cb := callback_f lo in
    (if truthy peers then
       _add_cache_peers (info_hash lo) (items peers) ;;
       invoke_if_callable cb (lookup_id lo) (Some (items peers)) None
     else ret tt) ;;
    queries_to_send <- call (Lookup_start lo bootstrap_rnodes true) ;;
    _register_queries (Some queries_to_send) in
  if use_cache then
    peers <- _get_cached_peers h ;;
    match (if truthy peers then callable cb else None) with
    | Some f =>
        call (Callback f lid peers None) ;;
        call (Callback f lid None None) ;;
        ret datagrams_to_send
    | None => start_lookup
    end
  else start_lookup.

End Methods.

(** ** Predicates of the statements *)

Section Predicates.

Context {O : Objects} {E : Environment}.

Definition entry_ts (e : CachedLookup) : Q := fst (fst e).
Definition entry_hash (e : CachedLookup) : Id := snd (fst e).
Definition entry_peers (e : CachedLookup) : list Peer := snd e.

(** Entries in non-decreasing order of timestamp. *)
Fixpoint ts_ordered (cache : list CachedLookup) : Prop :=
  match cache with
  | [] => True
  | e :: rest =>
      Forall (fun e' => (entry_ts e <= entry_ts e')%Q) rest /\ ts_ordered rest
  end.

(** An entry for [h] that [_get_cached_peers] accepts at time [now]: its age
    is below [CACHE_VALID_PERIOD]. *)
Definition fresh_for (now : Q) (h : Id) (e : CachedLookup) : Prop :=
  (now - entry_ts e < CACHE_VALID_PERIOD)%Q /\ entry_hash e = h.

(** The history entry of a call made from world [w]. *)
Definition logged {R : Type} (w : World) (c : Call R) : Entry :=
  mkEntry (ctl w) (Called c (fst (handle c (env w)))).

(** The world right after a call made from world [w]. *)
Definition after {R : Type} (w : World) (c : Call R) : World :=
  mkWorld (ctl w) (snd (handle c (env w))) (trace w ++ [logged w c]).

(** The datagrams the querier answered to the [register_queries] calls of a
    stretch of history. *)
Definition registered_by (a : AnyCall) : list Datagram :=
  match a with
  | Called c r =>
      match c in Call R return R -> list Datagram with
      | Querier_register_queries _ => fun r => snd r
      | _ => fun _ => []
      end r
  end.

Definition registered (history : list Entry) : list Datagram :=
  flat_map (fun e => registered_by (what e)) history.

(** Whether a history entry is an invocation of a user callback. *)
Definition is_callback (e : Entry) : bool :=
  match what e with
  | Called c _ =>
      match c with
      | Callback _ _ _ _ => true
      | _ => false
      end
  end.

(** The history entry of the guarded invocation
    [if callback_f and callable(callback_f): callback_f(lid, peers, node)]
    made with the controller as [c]: none when the callback is not
    callable. *)
Definition callback_entries (c : Controller) (cb : PyCallback Callable)
  (lid : LookupId) (peers : option (list Peer)) (node : option Node) :
  list Entry :=
  match callable cb with
  | Some f => [mkEntry c (Called (Callback f lid peers node) tt)]
  | None => []
  end.

(** An answer that respects time as seen at [now]: a maintenance delay that
    is not negative, a registration deadline that is not before [now]. *)
Definition on_time (now : Q) (e : Entry) : Prop :=
  match what e with
  | Called c r =>
      match c in Call R return R -> Prop with
      | Routing_do_maintenance => fun r => (0 <= fst (fst r))%Q
      | Querier_register_queries _ => fun r => (now <= fst r)%Q
      | _ => fun _ => True
      end r
  end.

(** [m] returns from every world, and only adds to the history. *)
Definition runs {A : Type} (m : M A) : Prop :=
  forall w, exists a w' ext, m w = Returned a w' /\ trace w' = trace w ++ ext.

(** [m], when it returns, has left the controller as it was and only added
    to the history. *)
Definition keeps_ctl {A : Type} (m : M A) : Prop :=
  forall w a w',
    m w = Returned a w' ->
    ctl w' = ctl w /\ exists ext, trace w' = trace w ++ ext.

(** One stretch of a tick, seen from the scheduling timestamps:
    [_next_main_loop_call_ts] is not raised; it stays at or after [now] when
    the answers of the stretch are on time; and it is at most
    [_next_maintenance_ts] once that one has been set or the bound held
    before. *)
Definition tick_step (now : Q) (w w' : World) : Prop :=
  exists ext,
    trace w' = trace w ++ ext /\
    (_next_main_loop_call_ts (ctl w') <= _next_main_loop_call_ts (ctl w))%Q /\
    (Forall (on_time now) ext ->
     (now <= _next_main_loop_call_ts (ctl w))%Q ->
     (now <= _next_main_loop_call_ts (ctl w'))%Q) /\
    (_next_maintenance_ts (ctl w') = _next_maintenance_ts (ctl w) \/
     (_next_main_loop_call_ts (ctl w') <= _next_maintenance_ts (ctl w'))%Q).

End Predicates.

(** ** A concrete environment

    Small objects and a scripted environment, on which the methods run by
    computation: ids, addresses, peers and queries are numbers, a node is
    [(addr, id)], the bytes of a datagram are taken as the message they
    decode to, and each collaborator answers what the script says. *)

Module Scenario.

Record TMsg : Type := mkTMsg {
  t_type : MsgType;
  t_src : nat * nat;
  t_tid : nat;
  t_nodes : list (nat * nat);
}.

Record TLookup : Type := mkTLookup {
  l_id : nat;
  l_hash : nat;
  l_cb : PyCallback nat;
}.

Record TQuery : Type := mkTQuery {
  r_lookup : option TLookup;
  r_dst : nat * nat;
  r_rtt : Q;
}.

Definition objects : Objects := {|
  Id := nat;
  Id_eq_dec := Nat.eq_dec;
  LogDistance := nat;
  distance_log := fun a b => Nat.log2 (Nat.lxor a b);
  Addr := nat;
  Node := nat * nat;
  node_id := snd;
  Peer := nat;
  LookupId := nat;
  Callable := nat;
  Port := Z;
  Query := nat;
  Data := option TMsg;
  Tid := nat;
  Msg := TMsg;
  msg_type := t_type;
  src_node := t_src;
  tid := t_tid;
  all_nodes := t_nodes;
  OutMsg := TMsg;
  stamp := fun r t => Some (mkTMsg (t_type r) (t_src r) t (t_nodes r));
  LookupObj := TLookup;
  lookup_id := l_id;
  info_hash := l_hash;
  callback_f := l_cb;
  RelatedQuery := TQuery;
  lookup_obj := r_lookup;
  dst_node := r_dst;
  rtt := r_rtt;
|}.

(** What each collaborator answers. *)
Record Script : Type := mkScript {
  clock : Q;                                 (* ptime.time() *)
  timeouts : Q * list TQuery;                (* querier.get_timeout_queries *)
  deadline : Q;                              (* querier.register_queries *)
  related : option TQuery;                   (* querier.get_related_query *)
  closest : list (nat * nat);                (* routing_m.get_closest_rnodes *)
  maintenance : Q * list nat * option (nat * list (nat * nat));
  routing_queries : PyList nat;              (* routing_m.on_..._received *)
  response : option TMsg;                    (* responder.get_response *)
  tracked : PyList nat;                      (* tracker.get *)
  lookup_queries : list nat;                 (* lookup_obj.start, on_... *)
  lookup_peers : PyList nat;
  lookup_done : bool;
  exp_queries : PyList nat;                  (* experimental_m.on_... *)
}.

(** The datagram the scripted querier makes of a query to address [q]. *)
Definition datagram_of (q : nat) : @Datagram objects :=
  @mkDatagram objects (Some (mkTMsg QUERY (0, 0) q [])) q.

Definition scripted (R : Type) (c : @Call objects R) (s : Script) :
  R * Script :=
  match c in Call R return R * Script with
  | Time_time => (clock s, s)
  | Querier_get_timeout_queries => (timeouts s, s)
  | Querier_register_queries qs => ((deadline s, map datagram_of qs), s)
  | Querier_get_related_query _ => (related s, s)
  | Routing_get_closest_rnodes _ _ _ => (closest s, s)
  | Routing_do_maintenance => (maintenance s, s)
  | Routing_on_query_received _ => (routing_queries s, s)
  | Routing_on_response_received _ _ _ => (routing_queries s, s)
  | Routing_on_error_received _ => (routing_queries s, s)
  | Routing_on_timeout _ => (routing_queries s, s)
  | Responder_get_response _ => (response s, s)
  | Tracker_get _ => (tracked s, s)
  | LookupM_get_peers lid h cb _ => (mkTLookup lid h cb, s)
  | LookupM_maintenance_lookup target => (mkTLookup 0 target CbNone, s)
  | Lookup_start _ _ _ => (lookup_queries s, s)
  | Lookup_on_response_received _ _ _ =>
      ((lookup_queries s, lookup_peers s, 0%nat, lookup_done s), s)
  | Lookup_on_error_received _ _ _ =>
      ((lookup_queries s, 0%nat, lookup_done s), s)
  | Lookup_on_timeout _ _ => ((lookup_queries s, 0%nat, lookup_done s), s)
  | Lookup_announce _ => (([], false), s)
  | Exp_on_query_received _ => (exp_queries s, s)
  | Exp_on_response_received _ _ => (exp_queries s, s)
  | Exp_on_error_received _ _ => (exp_queries s, s)
  | Exp_on_timeout _ => (exp_queries s, s)
  | Callback _ _ _ _ => (tt, s)
  end.

Definition environment : @Environment objects := {|
  Env := Script;
  handle := scripted;
  incoming_msg := fun d => @data objects d;
|}.

(** A quiet script at time [t]: nothing timed out, nothing to do. *)
Definition quiet (t : Q) : Script :=
  mkScript t ((t + 1)%Q, []) (t + 2)%Q None [] (10%Q, [], None) None None None
    [] None false None.

Definition world (c : @Controller objects) (s : Script) :
  @World objects environment :=
  @mkWorld objects environment c s [].

(** A controller of id 7 whose three timestamps are [t]. *)
Definition ctl_at (t : Q) (cache : list (@CachedLookup objects)) :
  @Controller objects :=
  @mkController objects 7 t t t cache.

(** A QUERY from the node of id [id] at address 1, a reply from node 9, and
    the datagram a message comes in. *)
Definition query_from (id : nat) : TMsg := mkTMsg QUERY (1, id) 3 [].
Definition reply (ty : MsgType) : TMsg := mkTMsg ty (1, 9) 3 [].
Definition datagram_with (m : TMsg) : @Datagram objects :=
  @mkDatagram objects (Some m) 1.

(** The world at a later call: same controller and history, the environment
    having moved on to [s]. *)
Definition later (w : @World objects environment) (s : Script) :
  @World objects environment :=
  @mkWorld objects environment (ctl w) s (trace w).

(** Nothing cached, nothing going on, at time 1 and at time 10. *)
Definition idle_world : @World objects environment :=
  world (ctl_at 0 []) (quiet 1).
Definition idle_world_10 : @World objects environment :=
  world (ctl_at 0 []) (quiet 10).

(** At time 1 one query to node 9 has timed out, and the experimental
    manager hands back a query for it. *)
Definition timed_out : TQuery := mkTQuery None (1, 9) 0%Q.
Definition exp_script : Script :=
  mkScript 1%Q (2%Q, [timed_out]) 3%Q None [] (10%Q, [], None) None None
    None [] None false (Some [5]).
Definition exp_world : @World objects environment :=
  world (ctl_at 0 []) exp_script.

(** Time 0, right after construction: a lookup starts with one query, to
    address 4, whose deadline is 1.5; nothing has timed out; and the routing
    manager asks for maintenance again in 1.5 s and sends nothing. *)
Definition busy_start : Script :=
  mkScript 0%Q ((3 # 2)%Q, []) (3 # 2)%Q None [(1, 9)]
    ((3 # 2)%Q, [], None) None None None [4] None false None.

(** The cache was loaded at time 0 with two peers for info-hash 5. *)
Definition hit_entry : @CachedLookup objects := (0%Q, 5, [1; 2]).
Definition hit_world : @World objects environment :=
  world (ctl_at 0 [hit_entry]) (quiet 0).
Definition created : TLookup := mkTLookup 42 5 CbNone.

(** An entry for info-hash 5 that is exactly 300 s old. *)
Definition boundary_entry : @CachedLookup objects := (0%Q, 5, [1]).
Definition boundary_world : @World objects environment :=
  world (ctl_at 0 [boundary_entry]) (quiet 300).

(** Two entries for info-hash 5, looked up at time 350. *)
Definition two_entries : list (@CachedLookup objects) :=
  [(0%Q, 5, [1]); (100%Q, 5, [2])].
Definition two_entries_world : @World objects environment :=
  world (ctl_at 0 two_entries) (quiet 350).

(** An old entry and a recent one for info-hash 6, at time 500. *)
Definition old_and_recent : list (@CachedLookup objects) :=
  [(0%Q, 5, [1]); (400%Q, 6, [2])].
Definition old_and_recent_world : @World objects environment :=
  world (ctl_at 0 old_and_recent) (quiet 500).

(** A response from node 9 matches a query of lookup 42, whose callback is
    callable, and brings peer 8. *)
Definition peers_lookup : TLookup := mkTLookup 42 5 (CbCallable 1).
Definition peers_query : TQuery := mkTQuery (Some peers_lookup) (1, 9) (1 # 10)%Q.
Definition peers_script : Script :=
  mkScript 10%Q (11%Q, []) 12%Q (Some peers_query) [] (10%Q, [], None) None
    None None [] (Some [8]) false None.
Definition peers_world : @World objects environment :=
  world (ctl_at 0 []) peers_script.

(** The responder has no response, and the routing manager wants to ping
    address 4. *)
Definition ping_script : Script :=
  mkScript 10%Q (11%Q, []) 12%Q None [] (10%Q, [], None) (Some [4]) None
    None [] None false None.
Definition ping_world : @World objects environment :=
  world (ctl_at 0 []) ping_script.

(** The routing table knows node 9 and the lookup starts with one query, to
    address 4; the cache holds [hit_entry]. *)
Definition start_script : Script :=
  mkScript 0%Q (1%Q, []) 2%Q None [(1, 9)] (10%Q, [], None) None None None
    [4] None false None.
Definition start_world : @World objects environment :=
  world (ctl_at 0 [hit_entry]) start_script.

End Scenario.

(** ** Further predicates: frames, histories and their callbacks *)

Unset Implicit Arguments.

Section Frames.

Context {O : Objects} {E : Environment}.

(** The world a computation ends in, whether it returns or raises. *)
Definition world_of {A : Type} (o : Outcome A) : World :=
  match o with
  | Returned _ w => w
  | Raised _ w => w
  end.

(** [m] relates every world to the one it ends in by [R]. *)
Definition always (R : World -> World -> Prop) {A : Type} (m : M A) : Prop :=
  forall w, R w (world_of (m w)).

(** The cache and the node id are as they were. *)
Definition same_cache (w w' : World) : Prop :=
  _cached_lookups (ctl w') = _cached_lookups (ctl w) /\
  _my_id (ctl w') = _my_id (ctl w).

(** Of the scheduling state only [_next_main_loop_call_ts] has moved, and
    not to a later time; the node id is as it was. *)
Definition only_sooner (w w' : World) : Prop :=
  _my_id (ctl w') = _my_id (ctl w) /\
  _next_maintenance_ts (ctl w') = _next_maintenance_ts (ctl w) /\
  _next_timeout_ts (ctl w') = _next_timeout_ts (ctl w) /\
  (_next_main_loop_call_ts (ctl w') <= _next_main_loop_call_ts (ctl w))%Q.

(** The first component of what [m] returns is the [_next_main_loop_call_ts]
    it leaves. *)
Definition tells_next {B : Type} (m : M (Q * B)) : Prop :=
  forall w a w',
    m w = Returned a w' -> fst a = _next_main_loop_call_ts (ctl w').

(** The callbacks invoked in a stretch of history, in order. *)
Definition callbacks (history : list Entry) : list AnyCall :=
  map what (filter is_callback history).

(** What the guarded invocation
    [if callback_f and callable(callback_f): callback_f(lid, peers, node)]
    adds to the callbacks. *)
Definition callback_calls (cb : PyCallback Callable) (lid : LookupId)
  (peers : option (list Peer)) (node : option Node) : list AnyCall :=
  match callable cb with
  | Some f => [Called (Callback f lid peers node) tt]
  | None => []
  end.

(** [m] run from [w] returns [a] in [w'], having added [ext] to the
    history. *)
Definition yields {A : Type} (m : M A) (w : World) (a : A) (w' : World)
  (ext : list Entry) : Prop :=
  m w = Returned a w' /\ trace w' = trace w ++ ext.

(** The world at a later call of a method: the controller as the last call
    left it, the environment having moved on to [e], the history kept. *)
Definition at_env (w : World) (e : Env) : World :=
  mkWorld (ctl w) e (trace w).

(** [m], when it returns, has made no [register_queries] call that yielded
    datagrams. *)
Definition silent {A : Type} (m : M A) : Prop :=
  forall w a w',
    m w = Returned a w' ->
    exists ext, trace w' = trace w ++ ext /\ registered ext = [].

(** The datagrams [m] returns are those the querier answered to the
    [register_queries] calls made while it ran. *)
Definition accounted {A : Type} (p : A -> list Datagram) (m : M A) : Prop :=
  forall w a w',
    m w = Returned a w' ->
    exists ext, trace w' = trace w ++ ext /\ registered ext = p a.

(** The identity on lists of datagrams, as what [accounted] looks at. *)
Definition whole (ds : list Datagram) : list Datagram := ds.

(** What [_register_queries(qs)] returns when it is run in environment [e]:
    the datagrams the querier answers to [register_queries(qs)], and none
    when [qs] is [None] or empty, the querier not being asked then. *)
Definition answered (qs : PyList Query) (e : Env) : list Datagram :=
  if truthy qs
  then snd (fst (handle (Querier_register_queries (items qs)) e))
  else [].

(** The world [_register_queries(qs)] leaves when it is run from [w]: [w]
    itself when [qs] is [None] or empty; otherwise the world after the one
    call to the querier, with [_next_main_loop_call_ts] lowered to the
    querier's deadline when that one is sooner. *)
Definition registering (qs : PyList Query) (w : World) : World :=
  if truthy qs then
    let c := Querier_register_queries (items qs) in
    mkWorld
      (set_next_main_loop_call_ts
         (py_min (_next_main_loop_call_ts (ctl w))
            (fst (fst (handle c (env w))))) (ctl w))
      (env (after w c)) (trace (after w c))
  else w.

(** The world the guarded invocation
    [if callback_f and callable(callback_f): callback_f(lid, peers, node)]
    leaves when it is made from [w]. *)
Definition calling (cb : PyCallback Callable) (lid : LookupId)
  (peers : option (list Peer)) (node : option Node) (w : World) : World :=
  match callable cb with
  | Some f => after w (Callback f lid peers node)
  | None => w
  end.

(** The history has only been added to. *)
Definition grows (w w' : World) : Prop :=
  exists ext, trace w' = trace w ++ ext.

End Frames.

(** ** The peer cache with its list objects

    [_add_cache_peers] puts the list object it is given into the cache, and
    extends the list object of the last entry in place; [_get_cached_peers]
    hands out a list object of the cache.  In [Controller] above the batches
    are held by value, which tells the same as long as no list object is
    reached in two ways.  Here the entries hold references into a store of
    list objects, so that a list object held twice is extended for both
    holders. *)

Module ByReference.

Section Store.

Context {O : Objects} {E : Environment}.

(** A list object is known by its address. *)
Definition Ref : Type := nat.

(** What each list object holds. *)
Definition Lists : Type := Ref -> list Peer.

(** A cache entry [(ts, info_hash, peers)], [peers] being a list object. *)
Definition CachedRef : Type := (Q * Id * Ref)%type.

Definition entry_ts (e : CachedRef) : Q := fst (fst e).
Definition entry_hash (e : CachedRef) : Id := snd (fst e).
Definition entry_ref (e : CachedRef) : Ref := snd e.

(** The list objects and [self._cached_lookups]. *)
Record Cache : Type := mkCache {
  lists : Lists;
  _cached_lookups : list CachedRef;
}.

(** [a.extend(b)]: the items of [b] are added at the end of the list object
    [a], for whoever holds [a]; [b] is read before [a] is changed, so that
    [a.extend(a)] doubles [a]. *)
Definition extend (ls : Lists) (a b : Ref) : Lists :=
  fun r => if Nat.eqb r a then ls a ++ ls b else ls r.

(** The [for] loop of [_get_cached_peers]; it returns the list object. *)
Fixpoint scan_cached (oldest_valid_ts : Q) (h : Id)
  (cache : list CachedRef) : option Ref :=
  match cache with
  | [] => None
  | (ts, cached_info_hash, peers) :: rest =>
      if Qltb oldest_valid_ts ts &&
         (if Id_eq_dec h cached_info_hash then true else false)
      then Some peers
      else scan_cached oldest_valid_ts h rest
  end.

Definition _get_cached_peers (h : Id) (s : Cache) (e : Env) :
  option Ref * Env :=
  let now := fst (handle Time_time e) in
  let oldest_valid_ts := (now - CACHE_VALID_PERIOD)%Q in
  (scan_cached oldest_valid_ts h (_cached_lookups s),
   snd (handle Time_time e)).

(** The [while] loop of [_add_cache_peers]. *)
Fixpoint drop_old (oldest_valid_ts : Q) (cache : list CachedRef) :
  list CachedRef :=
  match cache with
  | [] => []
  | (ts, h, peers) :: rest =>
      if Qltb ts oldest_valid_ts then drop_old oldest_valid_ts rest
      else cache
  end.

(** [cache[-1]], with the entries before it, when the list is not empty. *)
Fixpoint split_last (cache : list CachedRef) :
  option (list CachedRef * CachedRef) :=
  match cache with
  | [] => None
  | e :: rest =>
      match split_last rest with
      | None => Some ([], e)
      | Some (front, l) => Some (e :: front, l)
      end
  end.

(** [_add_cache_peers(info_hash, peers)], [peers] being a list object: the
    last entry's list object is extended in place and the entry itself is
    left as it is; or an entry that holds [peers] itself is appended. *)
Definition _add_cache_peers (h : Id) (peers : Ref) (s : Cache) (e : Env) :
  Cache * Env :=
  let now := fst (handle Time_time e) in
  let e1 := snd (handle Time_time e) in
  let oldest_valid_ts := (now - CACHE_VALID_PERIOD)%Q in
  let kept := drop_old oldest_valid_ts (_cached_lookups s) in
  let appended :=
    (mkCache (lists s) (kept ++ [(fst (handle Time_time e1), h, peers)]),
     snd (handle Time_time e1)) in
  match split_last kept with
  | Some (front, (ts, last_hash, batch)) =>
      if Id_eq_dec last_hash h
      then (mkCache (extend (lists s) batch peers) kept, e1)
      else appended
  | None => appended
  end.

(** An entry with its list object read, and the cache so read: what
    [Controller] above holds by value. *)
Definition read (ls : Lists) (e : CachedRef) : CachedLookup :=
  (entry_ts e, entry_hash e, ls (entry_ref e)).

Definition contents (s : Cache) : list CachedLookup :=
  map (read (lists s)) (_cached_lookups s).

(** No list object is held by an entry for [h] and by an entry for [h']. *)
Definition unshared (h h' : Id) (cache : list CachedRef) : Prop :=
  forall a b,
    In a cache -> In b cache ->
    entry_hash a = h -> entry_hash b = h' -> entry_ref a <> entry_ref b.

End Store.

End ByReference.

(** ** The plugin [plugins/collect_tracker_info.py]

    An [ExperimentalManager] that only keeps a record of the probes that
    timed out.  Its handlers log through [logger.debug] and read the clock
    for what they log; the log lines and those clock readings are left out.
    The dict [pinged_ips] is an association list read through [dict_get];
    [d[k] = v] is [dict_set]. *)

Module Plugin.

(** [STATUS_PINGED], [STATUS_OK], [STATUS_FAIL]. *)
Inductive Status : Type := STATUS_PINGED | STATUS_OK | STATUS_FAIL.

Section Manager.

Context {O : Objects}.

(** The ip of a node, and [related_query.experimental_obj], which the
    handlers test for truth. *)
Context {Ip ExpObj : Type}.
Context (Ip_eq_dec : forall a b : Ip, {a = b} + {a <> b}).
Context (ip : Node -> Ip).
Context (experimental_obj : RelatedQuery -> option ExpObj).

Definition Dict : Type := list (Ip * Status).

(** [d.get(k)]. *)
Fixpoint dict_get (d : Dict) (k : Ip) : option Status :=
  match d with
  | [] => None
  | (k', v) :: rest => if Ip_eq_dec k k' then Some v else dict_get rest k
  end.

(** [d[k] = v]: the value of an existing key is replaced, a new key is
    added. *)
Fixpoint dict_set (d : Dict) (k : Ip) (v : Status) : Dict :=
  match d with
  | [] => [(k, v)]
  | (k', v') :: rest =>
      if Ip_eq_dec k k' then (k', v) :: rest
      else (k', v') :: dict_set rest k v
  end.

(** The attributes of the manager. *)
Record ExperimentalManager : Type := mkExperimentalManager {
  my_id : Id;
  _stop : bool;
  pinged_ips : Dict;
  num_ok : Z;
  num_fail : Z;
}.

Definition __init__ (id : Id) : ExperimentalManager :=
  mkExperimentalManager id false [] 0%Z 0%Z.

(** Each handler returns [None] (it has no [return]) and the manager it
    leaves. *)
Definition on_query_received (self : ExperimentalManager) (msg : Msg) :
  PyList Query * ExperimentalManager :=
  (None, self).

Definition on_response_received (self : ExperimentalManager) (msg : Msg)
  (related_query : RelatedQuery) : PyList Query * ExperimentalManager :=
  (None, self).

Definition on_timeout (self : ExperimentalManager)
  (related_query : RelatedQuery) : PyList Query * ExperimentalManager :=
  match experimental_obj related_query with
  | Some _ =>
      (None,
       mkExperimentalManager (my_id self) (_stop self)
         (dict_set (pinged_ips self) (ip (dst_node related_query))
            STATUS_FAIL)
         (num_ok self) (num_fail self))
  | None => (None, self)
  end.

Definition on_stop (self : ExperimentalManager) : ExperimentalManager := self.

(** What the controller can tell a manager. *)
Inductive Event : Type :=
| EvQuery (msg : Msg)
| EvResponse (msg : Msg) (related_query : RelatedQuery)
| EvTimeout (related_query : RelatedQuery)
| EvStop.

Definition handle_event (self : ExperimentalManager) (ev : Event) :
  PyList Query * ExperimentalManager :=
  match ev with
  | EvQuery msg => on_query_received self msg
  | EvResponse msg rq => on_response_received self msg rq
  | EvTimeout rq => on_timeout self rq
  | EvStop => (None, on_stop self)
  end.

(** The manager after a sequence of events. *)
Definition after_events (self : ExperimentalManager) (evs : list Event) :
  ExperimentalManager :=
  fold_left (fun m ev => snd (handle_event m ev)) evs self.

(** Whether an event is the timeout of a probe (a query carrying an
    experimental object) sent to [k]. *)
Definition probe_timed_out (k : Ip) (ev : Event) : bool :=
  match ev with
  | EvTimeout rq =>
      match experimental_obj rq with
      | Some _ => if Ip_eq_dec k (ip (dst_node rq)) then true else false
      | None => false
      end
  | _ => false
  end.

End Manager.

End Plugin.

(** ** More concrete worlds *)

Module Cases.

Import Scenario.

(** At time 10 a query of lookup 42 is outstanding or has timed out: the
    lookup hands back a query to address 4 and reports done, the routing
    manager a query to address 6, the experimental manager nothing. *)
Definition done_script : Script :=
  mkScript 10%Q (11%Q, [peers_query]) 12%Q (Some peers_query) []
    (10%Q, [], None) (Some [6]) None None [4] None true None.
Definition done_world : @World objects environment :=
  world (ctl_at 0 []) done_script.

(** A response from node 9 matches a query of lookup 42; it brings peer 8
    and the lookup reports done. *)
Definition both_script : Script :=
  mkScript 10%Q (11%Q, []) 12%Q (Some peers_query) [] (10%Q, [], None) None
    None None [4] (Some [8]) true None.
Definition both_world : @World objects environment :=
  world (ctl_at 0 []) both_script.

(** A reply matches a maintenance query (one of no lookup) to node 9, and
    the routing manager wants to ping address 4. *)
Definition maintenance_reply_script : Script :=
  mkScript 10%Q (11%Q, []) 12%Q (Some timed_out) [] (10%Q, [], None)
    (Some [4]) None None [] None false None.
Definition maintenance_reply_world : @World objects environment :=
  world (ctl_at 0 [hit_entry]) maintenance_reply_script.

(** The responder answers; the routing manager wants to ping address 4
    and the experimental manager to query address 5. *)
Definition answer : TMsg := mkTMsg RESPONSE (0, 7) 0 [(1, 9)].
Definition answer_script : Script :=
  mkScript 10%Q (11%Q, []) 12%Q None [] (10%Q, [], None) (Some [4])
    (Some answer) None [] None false (Some [5]).
Definition answer_world : @World objects environment :=
  world (ctl_at 0 [hit_entry]) answer_script.

(** The responder has no response; the routing manager wants to ping
    address 4 and the experimental manager to query address 5. *)
Definition plugins_script : Script :=
  mkScript 10%Q (11%Q, []) 12%Q None [] (10%Q, [], None) (Some [4]) None
    None [] None false (Some [5]).
Definition plugins_world : @World objects environment :=
  world (ctl_at 0 [hit_entry]) plugins_script.

(** The same two queries, with the next tick due at time 20 only: the
    deadline of the registrations, 12, is sooner. *)
Definition late_world : @World objects environment :=
  world (ctl_at 20 []) plugins_script.

(** An environment in which [announce()] answers one query, to address 7;
    everything else is scripted as before. *)
Definition announcing_handler (R : Type) (c : @Call objects R) (s : Script) :
  R * Script :=
  match c in Call R0 return R0 * Script -> R0 * Script with
  | Lookup_announce _ => fun _ => (([7], false), s)
  | _ => fun scripted_answer => scripted_answer
  end (scripted c s).

Definition announcing : @Environment objects := {|
  Env := Script;
  handle := announcing_handler;
  incoming_msg := fun d => @data objects d;
|}.

(** An error from node 9 matches a query of lookup 42; the lookup hands
    back a query to address 4 and reports done, the routing manager hands
    back a query to address 6 and the experimental manager one to
    address 5. *)
Definition error_script : Script :=
  mkScript 10%Q (11%Q, []) 12%Q (Some peers_query) [] (10%Q, [], None)
    (Some [6]) None None [4] None true (Some [5]).
Definition error_world : @World objects announcing :=
  @mkWorld objects announcing (ctl_at 0 [hit_entry]) error_script [].

(** A datagram that does not decode. *)
Definition garbage : @Datagram objects := @mkDatagram objects None 1.

(** The next tick is due at time 5, and the clock reads 1. *)
Definition early_world : @World objects environment :=
  world (ctl_at 5 []) (quiet 1).

(** The list objects 0, 1 and 2 hold peers 1, 2 and 3. *)
Definition three_lists : @ByReference.Lists objects :=
  fun r =>
    match r with
    | 0 => [1]
    | 1 => [2]
    | 2 => [3]
    | _ => []
    end.

(** Entries for info-hashes 5 and 6, each with a list object of its own;
    and the same two entries holding one list object. *)
Definition own_lists : @ByReference.Cache objects :=
  ByReference.mkCache three_lists [(400%Q, 5, 0); (450%Q, 6, 1)].
Definition one_list_twice : @ByReference.Cache objects :=
  ByReference.mkCache three_lists [(400%Q, 5, 0); (450%Q, 6, 0)].

(** The first of them held by value, at time 500. *)
Definition by_value_world : @World objects environment :=
  world (ctl_at 0 (ByReference.contents own_lists)) (quiet 500).

(** For the plugin: the ip of a node is its address, and the queries that
    carry an experimental object are those of no lookup. *)
Definition ip (n : nat * nat) : nat := fst n.
Definition experimental_obj (rq : TQuery) : option nat :=
  match r_lookup rq with
  | Some _ => None
  | None => Some 1
  end.

End Cases.

(** ** Basic facts *)

Unset Implicit Arguments.

Section Basics.

Context {O : Objects} {E : Environment}.

Lemma Qltb_true (a b : Q) : Qltb a b = true <-> (a < b)%Q.
Proof.
  unfold Qltb. rewrite negb_true_iff. split; intro H.
  - apply Qnot_le_lt. intro L. apply Qle_bool_iff in L. congruence.
  - destruct (Qle_bool b a) eqn:L; [|reflexivity].
    apply Qle_bool_iff in L. exfalso. apply (Qlt_not_le _ _ H L).
Qed.

Lemma Qltb_false (a b : Q) : Qltb a b = false <-> (b <= a)%Q.
Proof.
  unfold Qltb. rewrite negb_false_iff. apply Qle_bool_iff.
Qed.

Lemma Qgeb_true (a b : Q) : Qgeb a b = true <-> (b <= a)%Q.
Proof. apply Qle_bool_iff. Qed.

Lemma py_min_l (a b : Q) : (py_min a b <= a)%Q.
Proof.
  unfold py_min. destruct (Qltb b a) eqn:L.
  - apply Qltb_true in L. lra.
  - lra.
Qed.

Lemma py_min_r (a b : Q) : (py_min a b <= b)%Q.
Proof.
  unfold py_min. destruct (Qltb b a) eqn:L.
  - lra.
  - apply Qltb_false in L. exact L.
Qed.

Lemma py_min_glb (a b c : Q) : (c <= a)%Q -> (c <= b)%Q -> (c <= py_min a b)%Q.
Proof.
  intros Ha Hb. unfold py_min. destruct (Qltb b a); assumption.
Qed.

Lemma call_after {R : Type} (c : Call R) (w : World) :
  call c w = Returned (fst (handle c (env w))) (after w c).
Proof.
  unfold call, after, logged. destruct (handle c (env w)); reflexivity.
Qed.

Lemma bind_returned {A B : Type} {m : M A} (k : A -> M B) {w w' : World}
  {a : A} :
  m w = Returned a w' -> bind m k w = k a w'.
Proof. intro H. unfold bind. rewrite H. reflexivity. Qed.

Lemma bind_raised {A B : Type} {m : M A} (k : A -> M B) {w w' : World}
  {e : Exn} :
  m w = Raised e w' -> bind m k w = Raised e w'.
Proof. intro H. unfold bind. rewrite H. reflexivity. Qed.

Lemma bind_call {R B : Type} (c : Call R) (k : R -> M B) (w : World) :
  bind (call c) k w = k (fst (handle c (env w))) (after w c).
Proof. apply bind_returned, call_after. Qed.

(** *** The cache loops *)

Lemma scan_cached_some (oldest : Q) (h : Id) (cache : list CachedLookup)
  (peers : list Peer) :
  scan_cached oldest h cache = Some peers ->
  exists pre ts post,
    cache = pre ++ (ts, h, peers) :: post /\ (oldest < ts)%Q /\
    Forall (fun e => ~ ((oldest < entry_ts e)%Q /\ entry_hash e = h)) pre.
Proof.
  induction cache as [|[[ts eh] ps] rest IH]; simpl; [discriminate|].
  destruct (Qltb oldest ts) eqn:L; simpl.
  - destruct (Id_eq_dec h eh) as [->|D].
    + intro H. injection H as ->.
      exists [], ts, rest. apply Qltb_true in L. auto.
    + intro H. destruct (IH H) as (pre & ts' & post & -> & Hts & Hpre).
      exists ((ts, eh, ps) :: pre), ts', post. repeat split; auto.
      constructor; [|exact Hpre]. cbn. intros [_ Heq]. congruence.
  - intro H. destruct (IH H) as (pre & ts' & post & -> & Hts & Hpre).
    exists ((ts, eh, ps) :: pre), ts', post. repeat split; auto.
    constructor; [|exact Hpre]. cbn. intros [Hlt _].
    apply Qltb_false in L. lra.
Qed.

Lemma scan_cached_none (oldest : Q) (h : Id) (cache : list CachedLookup) :
  scan_cached oldest h cache = None ->
  Forall (fun e => ~ ((oldest < entry_ts e)%Q /\ entry_hash e = h)) cache.
Proof.
  induction cache as [|[[ts eh] ps] rest IH]; simpl; [constructor|].
  destruct (Qltb oldest ts) eqn:L; simpl.
  - destruct (Id_eq_dec h eh) as [->|D]; [discriminate|].
    intro H. constructor; [|auto]. cbn. intros [_ Heq]. congruence.
  - intro H. constructor; [|auto]. cbn. intros [Hlt _].
    apply Qltb_false in L. lra.
Qed.

Lemma drop_old_split (oldest : Q) (cache : list CachedLookup) :
  exists old,
    cache = old ++ drop_old oldest cache /\
    Forall (fun e => (entry_ts e < oldest)%Q) old /\
    match drop_old oldest cache with
    | [] => True
    | e :: _ => (oldest <= entry_ts e)%Q
    end.
Proof.
  induction cache as [|[[ts eh] ps] rest IH]; simpl.
  - exists []. auto.
  - destruct (Qltb ts oldest) eqn:L.
    + destruct IH as (old & Hsplit & Hold & Hhead).
      exists ((ts, eh, ps) :: old). split; [|split].
      * simpl. f_equal. exact Hsplit.
      * constructor; [|exact Hold]. cbn. apply Qltb_true. exact L.
      * exact Hhead.
    + exists []. split; [reflexivity|]. split; [constructor|].
      cbn. apply Qltb_false. exact L.
Qed.

Lemma split_last_none (cache : list CachedLookup) :
  split_last cache = None -> cache = [].
Proof.
  destruct cache as [|e rest]; simpl; [reflexivity|].
  destruct (split_last rest) as [[front l]|]; discriminate.
Qed.

Lemma split_last_some (cache front : list CachedLookup) (l : CachedLookup) :
  split_last cache = Some (front, l) -> cache = front ++ [l].
Proof.
  revert front l.
  induction cache as [|e rest IH]; simpl; intros front l; [discriminate|].
  destruct (split_last rest) as [[front' l']|] eqn:S.
  - intro H. injection H as <- <-. simpl. f_equal. apply IH. reflexivity.
  - intro H. injection H as <- <-. apply split_last_none in S.
    subst rest. reflexivity.
Qed.

Lemma ts_ordered_app (a b : list CachedLookup) :
  ts_ordered (a ++ b) <->
  ts_ordered a /\ ts_ordered b /\
  Forall (fun x => Forall (fun y => (entry_ts x <= entry_ts y)%Q) b) a.
Proof.
  induction a as [|x a IH]; simpl.
  - split; [intro H; auto|intros (_ & H & _); exact H].
  - rewrite Forall_app, IH. split.
    + intros ((Ha & Hb) & Hoa & Hob & Hab). auto.
    + intros ((Ha & Hoa) & Hob & Hab). inversion Hab; subst. auto.
Qed.

End Basics.

(** ** The peer cache *)

Section Cache.

Context {O : Objects} {E : Environment}.

(** C4 (as amended).  [_get_cached_peers] reads the clock once, leaves the
    controller as it is, and returns the peers of the first entry for the
    info-hash whose age [now - ts] is strictly below 300 s; it returns
    [None] when no entry for the info-hash has an age below 300 s.  An entry
    it returns therefore has [now - ts < 300], hence also [<= 300]. *)
Theorem get_cached_peers_first_fresh (h : Id) (w : World) :
  let now := fst (handle Time_time (env w)) in
  exists res,
    _get_cached_peers h w = Returned res (after w Time_time) /\
    match res with
    | Some peers =>
        exists pre ts post,
          _cached_lookups (ctl w) = pre ++ (ts, h, peers) :: post /\
          (now - ts < 300)%Q /\ (now - ts <= 300)%Q /\
          Forall (fun e => ~ fresh_for now h e) pre
    | None =>
        Forall (fun e => ~ fresh_for now h e) (_cached_lookups (ctl w))
    end.
Proof.
  intro now. unfold _get_cached_peers. rewrite bind_call. fold now.
  unfold bind, self, ret. cbn [ctl after].
  eexists. split; [reflexivity|].
  destruct (scan_cached (now - CACHE_VALID_PERIOD) h (_cached_lookups (ctl w)))
    as [peers|] eqn:S.
  - apply scan_cached_some in S. destruct S as (pre & ts & post & Hc & Hts & Hpre).
    exists pre, ts, post. unfold CACHE_VALID_PERIOD in Hts.
    repeat split; [exact Hc|lra|lra|].
    eapply Forall_impl; [|exact Hpre]. cbn beta.
    intros e Hn [Hage Hh]. apply Hn. split; [|exact Hh].
    unfold CACHE_VALID_PERIOD in *. lra.
  - apply scan_cached_none in S.
    eapply Forall_impl; [|exact S]. cbn beta.
    intros e Hn [Hage Hh]. apply Hn. split; [|exact Hh].
    unfold CACHE_VALID_PERIOD in *. lra.
Qed.

(** C5.  [_add_cache_peers] first deletes the longest prefix of entries with
    [ts < now - 300]; then, if the last entry left is for the same
    info-hash, that entry keeps its timestamp and its batch is extended by
    the new peers, and otherwise the entry [(now', h, peers)] is appended at
    the end, [now'] being the clock read for it.  When the entries were in
    non-decreasing order of timestamp and none is later than [now'], they
    still are afterwards. *)
Theorem add_cache_peers_spec (h : Id) (peers : list Peer) (w : World) :
  let now := fst (handle Time_time (env w)) in
  let now' := fst (handle Time_time (env (after w Time_time))) in
  let oldest := (now - CACHE_VALID_PERIOD)%Q in
  exists w' old kept,
    _add_cache_peers h peers w = Returned tt w' /\
    _cached_lookups (ctl w) = old ++ kept /\
    Forall (fun e => (entry_ts e < now - 300)%Q) old /\
    match kept with
    | [] => True
    | e :: _ => (now - 300 <= entry_ts e)%Q
    end /\
    ((exists front ts batch,
         kept = front ++ [(ts, h, batch)] /\
         _cached_lookups (ctl w') = front ++ [(ts, h, batch ++ peers)])
     \/
     ((kept = [] \/ exists front e, kept = front ++ [e] /\ entry_hash e <> h) /\
      _cached_lookups (ctl w') = kept ++ [(now', h, peers)])) /\
    (ts_ordered (_cached_lookups (ctl w)) ->
     Forall (fun e => (entry_ts e <= now')%Q) (_cached_lookups (ctl w)) ->
     ts_ordered (_cached_lookups (ctl w'))).
Proof.
  intros now now' oldest.
  destruct (drop_old_split oldest (_cached_lookups (ctl w)))
    as (old & Hsplit & Hold & Hhead).
  set (kept := drop_old oldest (_cached_lookups (ctl w))) in *.
  assert (Hord : ts_ordered (_cached_lookups (ctl w)) -> ts_ordered kept).
  { rewrite Hsplit at 1. rewrite ts_ordered_app. tauto. }
  assert (Hle : Forall (fun e => (entry_ts e <= now')%Q) (_cached_lookups (ctl w)) ->
                Forall (fun e => (entry_ts e <= now')%Q) kept).
  { rewrite Hsplit at 1. rewrite Forall_app. tauto. }
  assert (Hold' : Forall (fun e => (entry_ts e < now - 300)%Q) old).
  { eapply Forall_impl; [|exact Hold]. cbn beta. intros e He.
    unfold oldest, CACHE_VALID_PERIOD in He. lra. }
  assert (Hhead' : match kept with
                   | [] => True
                   | e :: _ => (now - 300 <= entry_ts e)%Q
                   end).
  { destruct kept as [|e ?]; [exact I|].
    unfold oldest, CACHE_VALID_PERIOD in Hhead. lra. }
  unfold _add_cache_peers. rewrite bind_call. fold now oldest.
  unfold bind at 1, self at 1. cbn [ctl after]. fold kept.
  unfold bind at 1, assign at 1. cbn [ctl env trace after].
  destruct (split_last kept) as [[front [[ts lh] batch]]|] eqn:S.
  - apply split_last_some in S.
    destruct (Id_eq_dec lh h) as [->|D].
    + eexists _, old, kept. split; [reflexivity|].
      cbn [ctl set_cached_lookups _cached_lookups].
      split; [exact Hsplit|]. split; [exact Hold'|]. split; [exact Hhead'|].
      split.
      * left. exists front, ts, batch. auto.
      * intros Ho _. specialize (Hord Ho). rewrite S in Hord.
        rewrite ts_ordered_app in *. destruct Hord as (Hf & _ & Hfl).
        repeat split; auto. simpl. auto.
        eapply Forall_impl; [|exact Hfl]. cbn beta. intros x Hx.
        inversion Hx; subst. constructor; [|constructor]. exact H1.
    + rewrite bind_call. cbn [ctl env trace after assign].
      unfold assign. cbn [ctl env trace].
      eexists _, old, kept. split; [reflexivity|].
      cbn [ctl set_cached_lookups _cached_lookups].
      split; [exact Hsplit|]. split; [exact Hold'|]. split; [exact Hhead'|].
      split.
      * right. split; [|reflexivity]. right. exists front, (ts, lh, batch).
        split; [exact S|exact D].
      * intros Ho Hl. apply ts_ordered_app. split; [auto|]. split.
        { simpl. auto. }
        eapply Forall_impl; [|exact (Hle Hl)]. cbn beta. intros x Hx.
        constructor; [exact Hx|constructor].
  - apply split_last_none in S.
    rewrite bind_call. unfold assign. cbn [ctl env trace after].
    eexists _, old, kept. split; [reflexivity|].
    cbn [ctl set_cached_lookups _cached_lookups].
    split; [exact Hsplit|]. split; [exact Hold'|]. split; [exact Hhead'|].
    split.
    + right. split; [left; exact S|reflexivity].
    + intros _ _. rewrite S. simpl. auto.
Qed.

End Cache.

(** ** Registering queries and running to completion *)

Section Running.

Context {O : Objects} {E : Environment}.

Lemma runs_ret {A : Type} (a : A) : runs (ret a).
Proof. intro w. exists a, w, []. rewrite app_nil_r. auto. Qed.

Lemma runs_self {A : Type} (f : Controller -> A) : runs (self f).
Proof. intro w. exists (f (ctl w)), w, []. rewrite app_nil_r. auto. Qed.

Lemma runs_assign (f : Controller -> Controller) : runs (assign f).
Proof.
  intro w. eexists tt, _, []. split; [reflexivity|].
  cbn. rewrite app_nil_r. reflexivity.
Qed.

Lemma runs_call {R : Type} (c : Call R) : runs (call c).
Proof.
  intro w. rewrite call_after. eexists _, _, _. split; reflexivity.
Qed.

Lemma runs_bind {A B : Type} (m : M A) (k : A -> M B) :
  runs m -> (forall a, runs (k a)) -> runs (bind m k).
Proof.
  intros Hm Hk w. destruct (Hm w) as (a & w1 & ext1 & Em & T1).
  destruct (Hk a w1) as (b & w2 & ext2 & Ek & T2).
  exists b, w2, (ext1 ++ ext2). split.
  - rewrite (bind_returned k Em). exact Ek.
  - rewrite T2, T1, app_assoc. reflexivity.
Qed.

End Running.

(** Decompose a computation along its binds and branches. *)
Ltac runs_tac :=
  repeat first
    [ apply runs_ret | apply runs_self | apply runs_assign | apply runs_call
    | apply runs_bind; [|intros]
    | match goal with
      | |- runs (match ?x with _ => _ end) => destruct x
      | |- runs (if ?b then _ else _) => destruct b
      | |- runs (let (_, _) := ?x in _) => destruct x
      end ].

Section Registering.

Context {O : Objects} {E : Environment}.

(** What [_register_queries] does: nothing for an empty list or [None];
    otherwise one call to the querier, whose deadline may lower
    [_next_main_loop_call_ts]. *)
Lemma register_queries_cases (qs : PyList Query) (w : World) :
  (truthy qs = false /\ _register_queries qs w = Returned [] w)
  \/
  (truthy qs = true /\
   let c := Querier_register_queries (items qs) in
   _register_queries qs w =
     Returned (snd (fst (handle c (env w))))
       (mkWorld
          (set_next_main_loop_call_ts
             (py_min (_next_main_loop_call_ts (ctl w))
                (fst (fst (handle c (env w))))) (ctl w))
          (snd (handle c (env w)))
          (trace w ++ [logged w c]))).
Proof.
  unfold _register_queries. destruct (truthy qs) eqn:T; cbn [negb].
  - right. split; [reflexivity|]. cbn zeta. rewrite bind_call.
    unfold after, logged.
    destruct (handle (Querier_register_queries (items qs)) (env w))
      as [[deadline ds] e'].
    reflexivity.
  - left. split; reflexivity.
Qed.

(** The same as one equation. *)
Lemma register_queries_exact (qs : PyList Query) (w : World) :
  _register_queries qs w = Returned (answered qs (env w)) (registering qs w).
Proof.
  unfold answered, registering.
  destruct (register_queries_cases qs w) as [[T H]|[T H]]; rewrite T.
  - exact H.
  - exact H.
Qed.

(** What [_register_queries] adds to the history: the one call to the
    querier, or nothing. *)
Lemma registering_history (qs : PyList Query) (w : World) :
  exists ext,
    trace (registering qs w) = trace w ++ ext /\
    registered ext = answered qs (env w) /\
    existsb is_callback ext = false /\
    (truthy qs = false -> registering qs w = w).
Proof.
  unfold registering, answered. destruct (truthy qs).
  - eexists. cbn [trace after]. split; [reflexivity|].
    split; [cbn; apply app_nil_r|]. split; [reflexivity|discriminate].
  - exists []. rewrite app_nil_r. repeat split.
Qed.

(** The summary used below: [_register_queries] returns the datagrams the
    querier answered during the call, invokes no callback, and touches of
    the controller only [_next_main_loop_call_ts], which it can only
    lower. *)
Lemma register_queries_summary (qs : PyList Query) (w : World) :
  exists ds w' ext,
    _register_queries qs w = Returned ds w' /\
    trace w' = trace w ++ ext /\
    registered ext = ds /\
    existsb is_callback ext = false /\
    (truthy qs = false -> ds = [] /\ w' = w) /\
    _cached_lookups (ctl w') = _cached_lookups (ctl w) /\
    _my_id (ctl w') = _my_id (ctl w) /\
    _next_maintenance_ts (ctl w') = _next_maintenance_ts (ctl w) /\
    _next_timeout_ts (ctl w') = _next_timeout_ts (ctl w) /\
    (_next_main_loop_call_ts (ctl w') <= _next_main_loop_call_ts (ctl w))%Q.
Proof.
  destruct (register_queries_cases qs w) as [[T H]|[T H]].
  - exists [], w, []. rewrite app_nil_r.
    repeat split; auto. apply Qle_refl.
  - cbn zeta in H. eexists _, _, _. split; [exact H|].
    cbn [ctl env trace set_next_main_loop_call_ts _cached_lookups _my_id
         _next_maintenance_ts _next_timeout_ts _next_main_loop_call_ts].
    split; [reflexivity|].
    split; [cbn; apply app_nil_r|].
    split; [reflexivity|].
    split; [congruence|].
    repeat split. apply py_min_l.
Qed.

(** The end of [on_datagram_received]: the datagrams added to the batch are
    those the querier answered for the plugins' queries; there are none when
    the routing and experimental managers handed back no queries. *)
Lemma send_plugin_queries_summary (dts : list Outbound)
  (maint exp : PyList Query) (w : World) :
  exists ds w' ext,
    send_plugin_queries dts maint exp w =
      Returned (_next_main_loop_call_ts (ctl w'), dts ++ map Dgram ds) w' /\
    trace w' = trace w ++ ext /\
    registered ext = ds /\
    existsb is_callback ext = false /\
    (truthy maint = false -> truthy exp = false -> ds = [] /\ w' = w) /\
    _cached_lookups (ctl w') = _cached_lookups (ctl w).
Proof.
  unfold send_plugin_queries.
  destruct (register_queries_summary maint w)
    as (ds1 & w1 & ext1 & E1 & T1 & R1 & C1 & F1 & K1 & _).
  rewrite (bind_returned _ E1).
  destruct (truthy exp) eqn:Texp.
  - destruct (register_queries_summary exp w1)
      as (ds2 & w2 & ext2 & E2 & T2 & R2 & C2 & F2 & K2 & _).
    exists (ds1 ++ ds2), w2, (ext1 ++ ext2).
    unfold bind at 1. unfold bind at 1. rewrite E2.
    unfold bind, self, ret. rewrite map_app, app_assoc.
    split; [reflexivity|].
    split; [rewrite T2, T1, app_assoc; reflexivity|].
    split; [unfold registered in *; rewrite flat_map_app; congruence|].
    split; [rewrite existsb_app, C1, C2; reflexivity|].
    split; [discriminate|congruence].
  - exists ds1, w1, ext1. unfold bind, ret, self.
    split; [reflexivity|]. repeat split; auto.
    + apply F1; assumption.
    + apply F1; assumption.
Qed.

(** The end of [on_datagram_received] as one equation: the maintenance
    queries are registered first, then the experimental ones, and the
    datagrams of both are appended to the batch in this order. *)
Lemma send_plugin_queries_exact (dts : list Outbound)
  (maint exp : PyList Query) (w : World) :
  let w1 := registering maint w in
  let w2 := registering exp w1 in
  send_plugin_queries dts maint exp w =
    Returned
      (_next_main_loop_call_ts (ctl w2),
       dts ++ map Dgram (answered maint (env w) ++ answered exp (env w1)))
      w2.
Proof.
  intros w1 w2. unfold send_plugin_queries.
  rewrite (bind_returned _ (register_queries_exact maint w)). fold w1.
  destruct (truthy exp) eqn:Texp.
  - unfold bind at 1. unfold bind at 1.
    rewrite (register_queries_exact exp w1). fold w2.
    unfold bind, self, ret.
    rewrite map_app, app_assoc. reflexivity.
  - assert (H2 : w2 = w1).
    { unfold w2, registering. rewrite Texp. reflexivity. }
    assert (H3 : answered exp (env w1) = []).
    { unfold answered. rewrite Texp. reflexivity. }
    rewrite H3, H2, app_nil_r.
    unfold bind, self, ret. reflexivity.
Qed.

Lemma runs_register_queries (qs : PyList Query) : runs (_register_queries qs).
Proof.
  intro w. destruct (register_queries_summary qs w)
    as (ds & w' & ext & H & T & _).
  exists ds, w', ext. auto.
Qed.

Lemma runs_announce (lo : LookupObj) : runs (_announce lo).
Proof. unfold _announce. runs_tac. Qed.

Lemma runs_invoke_if_callable (cb : PyCallback Callable) (lid : LookupId)
  (peers : option (list Peer)) (node : option Node) :
  runs (invoke_if_callable cb lid peers node).
Proof. unfold invoke_if_callable. runs_tac. Qed.

Lemma runs_send_plugin_queries (dts : list Outbound)
  (maint exp : PyList Query) :
  runs (send_plugin_queries dts maint exp).
Proof.
  intro w. destruct (send_plugin_queries_summary dts maint exp w)
    as (ds & w' & ext & H & T & _).
  eexists _, w', ext. eauto.
Qed.

(** The summary of [_add_cache_peers] used below: it returns, invokes no
    callback, and leaves the batch at the end of the last cache entry, which
    is for the info-hash. *)
Lemma add_cache_peers_summary (h : Id) (peers : list Peer) (w : World) :
  exists w' ext front ts b0,
    _add_cache_peers h peers w = Returned tt w' /\
    trace w' = trace w ++ ext /\
    existsb is_callback ext = false /\
    _cached_lookups (ctl w') = front ++ [(ts, h, b0 ++ peers)].
Proof.
  unfold _add_cache_peers. rewrite bind_call.
  unfold bind at 1, self at 1. unfold bind at 1, assign at 1.
  cbn [ctl env trace after].
  set (kept := drop_old _ _).
  destruct (split_last kept) as [[front [[ts lh] batch]]|] eqn:S.
  - destruct (Id_eq_dec lh h) as [->|D].
    + eexists _, _, front, ts, batch. split; [reflexivity|].
      cbn [ctl trace set_cached_lookups _cached_lookups].
      split; [reflexivity|]. split; reflexivity.
    + rewrite bind_call. unfold assign. cbn [ctl env trace after].
      eexists _, _, kept, _, []. split; [reflexivity|].
      cbn [ctl trace set_cached_lookups _cached_lookups].
      rewrite <- app_assoc. split; [reflexivity|]. split; reflexivity.
  - rewrite bind_call. unfold assign. cbn [ctl env trace after].
    eexists _, _, kept, _, []. split; [reflexivity|].
    cbn [ctl trace set_cached_lookups _cached_lookups].
    rewrite <- app_assoc. split; [reflexivity|]. split; reflexivity.
Qed.

(** The batches of the cache are never empty: the cache starts empty, and
    [_add_cache_peers], which its callers reach only under [if peers:],
    keeps it so. *)
Lemma add_cache_peers_nonempty (h : Id) (peers : list Peer) (w : World) :
  peers <> [] ->
  Forall (fun e => entry_peers e <> []) (_cached_lookups (ctl w)) ->
  exists w',
    _add_cache_peers h peers w = Returned tt w' /\
    Forall (fun e => entry_peers e <> []) (_cached_lookups (ctl w')).
Proof.
  intros Hp Hall.
  unfold _add_cache_peers. rewrite bind_call.
  unfold bind at 1, self at 1. unfold bind at 1, assign at 1.
  cbn [ctl env trace after].
  destruct (drop_old_split
              (fst (handle Time_time (env w)) - CACHE_VALID_PERIOD)%Q
              (_cached_lookups (ctl w))) as (old & Hsplit & _).
  set (kept := drop_old _ _) in *.
  assert (Hkept : Forall (fun e => entry_peers e <> []) kept).
  { rewrite Hsplit in Hall. apply Forall_app in Hall. tauto. }
  assert (Hnew : forall ts, Forall (fun e => entry_peers e <> [])
                              (kept ++ [(ts, h, peers)])).
  { intro ts. apply Forall_app. split; [exact Hkept|].
    constructor; [exact Hp|constructor]. }
  destruct (split_last kept) as [[front [[ts lh] batch]]|] eqn:S.
  - destruct (Id_eq_dec lh h) as [->|D].
    + eexists. split; [reflexivity|].
      cbn [ctl set_cached_lookups _cached_lookups].
      apply split_last_some in S. rewrite S in Hkept.
      apply Forall_app in Hkept. destruct Hkept as [Hfront _].
      apply Forall_app. split; [exact Hfront|].
      constructor; [|constructor]. cbn. intro Hnil.
      apply app_eq_nil in Hnil. tauto.
    + rewrite bind_call. unfold assign. cbn [ctl env trace after].
      eexists. split; [reflexivity|]. apply Hnew.
  - rewrite bind_call. unfold assign. cbn [ctl env trace after].
    eexists. split; [reflexivity|]. apply Hnew.
Qed.

End Registering.

(** ** Incoming datagrams *)

Section Datagrams.

Context {O : Objects} {E : Environment}.

(** C6.  A QUERY whose source node id is the local id is dropped on the
    spot: [on_datagram_received] returns [_next_main_loop_call_ts] with an
    empty batch, and the world is the one it started from: no call on any
    collaborator or callback, and the controller (cache and timestamps
    included) untouched. *)
Theorem self_query_dropped (datagram : Datagram) (msg : Msg) (w : World) :
  incoming_msg datagram = Some msg ->
  msg_type msg = QUERY ->
  node_id (src_node msg) = _my_id (ctl w) ->
  on_datagram_received datagram w =
    Returned (_next_main_loop_call_ts (ctl w), []) w.
Proof.
  intros Hdec Hty Hid.
  unfold on_datagram_received. rewrite Hdec, Hty.
  unfold on_query, bind, self.
  destruct (Id_eq_dec (node_id (src_node msg)) (_my_id (ctl w))) as [_|D].
  - reflexivity.
  - contradiction.
Qed.

(** C7.  A RESPONSE or ERROR for which the querier finds no outstanding
    query is dropped: the only call made is [get_related_query] itself, the
    batch is empty and the controller is untouched. *)
Theorem unmatched_reply_dropped (datagram : Datagram) (msg : Msg) (w : World) :
  incoming_msg datagram = Some msg ->
  msg_type msg = RESPONSE \/ msg_type msg = ERROR ->
  fst (handle (Querier_get_related_query msg) (env w)) = None ->
  on_datagram_received datagram w =
    Returned (_next_main_loop_call_ts (ctl w), [])
      (after w (Querier_get_related_query msg)).
Proof.
  intros Hdec Hty Hnone.
  unfold on_datagram_received. rewrite Hdec.
  destruct Hty as [Hty|Hty]; rewrite Hty.
  - unfold on_response. rewrite bind_call, Hnone. reflexivity.
  - unfold on_error. rewrite bind_call, Hnone. reflexivity.
Qed.

(** C9 (as amended).  When the responder returns no response to a QUERY,
    no response datagram is put in the batch.  The experimental manager,
    the responder and the routing manager are notified, in this order; then
    the queries the routing manager handed back are registered with the
    querier, and then those the experimental manager handed back; and the
    batch is exactly the datagrams the querier answered to the first
    registration followed by those it answered to the second.  It is empty
    when both managers handed back no queries, nothing being registered
    then. *)
Theorem unanswered_query_batch (datagram : Datagram) (msg : Msg) (w : World) :
  let w1 := after w (Exp_on_query_received msg) in
  let w2 := after w1 (Responder_get_response msg) in
  let w3 := after w2 (Routing_on_query_received (src_node msg)) in
  let exp := fst (handle (Exp_on_query_received msg) (env w)) in
  let maint :=
    fst (handle (Routing_on_query_received (src_node msg)) (env w2)) in
  let w4 := registering maint w3 in
  let w5 := registering exp w4 in
  let batch := answered maint (env w3) ++ answered exp (env w4) in
  incoming_msg datagram = Some msg ->
  msg_type msg = QUERY ->
  node_id (src_node msg) <> _my_id (ctl w) ->
  fst (handle (Responder_get_response msg) (env w1)) = None ->
  on_datagram_received datagram w =
    Returned (_next_main_loop_call_ts (ctl w5), map Dgram batch) w5 /\
  (exists ext, trace w5 = trace w3 ++ ext /\ registered ext = batch) /\
  (truthy maint = false -> truthy exp = false -> batch = [] /\ w5 = w3).
Proof.
  intros w1 w2 w3 exp maint w4 w5 batch Hdec Hty Hid Hnone.
  split; [|split].
  - unfold on_datagram_received. rewrite Hdec, Hty.
    unfold on_query. unfold bind at 1, self at 1.
    destruct (Id_eq_dec (node_id (src_node msg)) (_my_id (ctl w)))
      as [Heq|_]; [contradiction|].
    rewrite bind_call. fold w1 exp. rewrite bind_call, Hnone. fold w2.
    rewrite bind_call. fold w3 maint.
    exact (send_plugin_queries_exact [] maint exp w3).
  - destruct (registering_history maint w3) as (e1 & T1 & R1 & _).
    destruct (registering_history exp w4) as (e2 & T2 & R2 & _).
    exists (e1 ++ e2). split.
    + unfold w5. rewrite T2. unfold w4. rewrite T1.
      symmetry. apply app_assoc.
    + unfold registered in *. rewrite flat_map_app, R1, R2. reflexivity.
  - intros Tm Te.
    destruct (registering_history maint w3) as (_ & _ & _ & _ & F1).
    destruct (registering_history exp w4) as (_ & _ & _ & _ & F2).
    split.
    + unfold batch, answered. rewrite Tm, Te. reflexivity.
    + unfold w5. rewrite (F2 Te). exact (F1 Tm).
Qed.

(** The lookup related tasks of a RESPONSE that brings peers: the guarded
    callback invocation comes right after [_add_cache_peers] has returned,
    and no callback is invoked before. *)
Lemma response_lookup_tasks_order (msg : Msg) (lo : LookupObj)
  (dts : list Outbound) (w : World) :
  let c := Lookup_on_response_received lo msg (src_node msg) in
  let peers := snd (fst (fst (fst (handle c (env w))))) in
  truthy peers = true ->
  exists out w' wa wb pre post,
    response_lookup_tasks msg lo dts w = Returned out w' /\
    _add_cache_peers (info_hash lo) (items peers) wa = Returned tt wb /\
    trace wb = trace w ++ pre /\
    existsb is_callback pre = false /\
    trace w' =
      trace wb ++
      callback_entries (ctl wb) (callback_f lo) (lookup_id lo)
        (Some (items peers)) (Some (src_node msg)) ++ post.
Proof.
  intros c peers Hpeers.
  unfold response_lookup_tasks. rewrite bind_call. fold c.
  unfold after, logged. subst peers.
  destruct (handle c (env w)) as [[[[lq peers] n] done] e3].
  cbn [fst snd] in *.
  set (w3 := mkWorld _ _ _).
  destruct (register_queries_summary (Some lq) w3)
    as (ds & w4 & ext4 & E4 & T4 & _ & C4 & _).
  rewrite (bind_returned _ E4). rewrite Hpeers.
  destruct (add_cache_peers_summary (info_hash lo) (items peers) w4)
    as (w5 & ext5 & front & ts & b0 & E5 & T5 & C5 & _).
  assert (R : runs
    (if done
     then
       invoke_if_callable (callback_f lo) (lookup_id lo) None
         (Some (src_node msg)) ;;
       queries_to_send <- _announce lo ;;
       datagrams <- _register_queries (Some queries_to_send) ;;
       ret ((dts ++ map Dgram ds) ++ map Dgram datagrams)
     else ret (dts ++ map Dgram ds))%py).
  { destruct done; [|apply runs_ret].
    apply runs_bind; [apply runs_invoke_if_callable|intros].
    apply runs_bind; [apply runs_announce|intros].
    apply runs_bind; [apply runs_register_queries|intros].
    apply runs_ret. }
  assert (Tpre : trace w5 =
                 trace w ++
                 mkEntry (ctl w) (Called c (lq, peers, n, done))
                   :: ext4 ++ ext5).
  { rewrite T5, T4. subst w3. cbn [trace]. rewrite <- !app_assoc.
    reflexivity. }
  assert (Cpre : existsb is_callback
                   (mkEntry (ctl w) (Called c (lq, peers, n, done))
                      :: ext4 ++ ext5) = false).
  { cbn [existsb]. rewrite existsb_app, C4, C5. reflexivity. }
  unfold bind at 1. unfold bind at 1. rewrite E5.
  unfold invoke_if_callable at 1, callback_entries.
  destruct (callable (callback_f lo)) as [f|].
  - rewrite call_after. set (w6 := after w5 _).
    destruct (R w6) as (out & w' & post & H & T). rewrite H.
    exists out, w', w4, w5,
      (mkEntry (ctl w) (Called c (lq, peers, n, done)) :: ext4 ++ ext5), post.
    split; [reflexivity|]. split; [exact E5|].
    split; [exact Tpre|]. split; [exact Cpre|].
    rewrite T. subst w6. unfold after, logged. cbn [trace ctl].
    destruct (fst (handle _ (env w5))). rewrite <- app_assoc. reflexivity.
  - unfold ret at 1.
    destruct (R w5) as (out & w' & post & H & T). rewrite H.
    exists out, w', w4, w5,
      (mkEntry (ctl w) (Called c (lq, peers, n, done)) :: ext4 ++ ext5), post.
    split; [reflexivity|]. split; [exact E5|].
    split; [exact Tpre|]. split; [exact Cpre|exact T].
Qed.

(** C8.  On a matched RESPONSE whose lookup object yields a non-empty batch
    of peers, the handler returns, and in its history
    [_add_cache_peers(info_hash, peers)] has returned before any callback is
    invoked: the invocation [callback_f(lookup_id, peers, msg.src_node)],
    made when [callback_f] is callable, comes right after it, from the very
    world in which [_add_cache_peers] returned, where the last cache entry
    is for the info-hash and ends with the batch. *)
Theorem cache_written_before_callback (datagram : Datagram) (msg : Msg)
  (rq : RelatedQuery) (lo : LookupObj) (w : World) :
  let w1 := after w (Querier_get_related_query msg) in
  let w2 := after w1 (Exp_on_response_received msg rq) in
  let c := Lookup_on_response_received lo msg (src_node msg) in
  let peers := snd (fst (fst (fst (handle c (env w2))))) in
  incoming_msg datagram = Some msg ->
  msg_type msg = RESPONSE ->
  fst (handle (Querier_get_related_query msg) (env w)) = Some rq ->
  lookup_obj rq = Some lo ->
  truthy peers = true ->
  exists r w' wa wb pre post front ts b0,
    on_datagram_received datagram w = Returned r w' /\
    _add_cache_peers (info_hash lo) (items peers) wa = Returned tt wb /\
    trace wb = trace w ++ pre /\
    existsb is_callback pre = false /\
    trace w' =
      trace wb ++
      callback_entries (ctl wb) (callback_f lo) (lookup_id lo)
        (Some (items peers)) (Some (src_node msg)) ++ post /\
    _cached_lookups (ctl wb) =
      front ++ [(ts, info_hash lo, b0 ++ items peers)].
Proof.
  intros w1 w2 c peers Hdec Hty Hrq Hlo Hpeers.
  unfold on_datagram_received. rewrite Hdec, Hty.
  unfold on_response. rewrite bind_call, Hrq. fold w1.
  rewrite bind_call. fold w2. rewrite Hlo.
  destruct (response_lookup_tasks_order msg lo [] w2 Hpeers)
    as (out & w3 & wa & wb & pre & post & H & Hadd & Tb & Cb & T3).
  rewrite (bind_returned _ H).
  assert (R : runs
    (maintenance_queries_to_send <-
        call (Routing_on_response_received (src_node msg) (rtt rq)
                (all_nodes msg)) ;;
      send_plugin_queries out maintenance_queries_to_send
        (fst (handle (Exp_on_response_received msg rq) (env w1))))%py).
  { apply runs_bind; [apply runs_call|intros].
    apply runs_send_plugin_queries. }
  destruct (R w3) as (r & w' & ext & Hr & T).
  destruct (add_cache_peers_summary (info_hash lo) (items peers) wa)
    as (wb' & _ & front & ts & b0 & Hadd' & _ & _ & Hshape).
  assert (Hwb : Returned tt wb = Returned tt wb')
    by (rewrite <- Hadd; exact Hadd').
  injection Hwb as <-.
  exists r, w', wa, wb,
    (logged w (Querier_get_related_query msg)
       :: logged w1 (Exp_on_response_received msg rq) :: pre),
    (post ++ ext), front, ts, b0.
  split; [exact Hr|]. split; [exact Hadd|].
  split.
  { rewrite Tb. subst w2 w1. cbn [trace after]. rewrite <- !app_assoc.
    reflexivity. }
  split; [cbn [existsb]; rewrite Cb; reflexivity|].
  split; [|exact Hshape].
  rewrite T, T3, <- !app_assoc. reflexivity.
Qed.

End Datagrams.

(** ** Starting a lookup *)

Section Lookups.

Context {O : Objects} {E : Environment}.

Lemma get_cached_peers_eq (h : Id) (w : World) :
  _get_cached_peers h w =
    Returned
      (scan_cached (fst (handle Time_time (env w)) - CACHE_VALID_PERIOD)%Q h
         (_cached_lookups (ctl w)))
      (after w Time_time).
Proof.
  unfold _get_cached_peers. rewrite bind_call. reflexivity.
Qed.

(** C3 (as amended).  When [use_cache] is true, [callback_f] is callable and
    the cache, whose batches are not empty, holds an entry for the
    info-hash of age below 300 s, [get_peers] reads the clock, invokes the
    callback with [(lookup_id, peers, None)] and then with
    [(lookup_id, None, None)], [peers] being the batch of the first such
    entry, and returns no datagram; it makes no other call (no lookup is
    created) and leaves the controller as it is. *)
Theorem get_peers_cache_hit (lid : LookupId) (h : Id) (f : Callable)
  (bt_port : Port) (w : World) (e : CachedLookup) :
  let now := fst (handle Time_time (env w)) in
  Forall (fun e' => entry_peers e' <> []) (_cached_lookups (ctl w)) ->
  In e (_cached_lookups (ctl w)) ->
  fresh_for now h e ->
  exists pre ts peers post,
    _cached_lookups (ctl w) = pre ++ (ts, h, peers) :: post /\
    fresh_for now h (ts, h, peers) /\
    Forall (fun e' => ~ fresh_for now h e') pre /\
    get_peers lid h (CbCallable f) bt_port true w =
      Returned []
        (after
           (after (after w Time_time) (Callback f lid (Some peers) None))
           (Callback f lid None None)).
Proof.
  intros now Hne Hin Hfresh.
  unfold get_peers. cbn zeta. rewrite (bind_returned _ (get_cached_peers_eq h w)).
  fold now.
  destruct (scan_cached (now - CACHE_VALID_PERIOD) h (_cached_lookups (ctl w)))
    as [peers|] eqn:S.
  - destruct (scan_cached_some _ _ _ _ S) as (pre & ts & post & Hc & Hts & Hpre).
    exists pre, ts, peers, post.
    split; [exact Hc|].
    split; [split; [cbn; lra|reflexivity]|].
    split.
    { eapply Forall_impl; [|exact Hpre]. cbn beta.
      intros e' Hn [Hage Hh]. apply Hn. split; [lra|exact Hh]. }
    assert (Hp : peers <> []).
    { rewrite Forall_forall in Hne.
      apply (Hne (ts, h, peers)). rewrite Hc. apply in_elt. }
    destruct peers as [|p peers]; [contradiction|].
    cbn [truthy callable]. rewrite bind_call, bind_call. reflexivity.
  - exfalso. apply scan_cached_none in S. rewrite Forall_forall in S.
    apply (S e Hin). destruct Hfresh as [Hage Hh]. split; [lra|exact Hh].
Qed.

(** C10.  With [use_cache] true and a [callback_f] that is [None] or not
    callable, [get_peers] never takes the cache short-cut, whatever the
    cache holds: after the cache lookup it has the lookup manager create
    the lookup object, asks for the closest nodes and the tracked peers
    (caching them if there are any), starts the lookup and returns what
    [_register_queries] returns for the queries of [start]; no callback is
    invoked.  The lookup object is taken to carry the callback the lookup
    manager was given. *)
Theorem get_peers_without_callback (lid : LookupId) (h : Id)
  (cb : PyCallback Callable) (bt_port : Port) (w : World) :
  let w1 := after w Time_time in
  let c_lookup := LookupM_get_peers lid h cb bt_port in
  let lo := fst (handle c_lookup (env w1)) in
  let w2 := after w1 c_lookup in
  let c_rnodes :=
    Routing_get_closest_rnodes
      (distance_log (info_hash lo) (_my_id (ctl w))) 0 true in
  let rnodes := fst (handle c_rnodes (env w2)) in
  let w3 := after w2 c_rnodes in
  let w4 := after w3 (Tracker_get (info_hash lo)) in
  let c_start := Lookup_start lo rnodes true in
  callable cb = None ->
  callback_f lo = cb ->
  exists w5 ext5 ds w' ext',
    trace w5 = trace w4 ++ ext5 /\
    _register_queries (Some (fst (handle c_start (env w5)))) (after w5 c_start)
      = Returned ds w' /\
    get_peers lid h cb bt_port true w = Returned ds w' /\
    trace w' = trace w5 ++ logged w5 c_start :: ext' /\
    registered ext' = ds /\
    existsb is_callback (ext5 ++ ext') = false.
Proof.
  intros w1 c_lookup lo w2 c_rnodes rnodes w3 w4 c_start Hcb Hlo.
  assert (Hmid : exists w5 ext5,
    (if truthy (fst (handle (Tracker_get (info_hash lo)) (env w3)))
     then
       _add_cache_peers (info_hash lo)
         (items (fst (handle (Tracker_get (info_hash lo)) (env w3)))) ;;
       invoke_if_callable (callback_f lo) (lookup_id lo)
         (Some (items (fst (handle (Tracker_get (info_hash lo)) (env w3)))))
         None
     else ret tt)%py w4 = Returned tt w5 /\
    trace w5 = trace w4 ++ ext5 /\ existsb is_callback ext5 = false).
  { destruct (truthy _).
    - destruct (add_cache_peers_summary (info_hash lo)
                  (items (fst (handle (Tracker_get (info_hash lo)) (env w3)))) w4)
        as (w5 & ext5 & _ & _ & _ & E5 & T5 & C5 & _).
      exists w5, ext5. rewrite (bind_returned _ E5).
      unfold invoke_if_callable. rewrite Hlo, Hcb. auto.
    - exists w4, []. rewrite app_nil_r. auto. }
  destruct Hmid as (w5 & ext5 & E5 & T5 & C5).
  destruct (register_queries_summary (Some (fst (handle c_start (env w5))))
              (after w5 c_start))
    as (ds & w' & ext' & E' & T' & R' & C' & _).
  exists w5, ext5, ds, w', ext'.
  split; [exact T5|]. split; [exact E'|].
  split.
  { unfold get_peers. cbn zeta.
    rewrite (bind_returned _ (get_cached_peers_eq h w)).
    replace (if truthy _ then callable cb else None) with (@None Callable)
      by (rewrite Hcb; destruct (truthy (scan_cached _ _ _)); reflexivity).
    fold w1. rewrite bind_call. fold c_lookup lo w2.
    unfold bind at 1, self at 1. cbn [ctl after w2 w1].
    rewrite bind_call. fold c_rnodes rnodes w3.
    rewrite bind_call. fold w4.
    rewrite (bind_returned _ E5). rewrite bind_call. exact E'. }
  split.
  { rewrite T'. cbn [trace after]. rewrite <- app_assoc. reflexivity. }
  split; [exact R'|].
  rewrite existsb_app, C5, C'. reflexivity.
Qed.

End Lookups.

(** ** Timeouts and the heartbeat *)

Section Heartbeat.

Context {O : Objects} {E : Environment}.

Lemma keeps_ctl_ret {A : Type} (a : A) : keeps_ctl (ret a).
Proof.
  intros w a' w' H. injection H as _ <-. split; [reflexivity|].
  exists []. symmetry. apply app_nil_r.
Qed.

Lemma keeps_ctl_raise {A : Type} (e : Exn) : keeps_ctl (@raise _ _ A e).
Proof. intros w a w' H. discriminate H. Qed.

Lemma keeps_ctl_call {R : Type} (c : Call R) : keeps_ctl (call c).
Proof.
  intros w a w' H. rewrite call_after in H. injection H as _ <-.
  split; [reflexivity|]. eexists. reflexivity.
Qed.

Lemma keeps_ctl_bind {A B : Type} (m : M A) (k : A -> M B) :
  keeps_ctl m -> (forall a, keeps_ctl (k a)) -> keeps_ctl (bind m k).
Proof.
  intros Hm Hk w b w' H. unfold bind in H.
  destruct (m w) as [a w1|e w1] eqn:Em; [|discriminate].
  destruct (Hm _ _ _ Em) as (C1 & ext1 & T1).
  destruct (Hk _ _ _ _ H) as (C2 & ext2 & T2).
  split; [congruence|].
  exists (ext1 ++ ext2). rewrite T2, T1, app_assoc. reflexivity.
Qed.

(** A computation that ends by raising never returns. *)
Lemma bind_raise_never_returns {A B : Type} (m : M A) (e : Exn) (w : World)
  (b : B) (w' : World) :
  bind m (fun _ => raise e) w <> Returned b w'.
Proof.
  unfold bind, raise. destruct (m w); discriminate.
Qed.

Lemma keeps_ctl_on_timeout (rq : RelatedQuery) : keeps_ctl (_on_timeout rq).
Proof.
  unfold _on_timeout.
  apply keeps_ctl_bind; [apply keeps_ctl_call|intro exp].
  apply keeps_ctl_bind.
  - destruct (lookup_obj rq) as [lo|]; [|apply keeps_ctl_ret].
    apply keeps_ctl_bind; [apply keeps_ctl_call|intros [[lq n] done]].
    destruct done; [|apply keeps_ctl_ret].
    apply keeps_ctl_bind.
    + unfold invoke_if_callable.
      destruct (callable (callback_f lo));
        [apply keeps_ctl_call|apply keeps_ctl_ret].
    + intros _. unfold _announce.
      apply keeps_ctl_bind; [|intro; apply keeps_ctl_ret].
      apply keeps_ctl_bind; [apply keeps_ctl_call|intros [qs b]].
      apply keeps_ctl_ret.
  - intro qs. apply keeps_ctl_bind; [apply keeps_ctl_call|intro maint].
    destruct (truthy exp); [|apply keeps_ctl_ret].
    intros w a w' H. exfalso. exact (bind_raise_never_returns _ _ _ _ _ H).
Qed.

Lemma keeps_ctl_for_timeout_queries (tqs : list RelatedQuery)
  (acc : list Query) :
  keeps_ctl (for_timeout_queries tqs acc).
Proof.
  revert acc. induction tqs as [|rq rest IH]; intro acc; simpl.
  - apply keeps_ctl_ret.
  - apply keeps_ctl_bind; [apply keeps_ctl_on_timeout|intro; apply IH].
Qed.

(** When the experimental manager hands back queries for a timed-out query,
    [_on_timeout] raises. *)
Lemma on_timeout_raises (rq : RelatedQuery) (w : World) :
  truthy (fst (handle (Exp_on_timeout rq) (env w))) = true ->
  exists w', _on_timeout rq w = Raised (NameError "datagrams_to_send") w'.
Proof.
  intro Hexp. unfold _on_timeout. rewrite bind_call.
  set (w1 := after w _).
  assert (R : runs
    (match lookup_obj rq with
     | Some lo =>
         ' (lookup_queries_to_send, _, lookup_done) <-
             call (Lookup_on_timeout lo (dst_node rq)) ;;
         if (lookup_done : bool) then
           invoke_if_callable (callback_f lo) (lookup_id lo) None None ;;
           announce <- _announce lo ;;
           ret (([] ++ lookup_queries_to_send) ++ announce)
         else ret ([] ++ lookup_queries_to_send)
     | None => ret []
     end)%py).
  { destruct (lookup_obj rq) as [lo|]; [|apply runs_ret].
    apply runs_bind; [apply runs_call|intros [[lq n] done]].
    destruct done; [|apply runs_ret].
    apply runs_bind; [apply runs_invoke_if_callable|intros].
    apply runs_bind; [apply runs_announce|intros]. apply runs_ret. }
  destruct (R w1) as (qs & w2 & ext2 & H2 & _).
  rewrite (bind_returned _ H2). rewrite bind_call. rewrite Hexp.
  set (w3 := after w2 _).
  destruct (runs_register_queries (fst (handle (Exp_on_timeout rq) (env w))) w3)
    as (ds & w4 & ext4 & H4 & _).
  exists w4. unfold bind. rewrite H4. reflexivity.
Qed.

(** C1 (what the code does).  When a tick is not rate-limited, the timeout
    sweep is due, the querier reports a timed-out query and the
    experimental manager hands back queries for it, [main_loop] does not
    return: [_on_timeout] raises [NameError] on [datagrams_to_send] and
    nothing catches it. *)
Theorem main_loop_raises_NameError (w : World) (ts : Q) (rq : RelatedQuery)
  (rest : list RelatedQuery) :
  let now := fst (handle Time_time (env w)) in
  let w1 := after w Time_time in
  (_next_main_loop_call_ts (ctl w) <= now)%Q ->
  (_next_timeout_ts (ctl w) <= now)%Q ->
  fst (handle Querier_get_timeout_queries (env w1)) = (ts, rq :: rest) ->
  truthy
    (fst (handle (Exp_on_timeout rq)
            (snd (handle Querier_get_timeout_queries (env w1))))) = true ->
  exists w', main_loop w = Raised (NameError "datagrams_to_send") w'.
Proof.
  intros now w1 Hrate Hdue Hq Hexp.
  apply Qgeb_true in Hrate. apply Qgeb_true in Hdue.
  unfold main_loop. rewrite bind_call. fold now w1.
  unfold bind at 1, self at 1. cbn [ctl after w1]. rewrite Hrate.
  unfold bind at 1, assign at 1. cbn [ctl env trace after w1].
  set (w2 := mkWorld _ _ _).
  assert (H : exists w', take_care_of_timeouts now [] w2 =
                           Raised (NameError "datagrams_to_send") w').
  { unfold take_care_of_timeouts. unfold bind at 1, self at 1.
    subst w2. cbn [ctl set_next_main_loop_call_ts _next_timeout_ts].
    rewrite Hdue. rewrite bind_call. cbn [env]. cbn [env after w1] in Hq.
    rewrite Hq. unfold bind at 1, assign at 1.
    cbn [for_timeout_queries].
    match goal with
    | |- context [bind (_on_timeout rq) _ ?w0] =>
        destruct (on_timeout_raises rq w0) as (w' & Hr);
          [exact Hexp|exists w'; exact (bind_raised _ Hr)]
    end. }
  destruct H as (w' & H). exists w'.
  exact (bind_raised _ H).
Qed.

Lemma tick_step_trans (now : Q) (w1 w2 w3 : World) :
  tick_step now w1 w2 -> tick_step now w2 w3 -> tick_step now w1 w3.
Proof.
  intros (e1 & T1 & L1 & G1 & M1) (e2 & T2 & L2 & G2 & M2).
  exists (e1 ++ e2). split; [rewrite T2, T1, app_assoc; reflexivity|].
  split; [lra|]. split.
  - intros F H. apply Forall_app in F. destruct F as [F1 F2]. auto.
  - destruct M2 as [M2|M2]; [|right; exact M2].
    destruct M1 as [M1|M1]; [left; congruence|].
    right. rewrite M2. lra.
Qed.

Lemma tick_step_timeouts (now : Q) (acc : list Query) (w w' : World)
  (qs : list Query) :
  take_care_of_timeouts now acc w = Returned qs w' -> tick_step now w w'.
Proof.
  unfold take_care_of_timeouts. unfold bind at 1, self at 1.
  destruct (Qgeb now (_next_timeout_ts (ctl w))).
  - rewrite bind_call.
    destruct (fst (handle Querier_get_timeout_queries (env w))) as [ts tqs].
    unfold bind at 1, assign at 1. cbn [ctl env trace after].
    intro H. apply keeps_ctl_for_timeout_queries in H.
    destruct H as (C & ext & T). cbn [ctl trace] in C, T.
    exists (logged w Querier_get_timeout_queries :: ext).
    rewrite C. cbn [set_next_timeout_ts _next_main_loop_call_ts
                    _next_maintenance_ts].
    split; [rewrite T, <- app_assoc; reflexivity|].
    split; [apply Qle_refl|]. split; [auto|left; reflexivity].
  - intro H. injection H as _ <-. exists []. rewrite app_nil_r.
    split; [reflexivity|]. split; [apply Qle_refl|]. auto.
Qed.

Lemma tick_step_maintenance (now : Q) (acc : list Query) (w : World) :
  exists qs w',
    routing_table_maintenance now acc w = Returned qs w' /\
    tick_step now w w'.
Proof.
  unfold routing_table_maintenance. rewrite bind_call.
  unfold bind at 1, self at 1. cbn [ctl after].
  destruct (Qgeb _ (_next_maintenance_ts (ctl w))).
  - rewrite bind_call. set (w1 := after w Time_time).
    assert (Hlog : logged w1 Routing_do_maintenance =
                   mkEntry (ctl w)
                     (Called Routing_do_maintenance
                        (fst (handle Routing_do_maintenance (env w1)))))
      by reflexivity.
    destruct (fst (handle Routing_do_maintenance (env w1)))
      as [[delay queries] lookup] eqn:Hm.
    unfold bind at 1, assign at 1. unfold bind at 1, self at 1.
    unfold bind at 1, self at 1. unfold bind at 1, assign at 1.
    cbn [ctl env trace after w1 set_next_maintenance_ts
         set_next_main_loop_call_ts _next_main_loop_call_ts
         _next_maintenance_ts _next_timeout_ts _my_id _cached_lookups].
    set (w2 := mkWorld _ _ _).
    assert (S2 : tick_step now w w2).
    { exists [logged w Time_time; logged w1 Routing_do_maintenance].
      subst w2. cbn [ctl trace _next_main_loop_call_ts _next_maintenance_ts].
      split; [rewrite <- app_assoc; reflexivity|].
      split; [apply py_min_l|]. split; [|right; apply py_min_r].
      intros F Hn. inversion F as [|? ? _ F']. inversion F' as [|? ? Hd _].
      rewrite Hlog in Hd. cbn in Hd.
      apply py_min_glb; [exact Hn|lra]. }
    destruct lookup as [[target rnodes]|].
    + rewrite bind_call, bind_call. eexists _, _. split; [reflexivity|].
      eapply tick_step_trans; [exact S2|].
      eexists. cbn [ctl trace after]. rewrite <- app_assoc.
      split; [reflexivity|]. split; [apply Qle_refl|].
      split; [auto|left; reflexivity].
    + eexists _, _. split; [reflexivity|exact S2].
  - eexists _, _. split; [reflexivity|].
    exists [logged w Time_time]. cbn [ctl trace after].
    split; [reflexivity|]. split; [apply Qle_refl|]. auto.
Qed.

Lemma tick_step_register (now : Q) (qs : PyList Query) (w : World) :
  exists ds w',
    _register_queries qs w = Returned ds w' /\ tick_step now w w'.
Proof.
  destruct (register_queries_cases qs w) as [[T H]|[T H]].
  - exists [], w. split; [exact H|]. exists []. rewrite app_nil_r.
    split; [reflexivity|]. split; [apply Qle_refl|]. auto.
  - cbn zeta in H. eexists _, _. split; [exact H|].
    eexists. cbn [ctl trace set_next_main_loop_call_ts
                  _next_main_loop_call_ts _next_maintenance_ts].
    split; [reflexivity|]. split; [apply py_min_l|].
    split; [|left; reflexivity].
    intros F Hn. inversion F as [|? ? Hd _]. cbn in Hd.
    apply py_min_glb; assumption.
Qed.

(** C2 (as amended).  When a tick that is not rate-limited returns, the
    [next_tick_ts] it returns is the new [_next_main_loop_call_ts]; it is at
    most [now + 1]; it is at most [_next_maintenance_ts] unless the tick left
    [_next_maintenance_ts] as it was; and it is at least [now] provided the
    maintenance delay and the registration deadline answered during the
    tick are on time.  It is not bounded by [_next_timeout_ts], nor by a
    [_next_maintenance_ts] the tick did not set. *)
Theorem main_loop_next_tick (w w' : World) (next : Q) (ds : list Datagram) :
  let now := fst (handle Time_time (env w)) in
  (_next_main_loop_call_ts (ctl w) <= now)%Q ->
  main_loop w = Returned (next, ds) w' ->
  next = _next_main_loop_call_ts (ctl w') /\
  (next <= now + 1)%Q /\
  (_next_maintenance_ts (ctl w') = _next_maintenance_ts (ctl w) \/
   (next <= _next_maintenance_ts (ctl w'))%Q) /\
  (forall ext,
     trace w' = trace w ++ ext -> Forall (on_time now) ext -> (now <= next)%Q).
Proof.
  intros now Hrate. apply Qgeb_true in Hrate.
  unfold main_loop. rewrite bind_call. fold now.
  unfold bind at 1, self at 1. cbn [ctl after]. rewrite Hrate.
  unfold bind at 1, assign at 1. cbn [ctl env trace after].
  set (w0 := mkWorld _ _ _).
  unfold bind at 1.
  destruct (take_care_of_timeouts now [] w0) as [qs1 w1|e w1] eqn:H1;
    [|discriminate].
  apply tick_step_timeouts in H1.
  destruct (tick_step_maintenance now qs1 w1) as (qs2 & w2 & H2 & S2).
  rewrite (bind_returned _ H2).
  destruct (tick_step_register now (Some qs2) w2) as (ds' & w3 & H3 & S3).
  rewrite (bind_returned _ H3).
  unfold bind, self, ret. intro H. injection H as <- <- <-.
  pose proof (tick_step_trans _ _ _ _ H1 (tick_step_trans _ _ _ _ S2 S3)) as S.
  destruct S as (ext & T & L & G & Mt).
  subst w0. cbn [ctl trace set_next_main_loop_call_ts
                 _next_main_loop_call_ts _next_maintenance_ts] in *.
  split; [reflexivity|]. split; [exact L|]. split; [exact Mt|].
  intros ext' T' F. rewrite T, <- app_assoc in T'.
  apply app_inv_head in T'. subst ext'.
  inversion F as [|? ? _ F']. apply G; [exact F'|lra].
Qed.

(** Apart from that, a tick always returns: when the experimental manager
    hands back no queries for timed-out queries, [_on_timeout] and
    [main_loop] return from every world. *)
Lemma on_timeout_returns (rq : RelatedQuery) (w : World) :
  truthy (fst (handle (Exp_on_timeout rq) (env w))) = false ->
  exists qs w' ext,
    _on_timeout rq w = Returned qs w' /\ trace w' = trace w ++ ext.
Proof.
  intro Hexp. unfold _on_timeout. rewrite bind_call. rewrite Hexp.
  set (w1 := after w _).
  match goal with
  | |- exists qs w' ext, ?m w1 = _ /\ _ =>
      assert (R : runs m)
  end.
  { apply runs_bind.
    - destruct (lookup_obj rq) as [lo|]; [|apply runs_ret].
      apply runs_bind; [apply runs_call|intros [[lq n] done]].
      destruct done; [|apply runs_ret].
      apply runs_bind; [apply runs_invoke_if_callable|intros].
      apply runs_bind; [apply runs_announce|intros]. apply runs_ret.
    - intros. apply runs_bind; [apply runs_call|intros]. apply runs_ret. }
  destruct (R w1) as (qs & w' & ext & H & T).
  exists qs, w', (logged w (Exp_on_timeout rq) :: ext).
  split; [exact H|]. rewrite T. subst w1. cbn [trace after].
  rewrite <- app_assoc. reflexivity.
Qed.

Lemma main_loop_returns :
  (forall rq e, truthy (fst (handle (Exp_on_timeout rq) e)) = false) ->
  runs main_loop.
Proof.
  intro Hexp.
  assert (Rt : forall rq, runs (_on_timeout rq)).
  { intros rq w. apply on_timeout_returns, Hexp. }
  assert (Rf : forall tqs acc, runs (for_timeout_queries tqs acc)).
  { induction tqs as [|rq rest IH]; intro acc; simpl.
    - apply runs_ret.
    - apply runs_bind; [apply Rt|intro; apply IH]. }
  unfold main_loop.
  apply runs_bind; [apply runs_call|intro current_ts].
  apply runs_bind; [apply runs_self|intro next].
  destruct (Qgeb current_ts next); [|apply runs_ret].
  apply runs_bind; [apply runs_assign|intros _].
  apply runs_bind.
  { unfold take_care_of_timeouts.
    apply runs_bind; [apply runs_self|intro nt].
    destruct (Qgeb current_ts nt); [|apply runs_ret].
    apply runs_bind; [apply runs_call|intros [ts tqs]].
    apply runs_bind; [apply runs_assign|intros _]. apply Rf. }
  intro qs1. apply runs_bind.
  { intro w. destruct (tick_step_maintenance current_ts qs1 w)
      as (qs & w' & H & ext & T & _).
    exists qs, w', ext. auto. }
  intro qs2. apply runs_bind; [apply runs_register_queries|intro ds].
  apply runs_bind; [apply runs_self|intro]. apply runs_ret.
Qed.

End Heartbeat.

(** ** The statements on the concrete environment *)

Import Scenario.

(** C1: one timed-out query with experimental queries, and the tick
    raises. *)
Lemma main_loop_raises_NameError_witness :
  exists w',
    @main_loop objects environment exp_world =
      Raised (NameError "datagrams_to_send") w'.
Proof.
  apply (@main_loop_raises_NameError objects environment exp_world 2%Q
           timed_out []).
  - vm_compute. discriminate.
  - vm_compute. discriminate.
  - reflexivity.
  - reflexivity.
Defined.

(** C2, as the claim states it, fails from the constructor on.  At time 0
    a lookup is started, whose query has its deadline at 1.5, and the first
    tick returns 1, leaving [_next_timeout_ts] and [_next_maintenance_ts] at
    1.5.  The second tick, at time 1, is not rate-limited and returns 2,
    which is later than both. *)
Lemma main_loop_next_tick_counterexample :
  exists (w1 w2 w3 : @World objects environment) (next : Q),
    @get_peers objects environment 42 5 CbNone 6881%Z false
      (@__init__ objects environment 7 busy_start)
      = Returned [datagram_of 4] w1 /\
    @main_loop objects environment w1 = Returned (1%Q, []) w2 /\
    (_next_main_loop_call_ts (ctl w2) <= 1)%Q /\
    @main_loop objects environment (later w2 (quiet 1)) =
      Returned (next, []) w3 /\
    (_next_timeout_ts (ctl w3) < next)%Q /\
    (_next_maintenance_ts (ctl w3) < next)%Q /\
    ~ ((1 <= next)%Q /\
       (next <= _next_timeout_ts (ctl w3))%Q /\
       (next <= _next_maintenance_ts (ctl w3))%Q).
Proof.
  eexists _, _, _, _.
  split; [vm_compute; reflexivity|].
  split; [vm_compute; reflexivity|].
  split; [vm_compute; discriminate|].
  split; [vm_compute; reflexivity|].
  split; [vm_compute; reflexivity|].
  split; [vm_compute; reflexivity|].
  intros (_ & _ & H). vm_compute in H. apply H. reflexivity.
Defined.

(** C2 as amended, on a quiet tick at time 1. *)
Lemma main_loop_next_tick_witness :
  exists next w',
    @main_loop objects environment idle_world = Returned (next, []) w' /\
    (next <= 1 + 1)%Q /\ (1 <= next)%Q.
Proof.
  eassert (H : @main_loop objects environment idle_world =
               Returned (_, _) _) by (vm_compute; reflexivity).
  assert (Hrate : (0 <= 1)%Q) by (vm_compute; discriminate).
  destruct (@main_loop_next_tick objects environment idle_world _ _ _ Hrate H)
    as (_ & Hup & _ & Hlow).
  eexists _, _. split; [exact H|]. split; [exact Hup|].
  eapply Hlow.
  - vm_compute. reflexivity.
  - repeat constructor; vm_compute; discriminate.
Defined.

(** C3, as the claim states it, fails when [callback_f] is [None]: with the
    cache holding a fresh entry for the info-hash and [use_cache] true, no
    callback is invoked and a lookup is created and started. *)
Lemma get_peers_cache_hit_counterexample :
  @fresh_for objects 0 5 hit_entry /\
  In hit_entry (_cached_lookups (ctl hit_world)) /\
  exists w' : @World objects environment,
    @get_peers objects environment 42 5 CbNone 6881%Z true hit_world =
      Returned [] w' /\
    map (@what objects) (trace w') =
      [Called Time_time 0%Q;
       Called (LookupM_get_peers (O := objects) 42 5 CbNone 6881%Z) created;
       Called (Routing_get_closest_rnodes (O := objects) 1 0 true) [];
       Called (Tracker_get (O := objects) 5) None;
       Called (Lookup_start (O := objects) created [] true) []].
Proof.
  split; [split; [vm_compute; reflexivity|reflexivity]|].
  split; [left; reflexivity|].
  eexists. split; vm_compute; reflexivity.
Defined.

(** C3 as amended, with a callable callback. *)
Lemma get_peers_cache_hit_witness :
  exists peers,
    @get_peers objects environment 42 5 (CbCallable 1) 6881%Z true hit_world =
      Returned []
        (after (after (after hit_world Time_time)
                  (Callback (O := objects) 1 42 (Some peers) None))
           (Callback (O := objects) 1 42 None None)).
Proof.
  assert (Hne : Forall (fun e' => @entry_peers objects e' <> [])
                  (_cached_lookups (ctl hit_world))).
  { repeat constructor. discriminate. }
  assert (Hin : In hit_entry (_cached_lookups (ctl hit_world)))
    by (left; reflexivity).
  assert (Hfresh : @fresh_for objects
                     (fst (handle Time_time (env hit_world))) 5 hit_entry).
  { split; [vm_compute; reflexivity|reflexivity]. }
  destruct (@get_peers_cache_hit objects environment 42 5 1 6881%Z hit_world
              hit_entry Hne Hin Hfresh)
    as (pre & ts & peers & post & _ & _ & _ & H).
  exists peers. exact H.
Defined.

(** C4, as the claim states it, fails at the boundary: an entry for the
    info-hash that is exactly 300 s old is not returned. *)
Lemma get_cached_peers_counterexample :
  In boundary_entry (_cached_lookups (ctl boundary_world)) /\
  (fst (handle Time_time (env boundary_world)) - entry_ts boundary_entry
     <= 300)%Q /\
  entry_hash boundary_entry = 5 /\
  exists w' : @World objects environment,
    @_get_cached_peers objects environment 5 boundary_world =
      Returned None w'.
Proof.
  split; [left; reflexivity|].
  split; [vm_compute; discriminate|].
  split; [reflexivity|].
  eexists. vm_compute. reflexivity.
Defined.

(** C4 as amended: of two entries for the info-hash, the one aged 350 s is
    passed over and the one aged 250 s is returned. *)
Lemma get_cached_peers_first_fresh_witness :
  exists pre ts post,
    two_entries = pre ++ (ts, 5, [2]) :: post /\ (350 - ts < 300)%Q.
Proof.
  destruct (@get_cached_peers_first_fresh objects environment 5
              two_entries_world) as (res & H & Hres).
  assert (H' : @_get_cached_peers objects environment 5 two_entries_world =
               Returned (Some [2]) (after two_entries_world Time_time))
    by (vm_compute; reflexivity).
  rewrite H' in H. injection H as <-.
  destruct Hres as (pre & ts & post & Hc & Hlt & _).
  exists pre, ts, post. split; [exact Hc|exact Hlt].
Defined.

(** C5: the old entry goes, the recent one is extended, and the order is
    kept. *)
Lemma add_cache_peers_spec_witness :
  exists w' : @World objects environment,
    @_add_cache_peers objects environment 6 [3] old_and_recent_world =
      Returned tt w' /\
    ts_ordered (_cached_lookups (ctl w')).
Proof.
  destruct (@add_cache_peers_spec objects environment 6 [3]
              old_and_recent_world)
    as (w' & old & kept & H & _ & _ & _ & _ & Hord).
  exists w'. split; [exact H|]. apply Hord.
  - cbn. repeat constructor. vm_compute. discriminate.
  - repeat constructor; vm_compute; discriminate.
Defined.

(** C6, on a query that carries the local id 7. *)
Lemma self_query_dropped_witness :
  @on_datagram_received objects environment (datagram_with (query_from 7))
    idle_world = Returned (0%Q, []) idle_world.
Proof.
  apply (@self_query_dropped objects environment
           (datagram_with (query_from 7)) (query_from 7) idle_world);
    reflexivity.
Defined.

(** C7, on a response nobody asked for. *)
Lemma unmatched_reply_dropped_witness :
  @on_datagram_received objects environment (datagram_with (reply RESPONSE))
    idle_world =
    Returned (0%Q, [])
      (after idle_world
         (Querier_get_related_query (O := objects) (reply RESPONSE))).
Proof.
  apply (@unmatched_reply_dropped objects environment
           (datagram_with (reply RESPONSE)) (reply RESPONSE) idle_world).
  - reflexivity.
  - left. reflexivity.
  - reflexivity.
Defined.

(** C8, on a response that brings peer 8 to lookup 42. *)
Lemma cache_written_before_callback_witness :
  exists (w' : @World objects environment) (c : @Controller objects) pre post,
    trace w' =
      pre ++
      mkEntry c
        (Called (Callback (O := objects) 1 42 (Some [8]) (Some (1, 9))) tt)
        :: post /\
    existsb (@is_callback objects) pre = false /\
    exists front ts b0, _cached_lookups c = front ++ [(ts, 5, b0 ++ [8])].
Proof.
  destruct (@cache_written_before_callback objects environment
              (datagram_with (reply RESPONSE)) (reply RESPONSE) peers_query
              peers_lookup peers_world
              eq_refl eq_refl eq_refl eq_refl eq_refl)
    as (r & w' & wa & wb & pre & post & front & ts & b0 &
        _ & _ & Tb & Cb & T & Hshape).
  exists w', (ctl wb), pre, post.
  split; [rewrite T, Tb; reflexivity|].
  split; [exact Cb|].
  exists front, ts, b0. exact Hshape.
Defined.

(** C9, as the claim states it, fails when the routing manager hands back a
    query: the responder has no response for the QUERY, and the batch holds
    the datagram of the routing manager's ping. *)
Lemma unanswered_query_counterexample :
  fst (handle (Responder_get_response (O := objects) (query_from 9))
         (env ping_world)) = None /\
  exists w' : @World objects environment,
    @on_datagram_received objects environment (datagram_with (query_from 9))
      ping_world = Returned (0%Q, [Dgram (datagram_of 4)]) w'.
Proof.
  split; [reflexivity|].
  eexists. vm_compute. reflexivity.
Defined.

(** C9 as amended: the routing manager hands back a query to address 4,
    the experimental manager one to address 5, and the batch is the
    datagrams of the two, in this order. *)
Lemma unanswered_query_batch_witness :
  exists w' : @World objects environment,
    @on_datagram_received objects environment (datagram_with (query_from 9))
      Cases.plugins_world =
      Returned (0%Q, [Dgram (datagram_of 4); Dgram (datagram_of 5)]) w'.
Proof.
  assert (Hid : @node_id objects (@src_node objects (query_from 9)) <>
                _my_id (ctl Cases.plugins_world)) by discriminate.
  destruct (@unanswered_query_batch objects environment
              (datagram_with (query_from 9)) (query_from 9)
              Cases.plugins_world eq_refl eq_refl Hid eq_refl)
    as (H & _).
  eexists. exact H.
Defined.

(** C10, with [callback_f] [None] and a fresh entry in the cache: the
    lookup is started and its one query is sent. *)
Lemma get_peers_without_callback_witness :
  exists ds (w' : @World objects environment),
    @get_peers objects environment 42 5 CbNone 6881%Z true start_world =
      Returned ds w' /\
    existsb (@is_callback objects) (trace w') = false /\
    ds = [datagram_of 4].
Proof.
  destruct (@get_peers_without_callback objects environment 42 5 CbNone
              6881%Z start_world eq_refl eq_refl)
    as (w5 & ext5 & ds & w' & ext' & T5 & Hreg & H & T' & R' & C').
  exists ds, w'. split; [exact H|].
  assert (H' : exists w'',
             @get_peers objects environment 42 5 CbNone 6881%Z true
               start_world = Returned [datagram_of 4] w'').
  { eexists. vm_compute. reflexivity. }
  destruct H' as (w'' & H'). rewrite H' in H. injection H as <- <-.
  split; [|reflexivity].
  rewrite T', T5, !existsb_app. cbn [existsb].
  rewrite existsb_app in C'. apply orb_false_iff in C'. destruct C' as [C5 Ce].
  rewrite C5, Ce. reflexivity.
Defined.

(** ** Frames: what the entry points leave alone *)

Section FrameFacts.

Context {O : Objects} {E : Environment}.

Lemma same_cache_refl (w : World) : same_cache w w.
Proof. split; reflexivity. Qed.

Lemma same_cache_trans (a b c : World) :
  same_cache a b -> same_cache b c -> same_cache a c.
Proof. intros [H1 H2] [H3 H4]. split; congruence. Qed.

Lemma only_sooner_refl (w : World) : only_sooner w w.
Proof. repeat split. apply Qle_refl. Qed.

Lemma only_sooner_trans (a b c : World) :
  only_sooner a b -> only_sooner b c -> only_sooner a c.
Proof.
  intros (H1 & H2 & H3 & H4) (K1 & K2 & K3 & K4).
  repeat split; try congruence. lra.
Qed.

Lemma always_ret (R : World -> World -> Prop) {A : Type} (a : A) :
  (forall w, R w w) -> always R (ret a).
Proof. intros HR w. apply HR. Qed.

Lemma always_raise (R : World -> World -> Prop) {A : Type} (e : Exn) :
  (forall w, R w w) -> always R (@raise _ _ A e).
Proof. intros HR w. apply HR. Qed.

Lemma always_self (R : World -> World -> Prop) {A : Type}
  (f : Controller -> A) :
  (forall w, R w w) -> always R (self f).
Proof. intros HR w. apply HR. Qed.

Lemma always_bind (R : World -> World -> Prop) {A B : Type} (m : M A)
  (k : A -> M B) :
  (forall a b c, R a b -> R b c -> R a c) ->
  always R m -> (forall a, always R (k a)) -> always R (bind m k).
Proof.
  intros HT Hm Hk w. unfold bind. specialize (Hm w).
  destruct (m w) as [a w1|e w1]; cbn [world_of] in *.
  - exact (HT _ _ _ Hm (Hk a w1)).
  - exact Hm.
Qed.

Lemma same_cache_call {R : Type} (c : Call R) : always same_cache (call c).
Proof. intro w. rewrite call_after. split; reflexivity. Qed.

Lemma only_sooner_call {R : Type} (c : Call R) : always only_sooner (call c).
Proof.
  intro w. rewrite call_after. cbn [world_of]. repeat split. apply Qle_refl.
Qed.

Lemma same_cache_register (qs : PyList Query) :
  always same_cache (_register_queries qs).
Proof.
  intro w. destruct (register_queries_summary qs w)
    as (ds & w' & ext & H & _ & _ & _ & _ & Hc & Hi & _).
  rewrite H. split; assumption.
Qed.

Lemma only_sooner_register (qs : PyList Query) :
  always only_sooner (_register_queries qs).
Proof.
  intro w. destruct (register_queries_summary qs w)
    as (ds & w' & ext & H & _ & _ & _ & _ & _ & Hi & Hm & Ht & Hn).
  rewrite H. repeat split; assumption.
Qed.

Lemma only_sooner_set_cache (v : list CachedLookup) :
  always only_sooner (assign (set_cached_lookups v)).
Proof. intro w. repeat split. apply Qle_refl. Qed.

Lemma only_sooner_add_cache_peers (h : Id) (peers : list Peer) :
  always only_sooner (_add_cache_peers h peers).
Proof.
  unfold _add_cache_peers.
  apply always_bind; [exact only_sooner_trans|apply only_sooner_call|intro].
  apply always_bind;
    [exact only_sooner_trans|apply always_self, only_sooner_refl|intro].
  apply always_bind;
    [exact only_sooner_trans|apply only_sooner_set_cache|intro].
  destruct (split_last _) as [[front [[ts lh] batch]]|].
  - destruct (Id_eq_dec lh h); [apply only_sooner_set_cache|].
    apply always_bind;
      [exact only_sooner_trans|apply only_sooner_call|intro].
    apply only_sooner_set_cache.
  - apply always_bind;
      [exact only_sooner_trans|apply only_sooner_call|intro].
    apply only_sooner_set_cache.
Qed.

Lemma same_cache_set_maintenance (v : Q) :
  always same_cache (assign (set_next_maintenance_ts v)).
Proof. intro w. split; reflexivity. Qed.

Lemma same_cache_set_timeout (v : Q) :
  always same_cache (assign (set_next_timeout_ts v)).
Proof. intro w. split; reflexivity. Qed.

Lemma same_cache_set_main_loop (v : Q) :
  always same_cache (assign (set_next_main_loop_call_ts v)).
Proof. intro w. split; reflexivity. Qed.

Lemma tells_next_bind {A B : Type} (m : M A) (k : A -> M (Q * B)) :
  (forall a, tells_next (k a)) -> tells_next (bind m k).
Proof.
  intros Hk w b w' H. unfold bind in H.
  destruct (m w) as [a w1|e w1]; [|discriminate].
  exact (Hk a w1 b w' H).
Qed.

Lemma tells_next_return_now (dts : list Outbound) :
  tells_next (return_now dts).
Proof.
  intros w a w' H. unfold return_now, bind, self, ret in H.
  injection H as <- <-. reflexivity.
Qed.

Lemma tells_next_send_plugin_queries (dts : list Outbound)
  (maint exp : PyList Query) :
  tells_next (send_plugin_queries dts maint exp).
Proof.
  intros w a w' H.
  destruct (send_plugin_queries_summary dts maint exp w)
    as (ds & w1 & ext & H1 & _).
  rewrite H1 in H. injection H as <- <-. reflexivity.
Qed.

Lemma runs_add_cache_peers (h : Id) (peers : list Peer) :
  runs (_add_cache_peers h peers).
Proof.
  intro w. destruct (add_cache_peers_summary h peers w)
    as (w' & ext & _ & _ & _ & H & T & _).
  exists tt, w', ext. auto.
Qed.

Lemma runs_get_cached_peers (h : Id) : runs (_get_cached_peers h).
Proof.
  intro w. rewrite get_cached_peers_eq. eexists _, _, _.
  split; reflexivity.
Qed.

End FrameFacts.

(** Decompose a computation along its binds and branches. *)
Ltac runs_step :=
  first
    [ apply runs_ret | apply runs_self | apply runs_assign | apply runs_call
    | apply runs_register_queries | apply runs_send_plugin_queries
    | apply runs_invoke_if_callable | apply runs_announce
    | apply runs_add_cache_peers | apply runs_get_cached_peers
    | apply runs_bind; [|intros]
    | match goal with
      | |- runs (match ?x with _ => _ end) => destruct x
      | |- runs (if ?b then _ else _) => destruct b
      end ].

Ltac only_sooner_step :=
  first
    [ apply always_ret, only_sooner_refl | apply always_self, only_sooner_refl
    | apply only_sooner_call | apply only_sooner_register
    | apply only_sooner_add_cache_peers
    | apply always_bind; [exact only_sooner_trans| |intros]
    | match goal with
      | |- always _ (match ?x with _ => _ end) => destruct x
      | |- always _ (if ?b then _ else _) => destruct b
      end ].

Ltac same_cache_step :=
  first
    [ apply always_ret, same_cache_refl | apply always_self, same_cache_refl
    | apply always_raise, same_cache_refl
    | apply same_cache_call | apply same_cache_register
    | apply same_cache_set_maintenance | apply same_cache_set_timeout
    | apply same_cache_set_main_loop
    | apply always_bind; [exact same_cache_trans| |intros]
    | match goal with
      | |- always _ (match ?x with _ => _ end) => destruct x
      | |- always _ (if ?b then _ else _) => destruct b
      end ].

Ltac tells_next_step :=
  first
    [ apply tells_next_return_now | apply tells_next_send_plugin_queries
    | apply tells_next_bind; intros
    | match goal with
      | |- tells_next (match ?x with _ => _ end) => destruct x
      | |- tells_next (if ?b then _ else _) => destruct b
      end ].

Section EntryPoints.

Context {O : Objects} {E : Environment}.

Lemma runs_on_datagram_received (datagram : Datagram) :
  runs (on_datagram_received datagram).
Proof.
  unfold on_datagram_received, on_query, on_response, on_error, return_now,
    response_lookup_tasks, error_lookup_tasks.
  repeat runs_step.
Qed.

Lemma only_sooner_on_datagram_received (datagram : Datagram) :
  always only_sooner (on_datagram_received datagram).
Proof.
  unfold on_datagram_received, on_query, on_response, on_error, return_now,
    send_plugin_queries, response_lookup_tasks, error_lookup_tasks,
    invoke_if_callable, _announce.
  repeat only_sooner_step.
Qed.

Lemma tells_next_on_datagram_received (datagram : Datagram) :
  tells_next (on_datagram_received datagram).
Proof.
  unfold on_datagram_received, on_query, on_response, on_error.
  repeat tells_next_step.
Qed.

(** X1.  The scheduling state across [on_datagram_received].  Whatever
    the datagram and whatever the collaborators answer, of the node id,
    [_next_maintenance_ts], [_next_timeout_ts] and
    [_next_main_loop_call_ts] the handler changes only the last, and never
    to a later time, in the world it ends in; and when it returns
    [(next, batch)], [next] is the [_next_main_loop_call_ts] it leaves in
    the controller, the registrations made during the call counted in. *)
Theorem on_datagram_received_schedule (datagram : Datagram) (w : World) :
  only_sooner w (world_of (on_datagram_received datagram w)) /\
  forall next out w',
    on_datagram_received datagram w = Returned (next, out) w' ->
    next = _next_main_loop_call_ts (ctl w').
Proof.
  split.
  - exact (only_sooner_on_datagram_received datagram w).
  - intros next out w' H.
    exact (tells_next_on_datagram_received datagram w _ w' H).
Qed.

End EntryPoints.

(** ** Where the returned datagrams come from *)

Section Accounting.

Context {O : Objects} {E : Environment}.

Lemma registered_app (a b : list Entry) :
  registered (a ++ b) = registered a ++ registered b.
Proof. unfold registered. apply flat_map_app. Qed.

Lemma silent_ret {A : Type} (a : A) : silent (ret a).
Proof.
  intros w a' w' H. injection H as _ <-. exists [].
  rewrite app_nil_r. auto.
Qed.

Lemma silent_raise {A : Type} (e : Exn) : silent (@raise _ _ A e).
Proof. intros w a w' H. discriminate H. Qed.

Lemma silent_self {A : Type} (f : Controller -> A) : silent (self f).
Proof.
  intros w a' w' H. injection H as _ <-. exists [].
  rewrite app_nil_r. auto.
Qed.

Lemma silent_assign (f : Controller -> Controller) : silent (assign f).
Proof.
  intros w a' w' H. unfold assign in H. inversion H; subst. exists [].
  cbn [trace]. rewrite app_nil_r. auto.
Qed.

Lemma silent_call {R : Type} (c : Call R) :
  (forall r, registered_by (Called c r) = []) -> silent (call c).
Proof.
  intros Hc w a w' H. rewrite call_after in H. injection H as _ <-.
  exists [logged w c]. split; [reflexivity|].
  unfold registered, logged. cbn [flat_map what]. rewrite Hc. reflexivity.
Qed.

Lemma silent_bind {A B : Type} (m : M A) (k : A -> M B) :
  silent m -> (forall a, silent (k a)) -> silent (bind m k).
Proof.
  intros Hm Hk w b w' H. unfold bind in H.
  destruct (m w) as [a w1|e w1] eqn:Em; [|discriminate].
  destruct (Hm _ _ _ Em) as (e1 & T1 & R1).
  destruct (Hk _ _ _ _ H) as (e2 & T2 & R2).
  exists (e1 ++ e2). split; [rewrite T2, T1, app_assoc; reflexivity|].
  rewrite registered_app, R1, R2. reflexivity.
Qed.

(** A computation that ends by raising makes no promise on its return. *)
Lemma silent_bind_raise {A B : Type} (m : M A) (e : Exn) :
  silent (bind m (fun _ => @raise _ _ B e)).
Proof.
  intros w b w' H. exfalso. exact (bind_raise_never_returns _ _ _ _ _ H).
Qed.

Lemma accounted_ret_nil {A : Type} (p : A -> list Datagram) (a : A) :
  p a = [] -> accounted p (ret a).
Proof.
  intros Hp w a' w' H. injection H as <- <-. exists [].
  rewrite app_nil_r. auto.
Qed.

Lemma accounted_register (qs : PyList Query) :
  accounted whole (_register_queries qs).
Proof.
  intros w ds w' H.
  destruct (register_queries_summary qs w)
    as (ds1 & w1 & ext & H1 & T & R & _).
  rewrite H1 in H. injection H as <- <-. exists ext. auto.
Qed.

Lemma accounted_bind {A B : Type} (p : B -> list Datagram) (m : M A)
  (k : A -> M B) :
  silent m -> (forall a, accounted p (k a)) -> accounted p (bind m k).
Proof.
  intros Hm Hk w b w' H. unfold bind in H.
  destruct (m w) as [a w1|e w1] eqn:Em; [|discriminate].
  destruct (Hm _ _ _ Em) as (e1 & T1 & R1).
  destruct (Hk _ _ _ _ H) as (e2 & T2 & R2).
  exists (e1 ++ e2). split; [rewrite T2, T1, app_assoc; reflexivity|].
  rewrite registered_app, R1, R2. reflexivity.
Qed.

(** The last steps of [main_loop]: register, read the timestamp, return. *)
Lemma accounted_register_and_return (qs : PyList Query) :
  accounted snd
    (datagrams_to_send <- _register_queries qs ;;
     next <- self _next_main_loop_call_ts ;;
     ret (next, datagrams_to_send))%py.
Proof.
  intros w a w' H. unfold bind in H.
  destruct (_register_queries qs w) as [ds w1|e w1] eqn:Er; [|discriminate].
  unfold self, ret in H. injection H as <- <-.
  exact (accounted_register qs w ds w1 Er).
Qed.

Lemma silent_add_cache_peers (h : Id) (peers : list Peer) :
  silent (_add_cache_peers h peers).
Proof.
  unfold _add_cache_peers.
  apply silent_bind; [apply silent_call; reflexivity|intro].
  apply silent_bind; [apply silent_self|intro].
  apply silent_bind; [apply silent_assign|intro].
  destruct (split_last _) as [[front [[ts lh] batch]]|].
  - destruct (Id_eq_dec lh h); [apply silent_assign|].
    apply silent_bind; [apply silent_call; reflexivity|intro].
    apply silent_assign.
  - apply silent_bind; [apply silent_call; reflexivity|intro].
    apply silent_assign.
Qed.

Lemma silent_invoke_if_callable (cb : PyCallback Callable) (lid : LookupId)
  (peers : option (list Peer)) (node : option Node) :
  silent (invoke_if_callable cb lid peers node).
Proof.
  unfold invoke_if_callable. destruct (callable cb).
  - apply silent_call. reflexivity.
  - apply silent_ret.
Qed.

Lemma silent_announce (lo : LookupObj) : silent (_announce lo).
Proof.
  unfold _announce.
  apply silent_bind; [apply silent_call; reflexivity|intros [qs b]].
  apply silent_ret.
Qed.

Lemma silent_get_cached_peers (h : Id) : silent (_get_cached_peers h).
Proof.
  unfold _get_cached_peers.
  apply silent_bind; [apply silent_call; reflexivity|intro].
  apply silent_bind; [apply silent_self|intro]. apply silent_ret.
Qed.

Lemma silent_on_timeout (rq : RelatedQuery) : silent (_on_timeout rq).
Proof.
  unfold _on_timeout.
  apply silent_bind; [apply silent_call; reflexivity|intro exp].
  apply silent_bind.
  - destruct (lookup_obj rq) as [lo|]; [|apply silent_ret].
    apply silent_bind; [apply silent_call; reflexivity|intros [[lq n] done]].
    destruct done; [|apply silent_ret].
    apply silent_bind; [apply silent_invoke_if_callable|intro].
    apply silent_bind; [apply silent_announce|intro]. apply silent_ret.
  - intro qs.
    apply silent_bind; [apply silent_call; reflexivity|intro maint].
    destruct (truthy exp); [apply silent_bind_raise|apply silent_ret].
Qed.

Lemma silent_for_timeout_queries (tqs : list RelatedQuery)
  (acc : list Query) :
  silent (for_timeout_queries tqs acc).
Proof.
  revert acc. induction tqs as [|rq rest IH]; intro acc; simpl.
  - apply silent_ret.
  - apply silent_bind; [apply silent_on_timeout|intro; apply IH].
Qed.

End Accounting.

Ltac silent_step :=
  first
    [ apply silent_ret | apply silent_self | apply silent_assign
    | apply silent_add_cache_peers | apply silent_invoke_if_callable
    | apply silent_announce | apply silent_get_cached_peers
    | apply silent_for_timeout_queries
    | apply silent_call; reflexivity
    | apply silent_bind; [|intros]
    | match goal with
      | |- silent (match ?x with _ => _ end) => destruct x
      | |- silent (if ?b then _ else _) => destruct b
      end ].

Section AccountedEntryPoints.

Context {O : Objects} {E : Environment}.

Lemma runs_get_peers (lid : LookupId) (h : Id) (cb : PyCallback Callable)
  (bt_port : Port) (use_cache : bool) :
  runs (get_peers lid h cb bt_port use_cache).
Proof. unfold get_peers. cbn zeta. repeat runs_step. Qed.

Lemma only_sooner_get_peers (lid : LookupId) (h : Id)
  (cb : PyCallback Callable) (bt_port : Port) (use_cache : bool) :
  always only_sooner (get_peers lid h cb bt_port use_cache).
Proof.
  unfold get_peers, _get_cached_peers, invoke_if_callable. cbn zeta.
  repeat only_sooner_step.
Qed.

Lemma accounted_get_peers (lid : LookupId) (h : Id)
  (cb : PyCallback Callable) (bt_port : Port) (use_cache : bool) :
  accounted whole (get_peers lid h cb bt_port use_cache).
Proof.
  assert (Hstart : forall cb',
    accounted whole
      (lo <- call (LookupM_get_peers lid h cb' bt_port) ;;
       my_id <- self _my_id ;;
       bootstrap_rnodes <-
         call (Routing_get_closest_rnodes
                 (distance_log (info_hash lo) my_id) 0 true) ;;
       peers <- call (Tracker_get (info_hash lo)) ;;
       (if truthy peers then
          _add_cache_peers (info_hash lo) (items peers) ;;
          invoke_if_callable (callback_f lo) (lookup_id lo)
            (Some (items peers)) None
        else ret tt) ;;
       queries_to_send <- call (Lookup_start lo bootstrap_rnodes true) ;;
       _register_queries (Some queries_to_send))%py).
  { intro cb'.
    apply accounted_bind; [apply silent_call; reflexivity|intro lo].
    apply accounted_bind; [apply silent_self|intro my_id].
    apply accounted_bind; [apply silent_call; reflexivity|intro rnodes].
    apply accounted_bind; [apply silent_call; reflexivity|intro peers].
    apply accounted_bind; [repeat silent_step|intro].
    apply accounted_bind; [apply silent_call; reflexivity|intro qs].
    apply accounted_register. }
  unfold get_peers. cbn zeta. destruct use_cache; [|apply Hstart].
  apply accounted_bind; [apply silent_get_cached_peers|intro peers].
  destruct (if truthy peers then callable cb else None); [|apply Hstart].
  apply accounted_bind; [apply silent_call; reflexivity|intro].
  apply accounted_bind; [apply silent_call; reflexivity|intro].
  apply accounted_ret_nil. reflexivity.
Qed.

(** X2.  When [get_peers] returns, the datagrams it returns are exactly
    those the querier answered to the [register_queries] calls made during
    the call; and of the node id and the three scheduling timestamps the
    call has changed only [_next_main_loop_call_ts], and not to a later
    time.  (The debug line that formats [bt_port] with [%d] is no part of
    the embedding: a call that fails there does not return.) *)
Theorem get_peers_datagrams_registered (lid : LookupId) (h : Id)
  (cb : PyCallback Callable) (bt_port : Port) (use_cache : bool)
  (w w' : World) (ds : list Datagram) :
  get_peers lid h cb bt_port use_cache w = Returned ds w' ->
  (exists ext, trace w' = trace w ++ ext /\ registered ext = ds) /\
  only_sooner w w'.
Proof.
  intro H. split.
  - exact (accounted_get_peers lid h cb bt_port use_cache w ds w' H).
  - pose proof (only_sooner_get_peers lid h cb bt_port use_cache w) as F.
    rewrite H in F. exact F.
Qed.

End AccountedEntryPoints.

(** ** More on the heartbeat *)

Section Ticks.

Context {O : Objects} {E : Environment}.

Lemma same_cache_on_timeout (rq : RelatedQuery) :
  always same_cache (_on_timeout rq).
Proof.
  unfold _on_timeout, invoke_if_callable, _announce.
  repeat same_cache_step.
Qed.

Lemma same_cache_for_timeout_queries (tqs : list RelatedQuery)
  (acc : list Query) :
  always same_cache (for_timeout_queries tqs acc).
Proof.
  revert acc. induction tqs as [|rq rest IH]; intro acc; simpl.
  - apply always_ret, same_cache_refl.
  - apply always_bind;
      [exact same_cache_trans|apply same_cache_on_timeout|intro; apply IH].
Qed.

(** X3.  A tick never touches the peer cache or the node id, whether it
    returns or ends by raising. *)
Theorem main_loop_keeps_cache (w : World) :
  same_cache w (world_of (main_loop w)).
Proof.
  revert w. change (always same_cache main_loop).
  unfold main_loop, take_care_of_timeouts, routing_table_maintenance.
  repeat first [apply same_cache_for_timeout_queries | same_cache_step].
Qed.

Lemma silent_take_care_of_timeouts (now : Q) (acc : list Query) :
  silent (take_care_of_timeouts now acc).
Proof. unfold take_care_of_timeouts. repeat silent_step. Qed.

Lemma silent_routing_table_maintenance (now : Q) (acc : list Query) :
  silent (routing_table_maintenance now acc).
Proof. unfold routing_table_maintenance. repeat silent_step. Qed.

(** X4.  When a tick returns, the datagrams it hands to the reactor are
    exactly those the querier answered to the one registration the tick
    makes at its end: the queries of the timeouts, of the maintenance and of
    the maintenance lookup go out in one batch, and nothing else does. *)
Theorem main_loop_datagrams_registered (w w' : World) (next : Q)
  (ds : list Datagram) :
  main_loop w = Returned (next, ds) w' ->
  exists ext, trace w' = trace w ++ ext /\ registered ext = ds.
Proof.
  revert w next ds w'.
  assert (H : accounted snd main_loop).
  { unfold main_loop.
    apply accounted_bind; [apply silent_call; reflexivity|intro now].
    apply accounted_bind; [apply silent_self|intro next].
    destruct (Qgeb now next); [|apply accounted_ret_nil; reflexivity].
    apply accounted_bind; [apply silent_assign|intros _].
    apply accounted_bind; [apply silent_take_care_of_timeouts|intro qs1].
    apply accounted_bind; [apply silent_routing_table_maintenance|intro qs2].
    apply accounted_register_and_return. }
  intros w next ds w' Hr. exact (H w (next, ds) w' Hr).
Qed.

(** X5.  A tick that comes before [_next_main_loop_call_ts] does nothing
    but read the clock: it returns the unchanged timestamp with no
    datagram, and asks neither the querier nor the routing manager. *)
Theorem main_loop_too_early (w : World) :
  (fst (handle Time_time (env w)) < _next_main_loop_call_ts (ctl w))%Q ->
  main_loop w =
    Returned (_next_main_loop_call_ts (ctl w), []) (after w Time_time).
Proof.
  intro Hearly. unfold main_loop. rewrite bind_call.
  unfold bind, self. cbn [ctl after].
  destruct (Qgeb _ _) eqn:G; [|reflexivity].
  apply Qgeb_true in G. lra.
Qed.

Lemma sweep_nothing_timed_out (now ts : Q) (acc : list Query) (w : World) :
  (_next_timeout_ts (ctl w) <= now)%Q ->
  fst (handle Querier_get_timeout_queries (env w)) = (ts, []) ->
  take_care_of_timeouts now acc w =
    Returned acc
      (mkWorld (set_next_timeout_ts ts (ctl w))
         (snd (handle Querier_get_timeout_queries (env w)))
         (trace w ++ [logged w Querier_get_timeout_queries])).
Proof.
  intros Hdue Hq. apply Qgeb_true in Hdue.
  unfold take_care_of_timeouts. unfold bind at 1, self at 1. rewrite Hdue.
  rewrite bind_call, Hq. reflexivity.
Qed.

Lemma maintenance_when_due (now : Q) (acc : list Query) (w : World) :
  (_next_maintenance_ts (ctl w) <= fst (handle Time_time (env w)))%Q ->
  exists qs w' post,
    routing_table_maintenance now acc w = Returned qs w' /\
    trace w' =
      trace w ++
      logged w Time_time
        :: logged (after w Time_time) Routing_do_maintenance :: post /\
    _next_maintenance_ts (ctl w') =
      (now +
       fst (fst (fst (handle Routing_do_maintenance
                        (env (after w Time_time))))))%Q /\
    _next_timeout_ts (ctl w') = _next_timeout_ts (ctl w).
Proof.
  intro Hdue. apply Qgeb_true in Hdue.
  unfold routing_table_maintenance. rewrite bind_call.
  unfold bind at 1, self at 1. cbn [ctl after]. rewrite Hdue.
  rewrite bind_call. set (w1 := after w Time_time).
  destruct (fst (handle Routing_do_maintenance (env w1)))
    as [[delay queries] lookup] eqn:Hm.
  unfold bind at 1, assign at 1. unfold bind at 1, self at 1.
  unfold bind at 1, self at 1. unfold bind at 1, assign at 1.
  cbn [ctl env trace after fst].
  destruct lookup as [[target rnodes]|].
  - rewrite bind_call, bind_call. eexists _, _, _.
    split; [reflexivity|]. unfold w1. cbn [ctl trace after].
    split; [|split; reflexivity].
    rewrite <- !app_assoc. reflexivity.
  - eexists _, _, []. split; [reflexivity|]. unfold w1.
    cbn [ctl trace after].
    split; [|split; reflexivity].
    rewrite <- !app_assoc. reflexivity.
Qed.

(** X6.  The first tick after construction is never rate-limited and finds
    both sweeps due, provided the clock has not gone back since: when no
    query has timed out, it asks the querier for the timeouts and the
    routing manager for maintenance, in this order, and sets
    [_next_timeout_ts] and [_next_maintenance_ts] from their answers. *)
Theorem first_tick_fires (my_id : Id) (e0 e1 : Env) (ts : Q) :
  let w := at_env (__init__ my_id e0) e1 in
  let t0 := fst (handle Time_time e0) in
  let t1 := fst (handle Time_time e1) in
  let w1 := after w Time_time in
  let w2 := after w1 Querier_get_timeout_queries in
  let t2 := fst (handle Time_time (env w2)) in
  let w3 := after w2 Time_time in
  let answer := fst (handle Routing_do_maintenance (env w3)) in
  (t0 <= t1)%Q ->
  (t0 <= t2)%Q ->
  fst (handle Querier_get_timeout_queries (env w1)) = (ts, []) ->
  exists next ds w' post,
    main_loop w = Returned (next, ds) w' /\
    map what (trace w') =
      Called Time_time t1
        :: Called Querier_get_timeout_queries (ts, [])
        :: Called Time_time t2
        :: Called Routing_do_maintenance answer
        :: post /\
    _next_timeout_ts (ctl w') = ts /\
    _next_maintenance_ts (ctl w') = (t1 + fst (fst answer))%Q.
Proof.
  intros w t0 t1 w1 w2 t2 w3 answer H1 H2 Hq.
  assert (Hctl : ctl w = mkController my_id t0 t0 t0 []).
  { unfold w, at_env, __init__, t0. cbn [ctl].
    destruct (handle Time_time e0). reflexivity. }
  assert (Htr : trace w = []).
  { unfold w, at_env, __init__. cbn [trace].
    destruct (handle Time_time e0). reflexivity. }
  unfold main_loop. rewrite bind_call.
  change (fst (handle Time_time (env w))) with t1. fold w1.
  unfold bind at 1, self at 1.
  assert (G : Qgeb t1 (_next_main_loop_call_ts (ctl w1)) = true).
  { apply Qgeb_true. unfold w1. cbn [ctl after]. rewrite Hctl. exact H1. }
  rewrite G. unfold bind at 1, assign at 1.
  set (wa := mkWorld _ _ _).
  assert (Hsweep := sweep_nothing_timed_out t1 ts [] wa).
  rewrite (bind_returned _ (Hsweep
             ltac:(unfold wa; cbn [ctl]; unfold w1; cbn [ctl after];
                   rewrite Hctl; exact H1) Hq)).
  set (wb := mkWorld _ _ _).
  assert (Hdue : (_next_maintenance_ts (ctl wb) <=
                  fst (handle Time_time (env wb)))%Q).
  { unfold wb, wa, w1. cbn [ctl env after]. rewrite Hctl. exact H2. }
  destruct (maintenance_when_due t1 [] wb Hdue)
    as (qs & wc & post & Hm & Tc & Mc & Oc).
  rewrite (bind_returned _ Hm).
  destruct (register_queries_summary (Some qs) wc)
    as (ds & wd & ext & Hr & Td & _ & _ & _ & _ & _ & Md & Od & _).
  rewrite (bind_returned _ Hr). unfold bind, self, ret.
  eexists _, ds, wd, (map what (post ++ ext)).
  split; [reflexivity|].
  split.
  { rewrite Td, Tc. unfold wb, wa. cbn [trace]. unfold w1 at 1 2.
    cbn [trace after]. rewrite Htr. rewrite !map_app.
    cbn [map app what logged env]. rewrite Hq.
    reflexivity. }
  split.
  - rewrite Od, Oc. reflexivity.
  - rewrite Md, Mc. reflexivity.
Qed.

End Ticks.

(** ** More on incoming datagrams *)

Section Handlers.

Context {O : Objects} {E : Environment}.

Lemma callbacks_app (a b : list Entry) :
  callbacks (a ++ b) = callbacks a ++ callbacks b.
Proof. unfold callbacks. rewrite filter_app, map_app. reflexivity. Qed.

Lemma callbacks_quiet (ext : list Entry) :
  existsb is_callback ext = false -> callbacks ext = [].
Proof.
  unfold callbacks. induction ext as [|e ext IH]; cbn; [reflexivity|].
  intro H. apply orb_false_iff in H. destruct H as [He Hext].
  rewrite He. auto.
Qed.

Lemma register_queries_acct (qs : PyList Query) (w : World) :
  exists ds w' ext,
    yields (_register_queries qs) w ds w' ext /\
    registered ext = ds /\ callbacks ext = [] /\ same_cache w w'.
Proof.
  destruct (register_queries_summary qs w)
    as (ds & w' & ext & H & T & R & C & _ & Hc & Hi & _).
  exists ds, w', ext. split; [split; assumption|].
  split; [exact R|]. split; [apply callbacks_quiet, C|split; assumption].
Qed.

Lemma add_cache_peers_acct (h : Id) (peers : list Peer) (w : World) :
  exists w' ext,
    yields (_add_cache_peers h peers) w tt w' ext /\
    registered ext = [] /\ callbacks ext = [].
Proof.
  destruct (add_cache_peers_summary h peers w)
    as (w' & ext & _ & _ & _ & H & T & C & _).
  destruct (silent_add_cache_peers h peers w tt w' H) as (ext' & T' & R').
  rewrite T in T'. apply app_inv_head in T'. subst ext'.
  exists w', ext. split; [split; assumption|].
  split; [exact R'|apply callbacks_quiet, C].
Qed.

Lemma invoke_if_callable_acct (cb : PyCallback Callable) (lid : LookupId)
  (peers : option (list Peer)) (node : option Node) (w : World) :
  exists w' ext,
    yields (invoke_if_callable cb lid peers node) w tt w' ext /\
    ctl w' = ctl w /\
    registered ext = [] /\
    callbacks ext = callback_calls cb lid peers node.
Proof.
  unfold invoke_if_callable, callback_calls.
  destruct (callable cb) as [f|].
  - exists (after w (Callback f lid peers node)),
      [logged w (Callback f lid peers node)].
    split.
    { split; [|reflexivity]. rewrite call_after.
      destruct (fst (handle _ (env w))). reflexivity. }
    split; [reflexivity|]. split; [reflexivity|].
    unfold callbacks, logged. cbn.
    destruct (fst (handle _ (env w))). reflexivity.
  - exists w, []. split; [split; [reflexivity|]|].
    + symmetry. apply app_nil_r.
    + repeat split.
Qed.

Lemma send_plugin_queries_acct (dts : list Outbound)
  (maint exp : PyList Query) (w : World) :
  exists w' ext,
    yields (send_plugin_queries dts maint exp) w
      (_next_main_loop_call_ts (ctl w'), dts ++ map Dgram (registered ext))
      w' ext /\
    callbacks ext = [] /\ same_cache w w'.
Proof.
  destruct (send_plugin_queries_summary dts maint exp w)
    as (ds & w' & ext & H & T & R & C & _ & Hc).
  exists w', ext. rewrite R. split; [split; assumption|].
  split; [apply callbacks_quiet, C|].
  assert (F : always same_cache (send_plugin_queries dts maint exp)).
  { unfold send_plugin_queries. repeat same_cache_step. }
  specialize (F w). rewrite H in F. exact F.
Qed.

Lemma announce_eq (lo : LookupObj) (w : World) :
  _announce lo w =
    Returned (fst (fst (handle (Lookup_announce lo) (env w))))
      (after w (Lookup_announce lo)).
Proof.
  unfold _announce. rewrite bind_call.
  destruct (fst (handle (Lookup_announce lo) (env w))). reflexivity.
Qed.

(** The peers part of the lookup related tasks of a RESPONSE. *)
Lemma peers_part_acct (lo : LookupObj) (peers : PyList Peer)
  (node : option Node) (w : World) :
  exists w' ext,
    yields
      (if truthy peers then
         _add_cache_peers (info_hash lo) (items peers) ;;
         invoke_if_callable (callback_f lo) (lookup_id lo)
           (Some (items peers)) node
       else ret tt)%py w tt w' ext /\
    registered ext = [] /\
    callbacks ext =
      (if truthy peers
       then callback_calls (callback_f lo) (lookup_id lo)
              (Some (items peers)) node
       else []).
Proof.
  destruct (truthy peers).
  - destruct (add_cache_peers_acct (info_hash lo) (items peers) w)
      as (w1 & e1 & [H1 T1] & R1 & C1).
    destruct (invoke_if_callable_acct (callback_f lo) (lookup_id lo)
                (Some (items peers)) node w1)
      as (w2 & e2 & [H2 T2] & _ & R2 & C2).
    exists w2, (e1 ++ e2). split; [split|].
    + rewrite (bind_returned _ H1). exact H2.
    + rewrite T2, T1, app_assoc. reflexivity.
    + rewrite registered_app, callbacks_app, R1, R2, C1, C2. auto.
  - exists w, []. split; [split; [reflexivity|]|auto].
    symmetry. apply app_nil_r.
Qed.

(** The completion part of the lookup related tasks of a RESPONSE. *)
Lemma done_part_acct (lo : LookupObj) (done : bool) (node : option Node)
  (acc : list Outbound) (w : World) :
  exists w' ext,
    yields
      (if done then
         invoke_if_callable (callback_f lo) (lookup_id lo) None node ;;
         queries_to_send <- _announce lo ;;
         datagrams <- _register_queries (Some queries_to_send) ;;
         ret (acc ++ map Dgram datagrams)
       else ret acc)%py w (acc ++ map Dgram (registered ext)) w' ext /\
    callbacks ext =
      (if done
       then callback_calls (callback_f lo) (lookup_id lo) None node
       else []).
Proof.
  unfold yields. destruct done.
  - destruct (invoke_if_callable_acct (callback_f lo) (lookup_id lo) None
                node w) as (w1 & e1 & [H1 T1] & _ & R1 & C1).
    rewrite (bind_returned _ H1).
    rewrite (bind_returned _ (announce_eq lo w1)).
    destruct (register_queries_acct
                (Some (fst (fst (handle (Lookup_announce lo) (env w1)))))
                (after w1 (Lookup_announce lo)))
      as (ds & w3 & e3 & [H3 T3] & R3 & C3 & _).
    rewrite (bind_returned _ H3). unfold ret.
    exists w3, (e1 ++ [logged w1 (Lookup_announce lo)] ++ e3).
    split; [split|].
    + rewrite !registered_app, R1, R3. cbn [app].
      replace (registered [logged w1 (Lookup_announce lo)])
        with (@nil Datagram) by reflexivity.
      reflexivity.
    + rewrite T3. cbn [trace after]. rewrite T1, <- !app_assoc.
      reflexivity.
    + rewrite !callbacks_app, C1, C3.
      replace (callbacks [logged w1 (Lookup_announce lo)])
        with (@nil AnyCall) by reflexivity.
      cbn [app]. rewrite app_nil_r. reflexivity.
  - exists w, []. cbn. rewrite !app_nil_r. repeat split.
Qed.

Lemma response_lookup_tasks_acct (msg : Msg) (lo : LookupObj)
  (dts : list Outbound) (w : World) :
  let answer :=
    fst (handle (Lookup_on_response_received lo msg (src_node msg)) (env w)) in
  let peers := snd (fst (fst answer)) in
  let done := snd answer in
  exists w' ext,
    yields (response_lookup_tasks msg lo dts) w
      (dts ++ map Dgram (registered ext)) w' ext /\
    callbacks ext =
      (if truthy peers
       then callback_calls (callback_f lo) (lookup_id lo)
              (Some (items peers)) (Some (src_node msg))
       else []) ++
      (if done
       then callback_calls (callback_f lo) (lookup_id lo) None
              (Some (src_node msg))
       else []).
Proof.
  intros answer peers done. unfold yields.
  unfold response_lookup_tasks. rewrite bind_call.
  set (c := Lookup_on_response_received lo msg (src_node msg)) in *.
  assert (Hans : fst (handle c (env w)) = answer) by reflexivity.
  rewrite Hans.
  assert (Hp : peers = snd (fst (fst answer))) by reflexivity.
  assert (Hd : done = snd answer) by reflexivity.
  clearbody peers done.
  destruct answer as [[[lq ps] n] dn]. cbn [fst snd] in Hp, Hd. subst ps dn.
  destruct (register_queries_acct (Some lq) (after w c))
    as (ds1 & w1 & e1 & [H1 T1] & R1 & C1 & _).
  rewrite (bind_returned _ H1).
  destruct (peers_part_acct lo peers (Some (src_node msg)) w1)
    as (w2 & e2 & [H2 T2] & R2 & C2).
  rewrite (bind_returned _ H2).
  destruct (done_part_acct lo done (Some (src_node msg))
              (dts ++ map Dgram ds1) w2)
    as (w3 & e3 & [H3 T3] & C3).
  exists w3, (logged w c :: e1 ++ e2 ++ e3).
  split; [split|].
  - rewrite H3.
    change (logged w c :: e1 ++ e2 ++ e3)
      with ([logged w c] ++ e1 ++ e2 ++ e3).
    rewrite !registered_app, R1, R2. cbn [app].
    replace (registered [logged w c]) with (@nil Datagram) by reflexivity.
    cbn [app]. rewrite map_app, app_assoc. reflexivity.
  - rewrite T3, T2, T1. cbn [trace after]. rewrite <- !app_assoc.
    reflexivity.
  - change (logged w c :: e1 ++ e2 ++ e3)
      with ([logged w c] ++ e1 ++ e2 ++ e3).
    rewrite !callbacks_app, C1, C2, C3. reflexivity.
Qed.

(** X7.  A matched RESPONSE bound to a lookup: every item of the batch is a
    datagram the querier made of a query registered during the call, in the
    order of registration; and the callbacks invoked are, in this order,
    [callback_f(lookup_id, peers, src_node)] when the lookup yields peers
    and [callback_f(lookup_id, None, src_node)] when it reports done, each
    only when [callback_f] is callable: the completion signal comes last. *)
Theorem response_handled (datagram : Datagram) (msg : Msg)
  (rq : RelatedQuery) (lo : LookupObj) (w : World) :
  let w1 := after w (Querier_get_related_query msg) in
  let w2 := after w1 (Exp_on_response_received msg rq) in
  let answer :=
    fst (handle (Lookup_on_response_received lo msg (src_node msg))
           (env w2)) in
  let peers := snd (fst (fst answer)) in
  let done := snd answer in
  incoming_msg datagram = Some msg ->
  msg_type msg = RESPONSE ->
  fst (handle (Querier_get_related_query msg) (env w)) = Some rq ->
  lookup_obj rq = Some lo ->
  exists next w' ext,
    on_datagram_received datagram w =
      Returned (next, map Dgram (registered ext)) w' /\
    trace w' = trace w ++ ext /\
    callbacks ext =
      (if truthy peers
       then callback_calls (callback_f lo) (lookup_id lo)
              (Some (items peers)) (Some (src_node msg))
       else []) ++
      (if done
       then callback_calls (callback_f lo) (lookup_id lo) None
              (Some (src_node msg))
       else []).
Proof.
  intros w1 w2 answer peers done Hdec Hty Hrq Hlo.
  unfold on_datagram_received. rewrite Hdec, Hty.
  unfold on_response. rewrite bind_call, Hrq. fold w1.
  rewrite bind_call. fold w2. rewrite Hlo.
  destruct (response_lookup_tasks_acct msg lo [] w2)
    as (w3 & e3 & [H3 T3] & C3).
  rewrite (bind_returned _ H3). rewrite bind_call.
  set (c := Routing_on_response_received _ _ _).
  destruct (send_plugin_queries_acct ([] ++ map Dgram (registered e3))
              (fst (handle c (env w3)))
              (fst (handle (Exp_on_response_received msg rq) (env w1)))
              (after w3 c))
    as (w4 & e4 & [H4 T4] & C4 & _).
  exists (_next_main_loop_call_ts (ctl w4)), w4,
    ([logged w (Querier_get_related_query msg);
      logged w1 (Exp_on_response_received msg rq)] ++ e3 ++ [logged w3 c]
     ++ e4).
  split; [|split].
  - rewrite H4. rewrite !registered_app.
    replace (registered [logged w (Querier_get_related_query msg);
                         logged w1 (Exp_on_response_received msg rq)])
      with (@nil Datagram) by reflexivity.
    replace (registered [logged w3 c]) with (@nil Datagram) by reflexivity.
    cbn [app]. rewrite map_app. reflexivity.
  - rewrite T4. cbn [trace after]. rewrite T3. unfold w2, w1.
    cbn [trace after]. rewrite <- !app_assoc. reflexivity.
  - rewrite !callbacks_app, C3, C4.
    replace (callbacks [logged w (Querier_get_related_query msg);
                        logged w1 (Exp_on_response_received msg rq)])
      with (@nil AnyCall) by reflexivity.
    replace (callbacks [logged w3 c]) with (@nil AnyCall) by reflexivity.
    cbn [app]. rewrite app_nil_r. reflexivity.
Qed.

(** X8.  A matched RESPONSE that belongs to no lookup (a maintenance
    query's): after the experimental manager, the routing manager is told
    [(src_node, rtt, all_nodes)], [rtt] being the outstanding query's; no
    callback is invoked, the cache is left alone, and the batch is the
    datagrams of the plugins' queries. *)
Theorem response_without_lookup (datagram : Datagram) (msg : Msg)
  (rq : RelatedQuery) (w : World) :
  let w1 := after w (Querier_get_related_query msg) in
  let w2 := after w1 (Exp_on_response_received msg rq) in
  let w3 :=
    after w2
      (Routing_on_response_received (src_node msg) (rtt rq) (all_nodes msg)) in
  incoming_msg datagram = Some msg ->
  msg_type msg = RESPONSE ->
  fst (handle (Querier_get_related_query msg) (env w)) = Some rq ->
  lookup_obj rq = None ->
  exists next w' ext,
    on_datagram_received datagram w =
      Returned (next, map Dgram (registered ext)) w' /\
    trace w' = trace w3 ++ ext /\
    callbacks ext = [] /\
    same_cache w w'.
Proof.
  intros w1 w2 w3 Hdec Hty Hrq Hlo.
  unfold on_datagram_received. rewrite Hdec, Hty.
  unfold on_response. rewrite bind_call, Hrq. fold w1.
  rewrite bind_call. fold w2. rewrite Hlo.
  unfold bind at 1, ret at 1. rewrite bind_call. fold w3.
  set (c := Routing_on_response_received _ _ _) in *.
  destruct (send_plugin_queries_acct []
              (fst (handle c (env w2)))
              (fst (handle (Exp_on_response_received msg rq) (env w1))) w3)
    as (w4 & e4 & [H4 T4] & C4 & S4).
  exists (_next_main_loop_call_ts (ctl w4)), w4, e4.
  split; [exact H4|]. split; [exact T4|]. split; [exact C4|].
  exact S4.
Qed.

(** The lookup related tasks of an ERROR. *)
Lemma error_lookup_tasks_acct (datagram : Datagram) (msg : Msg)
  (lo : LookupObj) (dts : list Outbound) (w : World) :
  let answer :=
    fst (handle (Lookup_on_error_received lo msg (addr datagram)) (env w)) in
  let done := snd answer in
  exists ds w' ext wa,
    yields (error_lookup_tasks datagram msg lo dts) w
      (dts ++ map Dgram ds ++
       (if done
        then map Unregistered (fst (fst (handle (Lookup_announce lo) (env wa))))
        else [])) w' ext /\
    registered ext = ds /\
    callbacks ext =
      (if done
       then callback_calls (callback_f lo) (lookup_id lo) None
              (Some (src_node msg))
       else []) /\
    (done = true -> In (logged wa (Lookup_announce lo)) ext) /\
    same_cache w w'.
Proof.
  intros answer done. unfold yields.
  unfold error_lookup_tasks. rewrite bind_call.
  set (c := Lookup_on_error_received lo msg (addr datagram)) in *.
  assert (Hans : fst (handle c (env w)) = answer) by reflexivity.
  rewrite Hans.
  assert (Hd : done = snd answer) by reflexivity.
  clearbody done.
  destruct answer as [[lq n] dn]. cbn [snd] in Hd. subst dn.
  destruct (register_queries_acct (Some lq) (after w c))
    as (ds1 & w1 & e1 & [H1 T1] & R1 & C1 & S1).
  rewrite (bind_returned _ H1).
  assert (Hcb : exists w2 e2,
    yields
      (match callable (callback_f lo) with
       | Some f =>
           if done
           then call (Callback f (lookup_id lo) None (Some (src_node msg)))
           else ret tt
       | None => ret tt
       end) w1 tt w2 e2 /\
    ctl w2 = ctl w1 /\ registered e2 = [] /\
    callbacks e2 =
      (if done
       then callback_calls (callback_f lo) (lookup_id lo) None
              (Some (src_node msg))
       else [])).
  { destruct done.
    - destruct (invoke_if_callable_acct (callback_f lo) (lookup_id lo) None
                  (Some (src_node msg)) w1) as (w2 & e2 & Y & K & R & C).
      exists w2, e2. unfold invoke_if_callable in Y. auto.
    - exists w1, []. unfold yields. rewrite app_nil_r.
      destruct (callable (callback_f lo)); auto. }
  destruct Hcb as (w2 & e2 & [H2 T2] & K2 & R2 & C2).
  rewrite (bind_returned _ H2).
  destruct done.
  - rewrite (bind_returned _ (announce_eq lo w2)). unfold ret.
    exists ds1, (after w2 (Lookup_announce lo)),
      ([logged w c] ++ e1 ++ e2 ++ [logged w2 (Lookup_announce lo)]), w2.
    split; [split|].
    + rewrite <- app_assoc. reflexivity.
    + cbn [trace after]. rewrite T2, T1. cbn [trace after].
      rewrite <- !app_assoc. reflexivity.
    + split.
      { rewrite !registered_app, R1, R2.
        replace (registered [logged w c]) with (@nil Datagram)
          by reflexivity.
        replace (registered [logged w2 (Lookup_announce lo)])
          with (@nil Datagram) by reflexivity.
        cbn [app]. rewrite app_nil_r. reflexivity. }
      split.
      { rewrite !callbacks_app, C1, C2.
        replace (callbacks [logged w c]) with (@nil AnyCall) by reflexivity.
        replace (callbacks [logged w2 (Lookup_announce lo)])
          with (@nil AnyCall) by reflexivity.
        cbn [app]. rewrite app_nil_r. reflexivity. }
      split.
      { intros _. rewrite !in_app_iff. right. right. right. left.
        reflexivity. }
      destruct S1 as [Sa Sb]. split; cbn [ctl after]; rewrite K2.
      * exact Sa.
      * exact Sb.
  - unfold ret. exists ds1, w2, ([logged w c] ++ e1 ++ e2), w2.
    split; [split|].
    + rewrite app_nil_r. reflexivity.
    + rewrite T2, T1. cbn [trace after]. rewrite <- !app_assoc.
      reflexivity.
    + split.
      { rewrite !registered_app, R1, R2.
        replace (registered [logged w c]) with (@nil Datagram)
          by reflexivity.
        cbn [app]. rewrite app_nil_r. reflexivity. }
      split.
      { rewrite !callbacks_app, C1, C2.
        replace (callbacks [logged w c]) with (@nil AnyCall) by reflexivity.
        reflexivity. }
      split; [discriminate|].
      destruct S1 as [Sa Sb]. split; rewrite K2.
      * exact Sa.
      * exact Sb.
Qed.

(** The worlds the statements below name, and what lies between them. *)
Lemma registering_acct (qs : PyList Query) (w : World) :
  exists ext,
    trace (registering qs w) = trace w ++ ext /\
    registered ext = answered qs (env w) /\
    callbacks ext = [] /\
    same_cache w (registering qs w).
Proof.
  destruct (registering_history qs w) as (ext & T & R & C & _).
  exists ext. split; [exact T|]. split; [exact R|].
  split; [apply callbacks_quiet, C|].
  unfold registering. destruct (truthy qs); split; reflexivity.
Qed.

Lemma plugins_acct (maint exp : PyList Query) (w : World) :
  let w1 := registering maint w in
  let w2 := registering exp w1 in
  exists ext,
    trace w2 = trace w ++ ext /\
    registered ext = answered maint (env w) ++ answered exp (env w1) /\
    callbacks ext = [] /\
    same_cache w w2.
Proof.
  intros w1 w2.
  destruct (registering_acct maint w) as (e1 & T1 & R1 & C1 & S1).
  destruct (registering_acct exp w1) as (e2 & T2 & R2 & C2 & S2).
  exists (e1 ++ e2).
  split; [unfold w2; rewrite T2; unfold w1; rewrite T1;
          symmetry; apply app_assoc|].
  split; [rewrite registered_app, R1, R2; reflexivity|].
  split; [rewrite callbacks_app, C1, C2; reflexivity|].
  exact (same_cache_trans _ _ _ S1 S2).
Qed.

Lemma calling_acct (cb : PyCallback Callable) (lid : LookupId)
  (peers : option (list Peer)) (node : option Node) (w : World) :
  exists ext,
    trace (calling cb lid peers node w) = trace w ++ ext /\
    registered ext = [] /\
    callbacks ext = callback_calls cb lid peers node /\
    same_cache w (calling cb lid peers node w).
Proof.
  unfold calling, callback_calls. destruct (callable cb) as [f|].
  - exists [logged w (Callback f lid peers node)].
    split; [reflexivity|]. split; [reflexivity|].
    split; [|split; reflexivity].
    unfold callbacks, logged. cbn.
    destruct (fst (handle _ (env w))). reflexivity.
  - exists []. rewrite app_nil_r. repeat split.
Qed.

(** The lookup related tasks of an ERROR, as one equation. *)
Lemma error_lookup_tasks_exact (datagram : Datagram) (msg : Msg)
  (lo : LookupObj) (dts : list Outbound) (w : World) :
  let c := Lookup_on_error_received lo msg (addr datagram) in
  let answer := fst (handle c (env w)) in
  let lookup_queries := fst (fst answer) in
  let done := snd answer in
  let w3 := after w c in
  let w4 := registering (Some lookup_queries) w3 in
  let w5 :=
    if done
    then calling (callback_f lo) (lookup_id lo) None (Some (src_node msg)) w4
    else w4 in
  let announce := fst (fst (handle (Lookup_announce lo) (env w5))) in
  let w6 := if done then after w5 (Lookup_announce lo) else w5 in
  error_lookup_tasks datagram msg lo dts w =
    Returned
      ((dts ++ map Dgram (answered (Some lookup_queries) (env w3))) ++
       (if done then map Unregistered announce else [])) w6.
Proof.
  intros c answer lookup_queries done w3 w4 w5 announce w6.
  unfold error_lookup_tasks. rewrite bind_call. fold c w3.
  assert (Hans : fst (handle c (env w)) = answer) by reflexivity.
  rewrite Hans.
  assert (Hq : lookup_queries = fst (fst answer)) by reflexivity.
  assert (Hd : done = snd answer) by reflexivity.
  clearbody lookup_queries done answer.
  destruct answer as [[lq n] dn]. cbn [fst snd] in Hq, Hd. subst lq dn.
  rewrite (bind_returned _ (register_queries_exact (Some lookup_queries) w3)).
  fold w4.
  assert (Hcb :
    (match callable (callback_f lo) with
     | Some f =>
         if done
         then call (Callback f (lookup_id lo) None (Some (src_node msg)))
         else ret tt
     | None => ret tt
     end) w4 = Returned tt w5).
  { unfold w5, calling. destruct (callable (callback_f lo)) as [f|].
    - destruct done; [|reflexivity].
      rewrite call_after. destruct (fst (handle _ (env w4))). reflexivity.
    - destruct done; reflexivity. }
  rewrite (bind_returned _ Hcb).
  unfold w6, announce. destruct done.
  - rewrite (bind_returned _ (announce_eq lo w5)). reflexivity.
  - rewrite app_nil_r. reflexivity.
Qed.

(** X9.  A matched ERROR bound to a lookup.  The experimental manager and
    the lookup are told; the lookup's queries are registered; when the
    lookup reports done, [callback_f(lookup_id, None, src_node)] is invoked
    if [callback_f] is callable, and [announce()] is asked; the routing
    manager is told; and its queries, then the experimental manager's, are
    registered.  The batch is, in this order: the datagrams the querier
    answered for the lookup's queries; when the lookup reports done, the
    queries [announce()] answered, as they are, without being registered
    with the querier; and the datagrams answered for the routing manager's
    queries and then for the experimental manager's.  No other callback is
    invoked, and the cache is left alone. *)
Theorem error_handled (datagram : Datagram) (msg : Msg)
  (rq : RelatedQuery) (lo : LookupObj) (w : World) :
  let w1 := after w (Querier_get_related_query msg) in
  let exp := fst (handle (Exp_on_error_received msg rq) (env w1)) in
  let w2 := after w1 (Exp_on_error_received msg rq) in
  let answer :=
    fst (handle (Lookup_on_error_received lo msg (addr datagram))
           (env w2)) in
  let lookup_queries := fst (fst answer) in
  let done := snd answer in
  let w3 := after w2 (Lookup_on_error_received lo msg (addr datagram)) in
  let w4 := registering (Some lookup_queries) w3 in
  let w5 :=
    if done
    then calling (callback_f lo) (lookup_id lo) None (Some (src_node msg)) w4
    else w4 in
  let announce := fst (fst (handle (Lookup_announce lo) (env w5))) in
  let w6 := if done then after w5 (Lookup_announce lo) else w5 in
  let maint :=
    fst (handle (Routing_on_error_received (addr datagram)) (env w6)) in
  let w7 := after w6 (Routing_on_error_received (addr datagram)) in
  let w8 := registering maint w7 in
  let w9 := registering exp w8 in
  incoming_msg datagram = Some msg ->
  msg_type msg = ERROR ->
  fst (handle (Querier_get_related_query msg) (env w)) = Some rq ->
  lookup_obj rq = Some lo ->
  on_datagram_received datagram w =
    Returned
      (_next_main_loop_call_ts (ctl w9),
       map Dgram (answered (Some lookup_queries) (env w3)) ++
       (if done then map Unregistered announce else []) ++
       map Dgram (answered maint (env w7) ++ answered exp (env w8))) w9 /\
  (exists ext,
     trace w9 = trace w ++ ext /\
     registered ext =
       answered (Some lookup_queries) (env w3) ++
       answered maint (env w7) ++ answered exp (env w8) /\
     callbacks ext =
       (if done
        then callback_calls (callback_f lo) (lookup_id lo) None
               (Some (src_node msg))
        else []) /\
     (done = true -> In (logged w5 (Lookup_announce lo)) ext)) /\
  same_cache w w9.
Proof.
  intros w1 exp w2 answer lookup_queries done w3 w4 w5 announce w6 maint w7
    w8 w9 Hdec Hty Hrq Hlo.
  split; [|split].
  - unfold on_datagram_received. rewrite Hdec, Hty.
    unfold on_error. rewrite bind_call, Hrq. fold w1.
    rewrite bind_call. fold w2 exp. rewrite Hlo.
    rewrite (bind_returned _ (error_lookup_tasks_exact datagram msg lo [] w2)).
    fold answer. fold lookup_queries done. fold w3. fold w4. fold w5.
    fold announce. fold w6.
    rewrite bind_call. fold maint w7.
    rewrite (send_plugin_queries_exact _ maint exp w7). fold w8 w9.
    cbn [app]. rewrite <- app_assoc. reflexivity.
  - destruct (registering_acct (Some lookup_queries) w3)
      as (e4 & T4 & R4 & C4 & _).
    fold w4 in T4.
    assert (H5 : exists e5,
      trace w6 = trace w4 ++ e5 /\ registered e5 = [] /\
      callbacks e5 =
        (if done
         then callback_calls (callback_f lo) (lookup_id lo) None
                (Some (src_node msg))
         else []) /\
      (done = true -> In (logged w5 (Lookup_announce lo)) e5)).
    { unfold w6. clearbody w4. unfold w5.
      destruct done.
      - destruct (calling_acct (callback_f lo) (lookup_id lo) None
                    (Some (src_node msg)) w4) as (e & T & R & C & _).
        eexists (e ++ [_]). cbn [trace after]. rewrite T.
        split; [symmetry; apply app_assoc|].
        split; [rewrite registered_app, R; reflexivity|].
        split; [rewrite callbacks_app, C; apply app_nil_r|].
        intros _. apply in_or_app. right. left. reflexivity.
      - exists []. rewrite app_nil_r.
        split; [reflexivity|]. split; [reflexivity|].
        split; [reflexivity|discriminate]. }
    destruct H5 as (e5 & T5 & R5 & C5 & I5).
    destruct (plugins_acct maint exp w7) as (e8 & T8 & R8 & C8 & _).
    fold w8 in T8, R8. fold w9 in T8.
    exists ([logged w (Querier_get_related_query msg);
             logged w1 (Exp_on_error_received msg rq);
             logged w2 (Lookup_on_error_received lo msg (addr datagram))]
            ++ e4 ++ e5
            ++ [logged w6 (Routing_on_error_received (addr datagram))]
            ++ e8).
    split; [|split; [|split]].
    + rewrite T8. unfold w7. cbn [trace after]. rewrite T5, T4.
      unfold w3, w2, w1. cbn [trace after].
      rewrite <- !app_assoc. reflexivity.
    + rewrite !registered_app, R4, R5, R8. reflexivity.
    + rewrite !callbacks_app, C4, C5, C8. cbn [app].
      replace (callbacks
                 [logged w (Querier_get_related_query msg);
                  logged w1 (Exp_on_error_received msg rq);
                  logged w2
                    (Lookup_on_error_received lo msg (addr datagram))])
        with (@nil AnyCall) by reflexivity.
      replace (callbacks
                 [logged w6 (Routing_on_error_received (addr datagram))])
        with (@nil AnyCall) by reflexivity.
      cbn [app]. apply app_nil_r.
    + intro Hd. apply in_or_app. right. apply in_or_app. right.
      apply in_or_app. left. exact (I5 Hd).
  - destruct (registering_acct (Some lookup_queries) w3)
      as (_ & _ & _ & _ & S4).
    fold w4 in S4.
    assert (S6 : same_cache w4 w6).
    { unfold w6, w5. destruct done; [|apply same_cache_refl].
      destruct (calling_acct (callback_f lo) (lookup_id lo) None
                  (Some (src_node msg)) w4) as (_ & _ & _ & _ & [Sa Sb]).
      split; cbn [ctl after]; assumption. }
    destruct (plugins_acct maint exp w7) as (_ & _ & _ & _ & S9).
    fold w8 in S9. fold w9 in S9.
    apply (same_cache_trans w w4 w9); [exact S4|].
    apply (same_cache_trans w4 w6 w9); [exact S6|exact S9].
Qed.

(** X10.  A QUERY from another node that the responder answers.  After the
    experimental manager, the responder and the routing manager have been
    asked, in this order, the routing manager's queries are registered and
    then the experimental manager's.  The batch is the response, stamped
    with the transaction id of the query and addressed to the address the
    datagram came from, followed by the datagrams the querier answered for
    the routing manager's queries and then by those it answered for the
    experimental manager's.  No callback is invoked and the cache is left
    alone. *)
Theorem query_answered (datagram : Datagram) (msg : Msg) (r : OutMsg)
  (w : World) :
  let exp := fst (handle (Exp_on_query_received msg) (env w)) in
  let w1 := after w (Exp_on_query_received msg) in
  let w2 := after w1 (Responder_get_response msg) in
  let maint :=
    fst (handle (Routing_on_query_received (src_node msg)) (env w2)) in
  let w3 := after w2 (Routing_on_query_received (src_node msg)) in
  let w4 := registering maint w3 in
  let w5 := registering exp w4 in
  incoming_msg datagram = Some msg ->
  msg_type msg = QUERY ->
  node_id (src_node msg) <> _my_id (ctl w) ->
  fst (handle (Responder_get_response msg) (env w1)) = Some r ->
  on_datagram_received datagram w =
    Returned
      (_next_main_loop_call_ts (ctl w5),
       Dgram (mkDatagram (stamp r (tid msg)) (addr datagram))
         :: map Dgram (answered maint (env w3) ++ answered exp (env w4)))
      w5 /\
  (exists ext,
     trace w5 = trace w3 ++ ext /\
     registered ext = answered maint (env w3) ++ answered exp (env w4) /\
     callbacks ext = []) /\
  same_cache w w5.
Proof.
  intros exp w1 w2 maint w3 w4 w5 Hdec Hty Hid Hresp.
  destruct (plugins_acct maint exp w3) as (ext & T & R & C & S).
  fold w4 in T, R, S. fold w5 in T, S.
  split; [|split].
  - unfold on_datagram_received. rewrite Hdec, Hty.
    unfold on_query. unfold bind at 1, self at 1.
    destruct (Id_eq_dec (node_id (src_node msg)) (_my_id (ctl w)))
      as [Heq|_]; [contradiction|].
    rewrite bind_call. fold w1 exp. rewrite bind_call, Hresp. fold w2.
    rewrite bind_call. fold w3 maint.
    rewrite (send_plugin_queries_exact _ maint exp w3). reflexivity.
  - exists ext. split; [exact T|]. split; [exact R|exact C].
  - exact S.
Qed.

(** X11.  A datagram that does not decode, or that decodes to a message
    whose type is neither QUERY nor RESPONSE nor ERROR, is dropped: the
    batch is empty and nothing at all happens, no collaborator being
    called. *)
Theorem undecodable_or_unknown_dropped (datagram : Datagram) (w : World) :
  incoming_msg datagram = None \/
  (exists msg, incoming_msg datagram = Some msg /\
               msg_type msg = OTHER_TYPE) ->
  on_datagram_received datagram w =
    Returned (_next_main_loop_call_ts (ctl w), []) w.
Proof.
  intros [Hdec|(msg & Hdec & Hty)]; unfold on_datagram_received;
    rewrite Hdec; [|rewrite Hty]; reflexivity.
Qed.

(** X12.  Only a RESPONSE can change the peer cache: for a datagram that
    decodes to any other message, or does not decode,
    [on_datagram_received] leaves [_cached_lookups] and the node id as they
    were. *)
Theorem only_responses_write_cache (datagram : Datagram) (w : World) :
  (forall msg, incoming_msg datagram = Some msg -> msg_type msg <> RESPONSE) ->
  same_cache w (world_of (on_datagram_received datagram w)).
Proof.
  intro Hty. unfold on_datagram_received.
  destruct (incoming_msg datagram) as [msg|] eqn:Hdec;
    [|apply same_cache_refl].
  specialize (Hty msg eq_refl).
  destruct (msg_type msg); [|contradiction| |apply same_cache_refl].
  - revert w. change (always same_cache (on_query datagram msg [])).
    unfold on_query, return_now, send_plugin_queries.
    repeat same_cache_step.
  - revert w. change (always same_cache (on_error datagram msg [])).
    unfold on_error, return_now, send_plugin_queries, error_lookup_tasks,
      _announce.
    repeat same_cache_step.
Qed.

End Handlers.

(** ** More on the peer cache *)

Section CacheRoundTrip.

Context {O : Objects} {E : Environment}.

Lemma scan_cached_app (oldest : Q) (h : Id) (a b : list CachedLookup) :
  scan_cached oldest h (a ++ b) =
    match scan_cached oldest h a with
    | Some peers => Some peers
    | None => scan_cached oldest h b
    end.
Proof.
  induction a as [|[[ts eh] ps] a IH]; simpl; [reflexivity|].
  destruct (Qltb oldest ts && (if Id_eq_dec h eh then true else false));
    [reflexivity|exact IH].
Qed.

Lemma scan_cached_skip (oldest : Q) (h : Id) (a : list CachedLookup) :
  Forall (fun e => ~ ((oldest < entry_ts e)%Q /\ entry_hash e = h)) a ->
  scan_cached oldest h a = None.
Proof.
  induction 1 as [|[[ts eh] ps] a Hx _ IH]; simpl; [reflexivity|].
  destruct (Qltb oldest ts) eqn:L; simpl; [|exact IH].
  destruct (Id_eq_dec h eh) as [->|D]; [|exact IH].
  exfalso. apply Hx. split; [apply Qltb_true, L|reflexivity].
Qed.

Lemma scan_cached_other (oldest : Q) (h : Id) (a : list CachedLookup) :
  Forall (fun e => entry_hash e <> h) a -> scan_cached oldest h a = None.
Proof.
  intro H. apply scan_cached_skip. eapply Forall_impl; [|exact H].
  cbn beta. intros e He [_ Heq]. contradiction.
Qed.

Lemma scan_cached_one (oldest ts : Q) (h : Id) (peers : list Peer) :
  scan_cached oldest h [(ts, h, peers)] =
    if Qltb oldest ts then Some peers else None.
Proof.
  simpl. destruct (Id_eq_dec h h) as [_|D]; [|contradiction].
  destruct (Qltb oldest ts); reflexivity.
Qed.

Lemma split_last_app (front : list CachedLookup) (l : CachedLookup) :
  split_last (front ++ [l]) = Some (front, l).
Proof.
  induction front as [|e front IH]; simpl; [reflexivity|].
  rewrite IH. reflexivity.
Qed.

(** The clean-up cannot delete a last entry that is not too old. *)
Lemma drop_old_keeps_last (oldest : Q) (front : list CachedLookup)
  (l : CachedLookup) :
  (oldest <= entry_ts l)%Q ->
  exists gone kept,
    front = gone ++ kept /\
    drop_old oldest (front ++ [l]) = kept ++ [l].
Proof.
  intro Hl. induction front as [|[[ts eh] ps] front IH]; simpl.
  - exists [], []. split; [reflexivity|].
    destruct l as [[ts eh] ps]. cbn in Hl.
    destruct (Qltb ts oldest) eqn:L; [|reflexivity].
    apply Qltb_true in L. lra.
  - destruct (Qltb ts oldest).
    + destruct IH as (gone & kept & -> & Hd).
      exists ((ts, eh, ps) :: gone), kept. auto.
    + exists [], ((ts, eh, ps) :: front). auto.
Qed.

(** What [_add_cache_peers] leaves in the cache, as a function of the
    clean-up. *)
Lemma add_cache_peers_cache (h : Id) (peers : list Peer) (w : World) :
  let now := fst (handle Time_time (env w)) in
  let now' := fst (handle Time_time (env (after w Time_time))) in
  let kept := drop_old (now - CACHE_VALID_PERIOD)%Q (_cached_lookups (ctl w)) in
  exists w',
    _add_cache_peers h peers w = Returned tt w' /\
    _cached_lookups (ctl w') =
      match split_last kept with
      | Some (front, (ts, last_hash, batch)) =>
          if Id_eq_dec last_hash h
          then front ++ [(ts, last_hash, batch ++ peers)]
          else kept ++ [(now', h, peers)]
      | None => kept ++ [(now', h, peers)]
      end.
Proof.
  intros now now' kept.
  unfold _add_cache_peers. rewrite bind_call. fold now.
  unfold bind at 1, self at 1. unfold bind at 1, assign at 1.
  cbn [ctl env trace after]. fold kept.
  destruct (split_last kept) as [[front [[ts lh] batch]]|].
  - destruct (Id_eq_dec lh h).
    + eexists. split; reflexivity.
    + rewrite bind_call. eexists. split; reflexivity.
  - rewrite bind_call. eexists. split; reflexivity.
Qed.

(** X13.  Insert, then look up: when the cache holds no entry for the
    info-hash, the peers given to [_add_cache_peers] are what a later
    [_get_cached_peers] of that info-hash returns, exactly as long as less
    than 300 s have passed since the clock reading of the insertion; from
    300 s on it returns [None]. *)
Theorem cached_peers_found_after_insert (h : Id) (peers : list Peer)
  (w : World) :
  let inserted_at := fst (handle Time_time (env (after w Time_time))) in
  Forall (fun e => entry_hash e <> h) (_cached_lookups (ctl w)) ->
  exists w',
    _add_cache_peers h peers w = Returned tt w' /\
    forall e2,
      let t := fst (handle Time_time e2) in
      ((t - inserted_at < 300)%Q ->
       _get_cached_peers h (at_env w' e2) =
         Returned (Some peers) (after (at_env w' e2) Time_time)) /\
      ((300 <= t - inserted_at)%Q ->
       _get_cached_peers h (at_env w' e2) =
         Returned None (after (at_env w' e2) Time_time)).
Proof.
  intros inserted_at Hother.
  destruct (add_cache_peers_cache h peers w) as (w' & Hadd & Hcache).
  cbn zeta in Hcache. fold inserted_at in Hcache.
  set (kept := drop_old _ _) in Hcache.
  assert (Hkept : Forall (fun e => entry_hash e <> h) kept).
  { destruct (drop_old_split
                (fst (handle Time_time (env w)) - CACHE_VALID_PERIOD)%Q
                (_cached_lookups (ctl w))) as (old & Hs & _).
    fold kept in Hs. rewrite Hs in Hother.
    apply Forall_app in Hother. tauto. }
  assert (Hc : _cached_lookups (ctl w') = kept ++ [(inserted_at, h, peers)]).
  { rewrite Hcache.
    destruct (split_last kept) as [[front [[ts lh] batch]]|] eqn:S;
      [|reflexivity].
    destruct (Id_eq_dec lh h) as [->|_]; [|reflexivity].
    exfalso. apply split_last_some in S. rewrite S in Hkept.
    apply Forall_app in Hkept. destruct Hkept as [_ Hl].
    inversion Hl as [|? ? Hx _]. apply Hx. reflexivity. }
  exists w'. split; [exact Hadd|].
  intros e2 t.
  assert (Hget : _get_cached_peers h (at_env w' e2) =
                 Returned
                   (if Qltb (t - CACHE_VALID_PERIOD) inserted_at
                    then Some peers else None)
                   (after (at_env w' e2) Time_time)).
  { rewrite get_cached_peers_eq. cbn [at_env env ctl]. fold t.
    rewrite Hc, scan_cached_app, (scan_cached_other _ _ _ Hkept).
    rewrite scan_cached_one. reflexivity. }
  rewrite Hget. split; intro Ht.
  - destruct (Qltb _ _) eqn:L; [reflexivity|].
    apply Qltb_false in L. unfold CACHE_VALID_PERIOD in L. lra.
  - destruct (Qltb _ _) eqn:L; [|reflexivity].
    apply Qltb_true in L. unfold CACHE_VALID_PERIOD in L. lra.
Qed.

(** X14.  Merging does not refresh an entry.  When the last entry of the
    cache is for the info-hash (and no other is), was stamped [ts] and
    survives the clean-up, the new peers join its batch under the old
    timestamp: a later lookup returns the old batch followed by the new
    peers while less than 300 s have passed since [ts], and [None] from
    then on, however recent the insertion. *)
Theorem merged_peers_expire_with_entry (h : Id) (peers batch : list Peer)
  (ts : Q) (front : list CachedLookup) (w : World) :
  let now := fst (handle Time_time (env w)) in
  _cached_lookups (ctl w) = front ++ [(ts, h, batch)] ->
  Forall (fun e => entry_hash e <> h) front ->
  (now - 300 <= ts)%Q ->
  exists w',
    _add_cache_peers h peers w = Returned tt w' /\
    forall e2,
      let t := fst (handle Time_time e2) in
      ((t - ts < 300)%Q ->
       _get_cached_peers h (at_env w' e2) =
         Returned (Some (batch ++ peers)) (after (at_env w' e2) Time_time)) /\
      ((300 <= t - ts)%Q ->
       _get_cached_peers h (at_env w' e2) =
         Returned None (after (at_env w' e2) Time_time)).
Proof.
  intros now Hcache Hother Hts.
  destruct (add_cache_peers_cache h peers w) as (w' & Hadd & Hc).
  cbn zeta in Hc. fold now in Hc.
  destruct (drop_old_keeps_last (now - CACHE_VALID_PERIOD)%Q front
              (ts, h, batch)) as (gone & kept & Hf & Hd).
  { cbn. unfold CACHE_VALID_PERIOD. lra. }
  assert (Hd' : drop_old (now - CACHE_VALID_PERIOD)%Q
                  (_cached_lookups (ctl w)) = kept ++ [(ts, h, batch)])
    by (rewrite Hcache; exact Hd).
  rewrite Hd', split_last_app in Hc.
  destruct (Id_eq_dec h h) as [_|D]; [|contradiction].
  assert (Hkept : Forall (fun e => entry_hash e <> h) kept).
  { rewrite Hf in Hother. apply Forall_app in Hother. tauto. }
  exists w'. split; [exact Hadd|].
  intros e2 t.
  assert (Hget : _get_cached_peers h (at_env w' e2) =
                 Returned
                   (if Qltb (t - CACHE_VALID_PERIOD) ts
                    then Some (batch ++ peers) else None)
                   (after (at_env w' e2) Time_time)).
  { rewrite get_cached_peers_eq. cbn [at_env env ctl]. fold t.
    rewrite Hc, scan_cached_app, (scan_cached_other _ _ _ Hkept).
    rewrite scan_cached_one. reflexivity. }
  rewrite Hget. split; intro Ht.
  - destruct (Qltb _ _) eqn:L; [reflexivity|].
    apply Qltb_false in L. unfold CACHE_VALID_PERIOD in L. lra.
  - destruct (Qltb _ _) eqn:L; [|reflexivity].
    apply Qltb_true in L. unfold CACHE_VALID_PERIOD in L. lra.
Qed.

Lemma ts_ordered_head_bound (bound : Q) (cache : list CachedLookup) :
  ts_ordered cache ->
  match cache with
  | [] => True
  | e :: _ => (bound <= entry_ts e)%Q
  end ->
  Forall (fun e => (bound <= entry_ts e)%Q) cache.
Proof.
  destruct cache as [|e rest]; [constructor|].
  intros [Hall _] He. constructor; [exact He|].
  eapply Forall_impl; [|exact Hall]. cbn beta. intros e' H. lra.
Qed.

(** X15.  The clean-up bounds the age of what is cached: when the entries
    are in timestamp order and the clock does not go back during the call,
    after [_add_cache_peers] no entry of the cache is older than 300 s, as
    seen at the clock reading of the clean-up. *)
Theorem cache_entries_recent_after_insert (h : Id) (peers : list Peer)
  (w : World) :
  let now := fst (handle Time_time (env w)) in
  let now' := fst (handle Time_time (env (after w Time_time))) in
  ts_ordered (_cached_lookups (ctl w)) ->
  (now <= now')%Q ->
  exists w',
    _add_cache_peers h peers w = Returned tt w' /\
    Forall (fun e => (now - entry_ts e <= 300)%Q) (_cached_lookups (ctl w')).
Proof.
  intros now now' Hord Hclock.
  destruct (add_cache_peers_cache h peers w) as (w' & Hadd & Hc).
  cbn zeta in Hc. fold now now' in Hc.
  destruct (drop_old_split (now - CACHE_VALID_PERIOD)%Q
              (_cached_lookups (ctl w))) as (old & Hs & _ & Hhead).
  set (kept := drop_old _ _) in *.
  assert (Hk : Forall (fun e => (now - CACHE_VALID_PERIOD <= entry_ts e)%Q)
                 kept).
  { apply ts_ordered_head_bound; [|exact Hhead].
    rewrite Hs in Hord. apply ts_ordered_app in Hord. tauto. }
  assert (Hk' : Forall (fun e => (now - entry_ts e <= 300)%Q) kept).
  { eapply Forall_impl; [|exact Hk]. cbn beta. intros e He.
    unfold CACHE_VALID_PERIOD in He. lra. }
  assert (Hnew : Forall (fun e => (now - entry_ts e <= 300)%Q)
                   (kept ++ [(now', h, peers)])).
  { apply Forall_app. split; [exact Hk'|].
    constructor; [cbn; lra|constructor]. }
  exists w'. split; [exact Hadd|]. rewrite Hc.
  destruct (split_last kept) as [[front [[ts lh] batch]]|] eqn:S;
    [|exact Hnew].
  destruct (Id_eq_dec lh h); [|exact Hnew].
  apply split_last_some in S. rewrite S in Hk'.
  apply Forall_app in Hk'. destruct Hk' as [Hf Hl].
  apply Forall_app. split; [exact Hf|].
  inversion Hl as [|? ? Hx _]. constructor; [exact Hx|constructor].
Qed.

End CacheRoundTrip.

(** ** The peer cache and the sharing of list objects *)

Section SharedLists.

Context {O : Objects} {E : Environment}.

Lemma ref_drop_old_split (oldest : Q) (cache : list ByReference.CachedRef) :
  exists old,
    cache = old ++ ByReference.drop_old oldest cache /\
    Forall (fun e => (ByReference.entry_ts e < oldest)%Q) old.
Proof.
  induction cache as [|[[ts h] r] cache IH]; simpl.
  - exists []. split; [reflexivity|constructor].
  - destruct (Qltb ts oldest) eqn:L.
    + destruct IH as (old & Hc & Hold).
      exists ((ts, h, r) :: old). split.
      * simpl. f_equal. exact Hc.
      * constructor; [apply Qltb_true, L|exact Hold].
    + exists []. split; [reflexivity|constructor].
Qed.

Lemma ref_split_last_some (cache front : list ByReference.CachedRef) (l : ByReference.CachedRef) :
  ByReference.split_last cache = Some (front, l) -> cache = front ++ [l].
Proof.
  revert front. induction cache as [|e cache IH]; simpl; intro front.
  - discriminate.
  - destruct (ByReference.split_last cache) as [[f l']|] eqn:S.
    + intro H. injection H as <- <-. simpl. f_equal. apply IH. reflexivity.
    + intro H. injection H as <- <-.
      destruct cache as [|e' cache]; [reflexivity|].
      simpl in S. destruct (ByReference.split_last cache) as [[? ?]|];
        discriminate.
Qed.

Lemma ref_split_last_app (front : list ByReference.CachedRef) (l : ByReference.CachedRef) :
  ByReference.split_last (front ++ [l]) = Some (front, l).
Proof.
  induction front as [|e front IH]; simpl; [reflexivity|].
  rewrite IH. reflexivity.
Qed.

Lemma ref_scan_app (oldest : Q) (h : Id) (a b : list ByReference.CachedRef) :
  ByReference.scan_cached oldest h (a ++ b) =
    match ByReference.scan_cached oldest h a with
    | Some r => Some r
    | None => ByReference.scan_cached oldest h b
    end.
Proof.
  induction a as [|[[ts eh] r] a IH]; simpl; [reflexivity|].
  destruct (Qltb oldest ts && (if Id_eq_dec h eh then true else false));
    [reflexivity|exact IH].
Qed.

(** Entries older than the bound of the clean-up are not returned at any
    later bound. *)
Lemma ref_scan_old (oldest oldest2 : Q) (h : Id) (old : list ByReference.CachedRef) :
  (oldest <= oldest2)%Q ->
  Forall (fun e => (ByReference.entry_ts e < oldest)%Q) old ->
  ByReference.scan_cached oldest2 h old = None.
Proof.
  intros Hle. induction 1 as [|[[ts eh] r] old Hx _ IH]; simpl;
    [reflexivity|].
  cbn in Hx. destruct (Qltb oldest2 ts) eqn:L; simpl; [|exact IH].
  apply Qltb_true in L. lra.
Qed.

(** What a lookup returns is the list object of an entry for the
    info-hash. *)
Lemma ref_scan_some (oldest : Q) (h : Id) (cache : list ByReference.CachedRef)
  (r : ByReference.Ref) :
  ByReference.scan_cached oldest h cache = Some r ->
  exists e,
    In e cache /\ ByReference.entry_hash e = h /\
    ByReference.entry_ref e = r.
Proof.
  induction cache as [|[[ts eh] r'] cache IH]; simpl; [discriminate|].
  destruct (Qltb oldest ts); simpl.
  - destruct (Id_eq_dec h eh) as [->|D].
    + intro H. injection H as ->. exists (ts, eh, r). auto.
    + intro H. destruct (IH H) as (e & Hin & He). exists e. auto.
  - intro H. destruct (IH H) as (e & Hin & He). exists e. auto.
Qed.

(** The clean-up cannot delete a last entry that is not too old. *)
Lemma ref_drop_old_keeps_last (oldest : Q) (front : list ByReference.CachedRef)
  (l : ByReference.CachedRef) :
  (oldest <= ByReference.entry_ts l)%Q ->
  exists kept, ByReference.drop_old oldest (front ++ [l]) = kept ++ [l].
Proof.
  intro Hl. induction front as [|[[ts eh] r] front IH]; simpl.
  - exists []. destruct l as [[ts eh] r]. cbn in Hl.
    destruct (Qltb ts oldest) eqn:L; [|reflexivity].
    apply Qltb_true in L. lra.
  - destruct (Qltb ts oldest).
    + exact IH.
    + exists ((ts, eh, r) :: front). reflexivity.
Qed.

(** X16.  Inserting for one info-hash and looking up another, the list
    objects counted in.  When no list object is held both by an entry for
    [h] and by an entry for [h'], [_add_cache_peers(h, peers)] changes
    nothing of what a later [_get_cached_peers(h')] returns: it returns the
    same list object (or [None] as before), holding the same peers,
    provided the clock has not gone back since the insertion.  What the
    clean-up deleted was already too old to be returned. *)
Theorem insert_leaves_other_lookups (h h' : Id) (peers : ByReference.Ref) (s : ByReference.Cache)
  (e e2 : Env) :
  let now := fst (handle Time_time e) in
  let s' := fst (ByReference._add_cache_peers h peers s e) in
  h' <> h ->
  ByReference.unshared h h' (ByReference._cached_lookups s) ->
  (now <= fst (handle Time_time e2))%Q ->
  fst (ByReference._get_cached_peers h' s' e2) =
    fst (ByReference._get_cached_peers h' s e2) /\
  forall r,
    fst (ByReference._get_cached_peers h' s e2) = Some r ->
    ByReference.lists s' r = ByReference.lists s r.
Proof.
  intros now s' Hh Hun Hclock.
  unfold ByReference._get_cached_peers. cbn [fst].
  set (oldest2 := (fst (handle Time_time e2) - CACHE_VALID_PERIOD)%Q).
  destruct (ref_drop_old_split (now - CACHE_VALID_PERIOD)%Q
              (ByReference._cached_lookups s)) as (old & Hsplit & Hold).
  set (kept := ByReference.drop_old _ _) in Hsplit.
  assert (Hle : (now - CACHE_VALID_PERIOD <= oldest2)%Q)
    by (unfold oldest2; lra).
  assert (Hbefore :
    ByReference.scan_cached oldest2 h' (ByReference._cached_lookups s) =
    ByReference.scan_cached oldest2 h' kept).
  { rewrite Hsplit at 1. rewrite ref_scan_app.
    rewrite (ref_scan_old _ _ _ _ Hle Hold). reflexivity. }
  assert (Happ : forall ts,
    ByReference.scan_cached oldest2 h' (kept ++ [(ts, h, peers)]) =
    ByReference.scan_cached oldest2 h' kept).
  { intro ts. rewrite ref_scan_app.
    destruct (ByReference.scan_cached oldest2 h' kept); [reflexivity|].
    simpl. destruct (Id_eq_dec h' h) as [Heq|_]; [contradiction|].
    rewrite andb_false_r. reflexivity. }
  assert (Hin : forall en, In en kept ->
                           In en (ByReference._cached_lookups s)).
  { intros en H. rewrite Hsplit. apply in_or_app. right. exact H. }
  rewrite Hbefore.
  unfold s', ByReference._add_cache_peers. cbn zeta. fold now. fold kept.
  destruct (ByReference.split_last kept) as [[front [[ts lh] batch]]|] eqn:S.
  - destruct (Id_eq_dec lh h) as [->|D]; cbn [fst ByReference.lists
      ByReference._cached_lookups].
    + split; [reflexivity|]. intros r Hr.
      destruct (ref_scan_some _ _ _ _ Hr) as (b & Hb & Hbh & Hbr).
      assert (Ha : In (ts, h, batch) kept).
      { rewrite (ref_split_last_some _ _ _ S). apply in_or_app.
        right. left. reflexivity. }
      pose proof (Hun _ _ (Hin _ Ha) (Hin _ Hb) eq_refl Hbh) as Hne.
      cbn in Hne. unfold ByReference.extend.
      destruct (Nat.eqb r batch) eqn:Q; [|reflexivity].
      apply Nat.eqb_eq in Q. congruence.
    + split; [apply Happ|reflexivity].
  - cbn [fst ByReference.lists ByReference._cached_lookups].
    split; [apply Happ|reflexivity].
Qed.

(** X20.  A list object held twice is extended for both holders.  When
    the last entry of the cache is for [h], survives the clean-up and
    holds the list object that a lookup of an info-hash [h'] returns,
    then after [_add_cache_peers(h, peers)] the lookup of [h'] still
    returns this list object, which now ends with the peers inserted for
    [h].  This is so for [h'] different from [h] as well: one list object
    cached under two info-hashes makes an insertion for one of them show
    under the other. *)
Theorem shared_list_extended (h h' : Id) (peers shared : ByReference.Ref) (ts : Q)
  (front : list ByReference.CachedRef) (s : ByReference.Cache) (e e2 : Env) :
  let now := fst (handle Time_time e) in
  let s' := fst (ByReference._add_cache_peers h peers s e) in
  ByReference._cached_lookups s = front ++ [(ts, h, shared)] ->
  (now - CACHE_VALID_PERIOD <= ts)%Q ->
  (now <= fst (handle Time_time e2))%Q ->
  fst (ByReference._get_cached_peers h' s e2) = Some shared ->
  fst (ByReference._get_cached_peers h' s' e2) = Some shared /\
  ByReference.lists s' shared = ByReference.lists s shared ++ ByReference.lists s peers.
Proof.
  intros now s' Hcache Hts Hclock.
  unfold ByReference._get_cached_peers. cbn [fst].
  set (oldest2 := (fst (handle Time_time e2) - CACHE_VALID_PERIOD)%Q).
  intro Hfound.
  destruct (ref_drop_old_split (now - CACHE_VALID_PERIOD)%Q
              (ByReference._cached_lookups s)) as (old & Hsplit & Hold).
  assert (Hle : (now - CACHE_VALID_PERIOD <= oldest2)%Q)
    by (unfold oldest2; lra).
  assert (Hbefore :
    ByReference.scan_cached oldest2 h' (ByReference._cached_lookups s) =
    ByReference.scan_cached oldest2 h'
      (ByReference.drop_old (now - CACHE_VALID_PERIOD)%Q
         (ByReference._cached_lookups s))).
  { rewrite Hsplit at 1. rewrite ref_scan_app.
    rewrite (ref_scan_old _ _ _ _ Hle Hold). reflexivity. }
  destruct (ref_drop_old_keeps_last (now - CACHE_VALID_PERIOD)%Q front
              (ts, h, shared) Hts) as (kept0 & Hkept0).
  assert (Hkept :
    ByReference.drop_old (now - CACHE_VALID_PERIOD)%Q
      (ByReference._cached_lookups s) = kept0 ++ [(ts, h, shared)]).
  { rewrite Hcache. exact Hkept0. }
  unfold s', ByReference._add_cache_peers. cbn zeta. fold now.
  rewrite Hkept, ref_split_last_app.
  destruct (Id_eq_dec h h) as [_|D]; [|contradiction].
  cbn [fst ByReference.lists ByReference._cached_lookups].
  split.
  - rewrite <- Hkept, <- Hbefore. exact Hfound.
  - unfold ByReference.extend. rewrite Nat.eqb_refl. reflexivity.
Qed.

Lemma read_drop_old (ls : ByReference.Lists) (oldest : Q) (cache : list ByReference.CachedRef) :
  drop_old oldest (map (ByReference.read ls) cache) =
    map (ByReference.read ls) (ByReference.drop_old oldest cache).
Proof.
  induction cache as [|[[ts h] r] cache IH]; simpl; [reflexivity|].
  unfold ByReference.read at 1. cbn [ByReference.entry_ts fst].
  destruct (Qltb ts oldest); [exact IH|reflexivity].
Qed.

Lemma read_split_last (ls : ByReference.Lists) (cache : list ByReference.CachedRef) :
  split_last (map (ByReference.read ls) cache) =
    match ByReference.split_last cache with
    | Some (front, l) => Some (map (ByReference.read ls) front, ByReference.read ls l)
    | None => None
    end.
Proof.
  induction cache as [|e cache IH]; simpl; [reflexivity|].
  rewrite IH. destruct (ByReference.split_last cache) as [[front l]|];
    reflexivity.
Qed.

Lemma read_scan_cached (ls : ByReference.Lists) (oldest : Q) (h : Id)
  (cache : list ByReference.CachedRef) :
  scan_cached oldest h (map (ByReference.read ls) cache) =
    option_map ls (ByReference.scan_cached oldest h cache).
Proof.
  induction cache as [|[[ts eh] r] cache IH]; simpl; [reflexivity|].
  unfold ByReference.read at 1.
  cbn [ByReference.entry_ts ByReference.entry_hash ByReference.entry_ref
       fst snd].
  destruct (Qltb oldest ts && (if Id_eq_dec h eh then true else false));
    [reflexivity|exact IH].
Qed.

(** X21.  The cache by value and the cache of list objects tell the same
    while no list object is cached twice.  When [Controller]'s cache is
    the cache of list objects read out, a lookup returns the peers of the
    list object the by-reference lookup returns; and, no list object being
    held by two entries, [_add_cache_peers] given the peers of a list
    object leaves the by-reference cache read out, in the same
    environment. *)
Theorem cache_by_value_agrees (h : Id) (peers : ByReference.Ref) (s : ByReference.Cache)
  (w : World) :
  let s' := fst (ByReference._add_cache_peers h peers s (env w)) in
  let e' := snd (ByReference._add_cache_peers h peers s (env w)) in
  _cached_lookups (ctl w) = ByReference.contents s ->
  _get_cached_peers h w =
    Returned
      (option_map (ByReference.lists s)
         (fst (ByReference._get_cached_peers h s (env w))))
      (after w Time_time) /\
  (NoDup (map ByReference.entry_ref (ByReference._cached_lookups s)) ->
   exists w',
     _add_cache_peers h (ByReference.lists s peers) w = Returned tt w' /\
     _cached_lookups (ctl w') = ByReference.contents s' /\
     env w' = e').
Proof.
  intros s' e' Hc. split.
  - unfold _get_cached_peers. rewrite bind_call.
    unfold bind, self, ret. cbn [ctl after].
    rewrite Hc. unfold ByReference.contents. rewrite read_scan_cached.
    reflexivity.
  - intro Hnd.
    unfold _add_cache_peers. rewrite bind_call.
    unfold bind at 1, self at 1. unfold bind at 1, assign at 1.
    cbn [ctl env trace after]. rewrite Hc.
    unfold ByReference.contents.
    rewrite !read_drop_old, read_split_last.
    unfold s', e', ByReference._add_cache_peers. cbn zeta.
    destruct (ref_drop_old_split
                (fst (handle Time_time (env w)) - CACHE_VALID_PERIOD)%Q
                (ByReference._cached_lookups s)) as (old & Hsplit & _).
    set (kept := ByReference.drop_old _ _) in *.
    assert (Happended : forall ts,
      map (ByReference.read (ByReference.lists s)) kept ++
        [(ts, h, ByReference.lists s peers)] =
      ByReference.contents
        (ByReference.mkCache (ByReference.lists s)
           (kept ++ [(ts, h, peers)]))).
    { intro ts. unfold ByReference.contents.
      cbn [ByReference.lists ByReference._cached_lookups].
      rewrite map_app. reflexivity. }
    destruct (ByReference.split_last kept) as [[front [[ts lh] batch]]|]
      eqn:S.
    + change (ByReference.read (ByReference.lists s) (ts, lh, batch))
        with (ts, lh, ByReference.lists s batch).
      cbv iota beta.
      destruct (Id_eq_dec lh h) as [->|D].
      * eexists. split; [reflexivity|]. split; [|reflexivity].
        cbn [ctl set_cached_lookups _cached_lookups fst].
        unfold ByReference.contents.
        cbn [ByReference.lists ByReference._cached_lookups].
        apply ref_split_last_some in S.
        rewrite S, map_app. cbn [map].
        rewrite S in Hsplit. rewrite Hsplit in Hnd.
        rewrite !map_app in Hnd. cbn [map] in Hnd.
        apply NoDup_app_remove_l in Hnd. apply NoDup_remove_2 in Hnd.
        rewrite app_nil_r in Hnd.
        f_equal.
        -- apply map_ext_in. intros en Hen.
           unfold ByReference.read, ByReference.extend.
           destruct (Nat.eqb (ByReference.entry_ref en) batch) eqn:Q;
             [|reflexivity].
           apply Nat.eqb_eq in Q. exfalso. apply Hnd.
           cbn [ByReference.entry_ref snd]. rewrite <- Q.
           apply in_map. exact Hen.
        -- unfold ByReference.read, ByReference.extend.
           cbn [ByReference.entry_ts ByReference.entry_hash
                ByReference.entry_ref fst snd].
           rewrite Nat.eqb_refl. reflexivity.
      * rewrite bind_call. unfold assign. cbn [ctl env trace after].
        eexists. split; [reflexivity|]. split; [|reflexivity].
        cbn [ctl set_cached_lookups _cached_lookups fst]. apply Happended.
    + rewrite bind_call. unfold assign. cbn [ctl env trace after].
      eexists. split; [reflexivity|]. split; [|reflexivity].
      cbn [ctl set_cached_lookups _cached_lookups fst]. apply Happended.
Qed.

End SharedLists.

(** ** More on timeouts *)

Section Timeouts.

Context {O : Objects} {E : Environment}.

Lemma bind_assoc {A B C : Type} (m : M A) (f : A -> M B) (k : B -> M C)
  (w : World) :
  bind (bind m f) k w = bind m (fun a => bind (f a) k) w.
Proof. unfold bind. destruct (m w); reflexivity. Qed.

Lemma bind_ret {A B : Type} (a : A) (k : A -> M B) (w : World) :
  bind (ret a) k w = k a w.
Proof. reflexivity. Qed.

(** X17.  A timed-out query bound to a lookup, the experimental manager
    handing back nothing: [_on_timeout] registers nothing and leaves the
    controller as it is; it returns the lookup's queries, then the announce
    queries when the lookup reports done, then the routing manager's
    queries; and the only callback it can invoke is the completion signal
    [callback_f(lookup_id, None, None)], invoked exactly when the lookup
    reports done and [callback_f] is callable. *)
Theorem timeout_handled (rq : RelatedQuery) (lo : LookupObj) (w : World) :
  let w1 := after w (Exp_on_timeout rq) in
  let answer := fst (handle (Lookup_on_timeout lo (dst_node rq)) (env w1)) in
  let done := snd answer in
  lookup_obj rq = Some lo ->
  truthy (fst (handle (Exp_on_timeout rq) (env w))) = false ->
  exists w' ext wa wm,
    _on_timeout rq w =
      Returned
        (fst (fst answer) ++
         (if done
          then fst (fst (handle (Lookup_announce lo) (env wa)))
          else []) ++
         (let maint :=
            fst (handle (Routing_on_timeout (dst_node rq)) (env wm)) in
          if truthy maint then items maint else [])) w' /\
    trace w' = trace w ++ ext /\
    ctl w' = ctl w /\
    registered ext = [] /\
    callbacks ext =
      (if done
       then callback_calls (callback_f lo) (lookup_id lo) None None
       else []) /\
    In (logged wm (Routing_on_timeout (dst_node rq))) ext /\
    (done = true -> In (logged wa (Lookup_announce lo)) ext).
Proof.
  intros w1 answer done Hlo Hexp.
  unfold _on_timeout. rewrite bind_call. rewrite Hexp. fold w1.
  rewrite Hlo. rewrite bind_assoc, bind_call.
  set (c := Lookup_on_timeout lo (dst_node rq)) in *.
  assert (Hans : fst (handle c (env w1)) = answer) by reflexivity.
  rewrite Hans.
  assert (Hd : done = snd answer) by reflexivity.
  clearbody done.
  destruct answer as [[lq n] dn]. cbn [snd fst] in *. subst dn.
  set (w2 := after w1 c).
  destruct done.
  - destruct (invoke_if_callable_acct (callback_f lo) (lookup_id lo) None
                None w2) as (w3 & e3 & [H3 T3] & K3 & R3 & C3).
    rewrite !bind_assoc. rewrite (bind_returned _ H3). rewrite !bind_assoc.
    rewrite (bind_returned _ (announce_eq lo w3)).
    rewrite bind_ret, bind_call.
    set (w4 := after w3 (Lookup_announce lo)).
    exists (after w4 (Routing_on_timeout (dst_node rq))),
      ([logged w (Exp_on_timeout rq); logged w1 c] ++ e3 ++
       [logged w3 (Lookup_announce lo);
        logged w4 (Routing_on_timeout (dst_node rq))]), w3, w4.
    split.
    { cbn zeta.
      destruct (truthy (fst (handle (Routing_on_timeout _) _)));
        cbn [app]; unfold ret;
        rewrite ?app_nil_r; rewrite <- ?app_assoc; reflexivity. }
    split.
    { cbn [trace after w4]. rewrite T3. unfold w2, w1. cbn [trace after].
      rewrite <- !app_assoc. reflexivity. }
    split; [cbn [ctl after w4]; exact K3|].
    split.
    { rewrite !registered_app, R3. reflexivity. }
    split.
    { rewrite !callbacks_app, C3.
      replace (callbacks [logged w (Exp_on_timeout rq); logged w1 c])
        with (@nil AnyCall) by reflexivity.
      replace (callbacks [logged w3 (Lookup_announce lo);
                          logged w4 (Routing_on_timeout (dst_node rq))])
        with (@nil AnyCall) by reflexivity.
      cbn [app]. apply app_nil_r. }
    split.
    { rewrite !in_app_iff. right. right. right. left. reflexivity. }
    intros _. rewrite !in_app_iff. right. right. left. reflexivity.
  - rewrite bind_ret, bind_call.
    exists (after w2 (Routing_on_timeout (dst_node rq))),
      [logged w (Exp_on_timeout rq); logged w1 c;
       logged w2 (Routing_on_timeout (dst_node rq))], w2, w2.
    split.
    { cbn zeta.
      destruct (truthy (fst (handle (Routing_on_timeout _) _)));
        cbn [app]; unfold ret;
        rewrite ?app_nil_r; reflexivity. }
    split.
    { unfold w2, w1. cbn [trace after]. rewrite <- !app_assoc.
      reflexivity. }
    split; [reflexivity|].
    split; [reflexivity|].
    split; [reflexivity|].
    split; [|discriminate].
    right. right. left. reflexivity.
Qed.

End Timeouts.

(** ** The plugin: what the experimental manager records *)

Section PluginFacts.

Context {O : Objects}.
Context {Ip ExpObj : Type}.
Context (Ip_eq_dec : forall a b : Ip, {a = b} + {a <> b}).
Context (ip : Node -> Ip).
Context (experimental_obj : RelatedQuery -> option ExpObj).

#[local] Abbreviation dict_get := (Plugin.dict_get Ip_eq_dec).
#[local] Abbreviation dict_set := (Plugin.dict_set Ip_eq_dec).
#[local] Abbreviation on_timeout := (Plugin.on_timeout Ip_eq_dec ip experimental_obj).
#[local] Abbreviation handle_event := (Plugin.handle_event Ip_eq_dec ip experimental_obj).
#[local] Abbreviation after_events := (Plugin.after_events Ip_eq_dec ip experimental_obj).
#[local] Abbreviation probe_timed_out :=
  (Plugin.probe_timed_out Ip_eq_dec ip experimental_obj).

Lemma dict_get_set_same (d : Plugin.Dict) (k : Ip) (v : Plugin.Status) :
  dict_get (dict_set d k v) k = Some v.
Proof.
  induction d as [|[k' v'] d IH]; cbn.
  - destruct (Ip_eq_dec k k); congruence.
  - destruct (Ip_eq_dec k k') as [He|Hne] eqn:Hk; cbn; rewrite Hk.
    + reflexivity.
    + exact IH.
Qed.

Lemma dict_get_set_other (d : Plugin.Dict) (k k0 : Ip) (v : Plugin.Status) :
  k0 <> k -> dict_get (dict_set d k v) k0 = dict_get d k0.
Proof.
  intros Hne. induction d as [|[k' v'] d IH]; cbn.
  - destruct (Ip_eq_dec k0 k); congruence.
  - destruct (Ip_eq_dec k k') as [He|Hk]; cbn.
    + subst k'. destruct (Ip_eq_dec k0 k); congruence.
    + destruct (Ip_eq_dec k0 k'); [reflexivity|exact IH].
Qed.

(** A key that is set once stays one key: [d[k] = v] never makes the dict
    hold [k] twice. *)
Lemma dict_set_keys (d : Plugin.Dict) (k : Ip) (v : Plugin.Status) :
  NoDup (map fst d) -> NoDup (map fst (dict_set d k v)).
Proof.
  induction d as [|[k' v'] d IH]; cbn; intros Hnd.
  - constructor; [intros []|constructor].
  - destruct (Ip_eq_dec k k') as [He|Hk]; cbn; [exact Hnd|].
    inversion Hnd as [|? ? Hnotin Hrest]; subst.
    constructor; [|exact (IH Hrest)].
    intros Hin. apply Hnotin. clear - Hin Hk.
    induction d as [|[k2 v2] d IH]; cbn in *.
    + destruct Hin as [He|[]]. congruence.
    + destruct (Ip_eq_dec k k2); cbn in Hin; [exact Hin|].
      destruct Hin as [He|Hin]; [left; exact He|right; exact (IH Hin)].
Qed.

(** X18.  The timeout of a probe (a query that carries an experimental
    object) records [STATUS_FAIL] for the ip of the node that was queried,
    replacing whatever status that ip had, and leaves the status of every
    other ip and the counters as they were; the handler hands back no
    query. *)
Theorem probe_timeout_recorded (self : Plugin.ExperimentalManager)
  (rq : RelatedQuery) (obj : ExpObj) (k : Ip) :
  experimental_obj rq = Some obj ->
  k <> ip (dst_node rq) ->
  let self' := snd (on_timeout self rq) in
  fst (on_timeout self rq) = None /\
  dict_get (Plugin.pinged_ips self') (ip (dst_node rq)) =
    Some Plugin.STATUS_FAIL /\
  dict_get (Plugin.pinged_ips self') k =
    dict_get (Plugin.pinged_ips self) k /\
  Plugin.num_ok self' = Plugin.num_ok self /\
  Plugin.num_fail self' = Plugin.num_fail self /\
  Plugin.my_id self' = Plugin.my_id self.
Proof.
  intros Hobj Hk. unfold Plugin.on_timeout. rewrite Hobj. cbn.
  split; [reflexivity|].
  split; [apply dict_get_set_same|].
  split; [apply dict_get_set_other; exact Hk|].
  repeat split.
Qed.

(** What a sequence of events leaves, from any manager. *)
Lemma after_events_from (evs : list Plugin.Event)
  (self : Plugin.ExperimentalManager) (k : Ip) :
  let self' := after_events self evs in
  dict_get (Plugin.pinged_ips self') k =
    (if existsb (probe_timed_out k) evs then Some Plugin.STATUS_FAIL
     else dict_get (Plugin.pinged_ips self) k) /\
  Plugin.num_ok self' = Plugin.num_ok self /\
  Plugin.num_fail self' = Plugin.num_fail self /\
  Plugin._stop self' = Plugin._stop self /\
  Plugin.my_id self' = Plugin.my_id self /\
  (NoDup (map fst (Plugin.pinged_ips self)) ->
   NoDup (map fst (Plugin.pinged_ips self'))).
Proof.
  revert self.
  induction evs as [|ev evs IH] using rev_ind; intros self.
  - cbn. repeat split. auto.
  - cbn zeta. unfold Plugin.after_events. rewrite fold_left_app. cbn [fold_left].
    fold (after_events self evs).
    destruct (IH self) as (Hget & Hok & Hfail & Hstop & Hid & Hnd).
    rewrite existsb_app. cbn [existsb]. rewrite orb_false_r.
    set (m := after_events self evs) in *.
    destruct ev as [msg|msg rq|rq|]; cbn [Plugin.handle_event snd
      Plugin.on_query_received Plugin.on_response_received Plugin.on_stop
      Plugin.probe_timed_out]; try rewrite orb_false_r;
      try (repeat split; assumption).
    unfold Plugin.on_timeout.
    destruct (experimental_obj rq) as [obj|]; cbn [snd];
      [|rewrite orb_false_r; repeat split; assumption].
    cbn [Plugin.pinged_ips Plugin.num_ok Plugin.num_fail Plugin._stop
         Plugin.my_id].
    split; [|repeat split; try assumption;
             intros H; apply dict_set_keys; exact (Hnd H)].
    destruct (Ip_eq_dec k (ip (dst_node rq))) as [He|Hne].
    + rewrite orb_true_r. subst k. apply dict_get_set_same.
    + rewrite orb_false_r. rewrite dict_get_set_other by exact Hne.
      exact Hget.
Qed.

(** X19.  The whole life of a manager.  From construction on, whatever
    queries, responses, timeouts and stops it is told of, [pinged_ips]
    holds an ip exactly when a probe sent to that ip has timed out, and
    then with [STATUS_FAIL] (never [STATUS_PINGED] nor [STATUS_OK]); each
    ip is held once; and [num_ok], [num_fail] and [_stop] stay at [0], [0]
    and [False]: the plugin counts nothing and [on_stop] does not stop
    it. *)
Theorem manager_records_only_failures (id : Id) (evs : list Plugin.Event)
  (k : Ip) :
  let self := after_events (Plugin.__init__ id) evs in
  dict_get (Plugin.pinged_ips self) k =
    (if existsb (probe_timed_out k) evs then Some Plugin.STATUS_FAIL
     else None) /\
  NoDup (map fst (Plugin.pinged_ips self)) /\
  Plugin.num_ok self = 0%Z /\
  Plugin.num_fail self = 0%Z /\
  Plugin._stop self = false /\
  Plugin.my_id self = id.
Proof.
  destruct (after_events_from evs (Plugin.__init__ id) k)
    as (Hget & Hok & Hfail & Hstop & Hid & Hnd).
  cbn zeta. split; [exact Hget|].
  split; [apply Hnd; constructor|].
  repeat split; assumption.
Qed.

End PluginFacts.

(** ** The further statements on the concrete environment *)

Import Cases.

(** X1: the registrations of the call have their deadline at 12 and the
    next tick was due at 20: the handler returns 12. *)
Lemma on_datagram_received_schedule_witness :
  exists out (w' : @World objects environment),
    @on_datagram_received objects environment
      (datagram_with (query_from 9)) late_world = Returned (12%Q, out) w' /\
    12%Q = _next_main_loop_call_ts (ctl w') /\
    only_sooner late_world w'.
Proof.
  eassert (H : @on_datagram_received objects environment
                 (datagram_with (query_from 9)) late_world =
               Returned (_, _) _) by (vm_compute; reflexivity).
  destruct (@on_datagram_received_schedule objects environment
              (datagram_with (query_from 9)) late_world) as [F T].
  eexists _, _. split; [exact H|]. split.
  - exact (T _ _ _ H).
  - rewrite H in F. exact F.
Defined.

(** X2: a lookup is started with one query, to address 4. *)
Lemma get_peers_datagrams_registered_witness :
  exists (w' : @World objects environment) ext,
    @get_peers objects environment 42 5 CbNone 6881%Z true start_world =
      Returned [datagram_of 4] w' /\
    trace w' = trace start_world ++ ext /\
    @registered objects ext = [datagram_of 4] /\
    only_sooner start_world w'.
Proof.
  eassert (H : @get_peers objects environment 42 5 CbNone 6881%Z true
                 start_world = Returned _ _) by (vm_compute; reflexivity).
  destruct (@get_peers_datagrams_registered objects environment _ _ _ _ _
              _ _ _ H) as ((ext & T & R) & S).
  eexists _, ext. split; [exact H|].
  split; [exact T|]. split; [exact R|exact S].
Defined.

(** X4: a tick at time 10 with one timed-out query of a lookup. *)
Lemma main_loop_datagrams_registered_witness :
  exists w' ext,
    @main_loop objects environment done_world =
      Returned (11%Q, [datagram_of 4; datagram_of 6]) w' /\
    trace w' = trace done_world ++ ext /\
    @registered objects ext = [datagram_of 4; datagram_of 6].
Proof.
  eassert (H : @main_loop objects environment done_world =
               Returned (_, _) _) by (vm_compute; reflexivity).
  destruct (@main_loop_datagrams_registered objects environment _ _ _ _ H)
    as (ext & T & R).
  eexists _, ext. split; [exact H|]. split; [exact T|exact R].
Defined.

(** X5: the clock reads 1 and the next tick is due at 5. *)
Lemma main_loop_too_early_witness :
  @main_loop objects environment early_world =
    Returned (5%Q, []) (after early_world Time_time).
Proof.
  apply (@main_loop_too_early objects environment early_world).
  vm_compute. reflexivity.
Defined.

(** X6: constructed at time 0, first tick at time 1. *)
Lemma first_tick_fires_witness :
  exists next ds w' post,
    @main_loop objects environment
      (at_env (@__init__ objects environment 7 (quiet 0)) (quiet 1)) =
      Returned (next, ds) w' /\
    map (@what objects) (trace w') =
      Called Time_time 1%Q
        :: Called (Querier_get_timeout_queries (O := objects)) (2%Q, [])
        :: Called Time_time 1%Q
        :: Called (Routing_do_maintenance (O := objects)) (10%Q, [], None)
        :: post /\
    _next_timeout_ts (ctl w') = 2%Q /\
    _next_maintenance_ts (ctl w') = 11%Q.
Proof.
  apply (@first_tick_fires objects environment 7 (quiet 0) (quiet 1) 2%Q).
  - vm_compute. discriminate.
  - vm_compute. discriminate.
  - reflexivity.
Defined.

(** X7: the response brings peer 8 and completes lookup 42. *)
Lemma response_handled_witness :
  exists next w' ext,
    @on_datagram_received objects environment
      (datagram_with (reply RESPONSE)) both_world =
      Returned (next, map Dgram (registered ext)) w' /\
    trace w' = trace both_world ++ ext /\
    callbacks ext =
      [Called (Callback (O := objects) 1 42 (Some [8]) (Some (1, 9))) tt;
       Called (Callback (O := objects) 1 42 None (Some (1, 9))) tt].
Proof.
  apply (@response_handled objects environment
           (datagram_with (reply RESPONSE)) (reply RESPONSE) peers_query
           peers_lookup both_world); reflexivity.
Defined.

(** X8: the response to a maintenance query, with a populated cache. *)
Lemma response_without_lookup_witness :
  exists next w' ext,
    @on_datagram_received objects environment
      (datagram_with (reply RESPONSE)) maintenance_reply_world =
      Returned (next, map Dgram (registered ext)) w' /\
    trace w' =
      trace
        (after
           (after
              (after maintenance_reply_world
                 (Querier_get_related_query (O := objects) (reply RESPONSE)))
              (Exp_on_response_received (O := objects) (reply RESPONSE)
                 timed_out))
           (Routing_on_response_received (O := objects) (1, 9) 0%Q [])) ++
      ext /\
    callbacks ext = [] /\
    same_cache maintenance_reply_world w'.
Proof.
  apply (@response_without_lookup objects environment
           (datagram_with (reply RESPONSE)) (reply RESPONSE) timed_out
           maintenance_reply_world); reflexivity.
Defined.

(** X9: an error completes lookup 42, and [announce()] answers a query to
    address 7. *)
Lemma error_handled_witness :
  exists w' : @World objects announcing,
    @on_datagram_received objects announcing (datagram_with (reply ERROR))
      error_world =
      Returned
        (0%Q,
         [Dgram (datagram_of 4); Unregistered (O := objects) 7;
          Dgram (datagram_of 6);
          Dgram (datagram_of 5)]) w' /\
    same_cache error_world w'.
Proof.
  destruct (@error_handled objects announcing (datagram_with (reply ERROR))
              (reply ERROR) peers_query peers_lookup error_world
              eq_refl eq_refl eq_refl eq_refl) as (H & _ & S).
  eexists. split; [exact H|exact S].
Defined.

(** X10: a query from node 3, which the responder answers. *)
Lemma query_answered_witness :
  exists w' : @World objects environment,
    @on_datagram_received objects environment
      (datagram_with (query_from 3)) answer_world =
      Returned
        (0%Q,
         [Dgram (@mkDatagram objects
                   (Some (mkTMsg RESPONSE (0, 7) 3 [(1, 9)])) 1);
          Dgram (datagram_of 4); Dgram (datagram_of 5)]) w' /\
    same_cache answer_world w'.
Proof.
  assert (Hid : @node_id objects (@src_node objects (query_from 3)) <>
                _my_id (ctl answer_world)) by discriminate.
  destruct (@query_answered objects environment
              (datagram_with (query_from 3)) (query_from 3) answer
              answer_world eq_refl eq_refl Hid eq_refl) as (H & _ & S).
  eexists. split; [exact H|exact S].
Defined.

(** X11: a datagram that does not decode. *)
Lemma undecodable_or_unknown_dropped_witness :
  @on_datagram_received objects environment garbage idle_world =
    Returned (0%Q, []) idle_world.
Proof.
  apply (@undecodable_or_unknown_dropped objects environment garbage
           idle_world).
  left. reflexivity.
Defined.

(** X12: an error matched to a maintenance query, with a populated cache. *)
Lemma only_responses_write_cache_witness :
  same_cache maintenance_reply_world
    (world_of
       (@on_datagram_received objects environment
          (datagram_with (reply ERROR)) maintenance_reply_world)).
Proof.
  apply (@only_responses_write_cache objects environment
           (datagram_with (reply ERROR)) maintenance_reply_world).
  intros msg H. simpl in H. injection H as <-. simpl. discriminate.
Defined.

(** X13: peers inserted at time 1 are found at time 100 and no longer at
    time 301. *)
Lemma cached_peers_found_after_insert_witness :
  exists w',
    @_add_cache_peers objects environment 5 [1; 2] idle_world =
      Returned tt w' /\
    @_get_cached_peers objects environment 5 (at_env w' (quiet 100)) =
      Returned (Some [1; 2]) (after (at_env w' (quiet 100)) Time_time) /\
    @_get_cached_peers objects environment 5 (at_env w' (quiet 301)) =
      Returned None (after (at_env w' (quiet 301)) Time_time).
Proof.
  destruct (@cached_peers_found_after_insert objects environment 5 [1; 2]
              idle_world) as (w' & Ha & Hl).
  - constructor.
  - exists w'. split; [exact Ha|]. split.
    + apply (Hl (quiet 100)). vm_compute. reflexivity.
    + apply (Hl (quiet 301)). vm_compute. discriminate.
Defined.

(** X14: peer 3 joins the batch stamped 0 at time 0; the batch is found at
    time 299 and no longer at time 300. *)
Lemma merged_peers_expire_with_entry_witness :
  exists w',
    @_add_cache_peers objects environment 5 [3] hit_world = Returned tt w' /\
    @_get_cached_peers objects environment 5 (at_env w' (quiet 299)) =
      Returned (Some [1; 2; 3]) (after (at_env w' (quiet 299)) Time_time) /\
    @_get_cached_peers objects environment 5 (at_env w' (quiet 300)) =
      Returned None (after (at_env w' (quiet 300)) Time_time).
Proof.
  destruct (@merged_peers_expire_with_entry objects environment 5 [3] [1; 2]
              0%Q [] hit_world) as (w' & Ha & Hl).
  - reflexivity.
  - constructor.
  - vm_compute. discriminate.
  - exists w'. split; [exact Ha|]. split.
    + apply (Hl (quiet 299)). vm_compute. reflexivity.
    + apply (Hl (quiet 300)). vm_compute. discriminate.
Defined.

(** X15: at time 500 the entry stamped 0 goes and the one stamped 400
    stays. *)
Lemma cache_entries_recent_after_insert_witness :
  exists w',
    @_add_cache_peers objects environment 6 [3] old_and_recent_world =
      Returned tt w' /\
    Forall (fun e => (500 - @entry_ts objects e <= 300)%Q)
      (_cached_lookups (ctl w')).
Proof.
  apply (@cache_entries_recent_after_insert objects environment 6 [3]
           old_and_recent_world).
  - repeat constructor; vm_compute; discriminate.
  - vm_compute. discriminate.
Defined.

(** X16: each entry has a list object of its own; peers are inserted for
    info-hash 6 at time 500, and at time 600 the lookup of info-hash 5
    returns list object 0, which still holds peer 1 only. *)
Lemma insert_leaves_other_lookups_witness :
  let s' :=
    fst (@ByReference._add_cache_peers objects environment 6 2 own_lists
           (quiet 500)) in
  fst (@ByReference._get_cached_peers objects environment 5 s' (quiet 600)) =
    Some 0 /\
  ByReference.lists s' 0 = [1] /\
  ByReference.lists s' 1 = [2; 3].
Proof.
  assert (Hne : 5 <> 6) by discriminate.
  assert (Hun : @ByReference.unshared objects 6 5
                  (ByReference._cached_lookups own_lists)).
  { intros a b Ha Hb Hah Hbh. simpl in Ha, Hb.
    destruct Ha as [<-|[<-|[]]]; destruct Hb as [<-|[<-|[]]];
      simpl in *; discriminate. }
  assert (Hclock :
    (fst (@handle objects environment _ Time_time (quiet 500)) <=
     fst (@handle objects environment _ Time_time (quiet 600)))%Q)
    by (vm_compute; discriminate).
  destruct (@insert_leaves_other_lookups objects environment 6 5 2 own_lists
              (quiet 500) (quiet 600) Hne Hun Hclock) as [H1 H2].
  split; [rewrite H1; reflexivity|].
  split; [rewrite (H2 0 eq_refl); reflexivity|reflexivity].
Defined.

(** X20: both entries hold list object 0; peer 3 is inserted for
    info-hash 6 at time 500, and at time 600 the lookup of info-hash 5
    returns list object 0, which now holds peers 1 and 3. *)
Lemma shared_list_extended_witness :
  let s' :=
    fst (@ByReference._add_cache_peers objects environment 6 2
           one_list_twice (quiet 500)) in
  fst (@ByReference._get_cached_peers objects environment 5 s' (quiet 600)) =
    Some 0 /\
  ByReference.lists s' 0 = [1; 3].
Proof.
  apply (@shared_list_extended objects environment 6 5 2 0 450%Q
           [(400%Q, 5, 0)] one_list_twice (quiet 500) (quiet 600)).
  - reflexivity.
  - vm_compute. discriminate.
  - vm_compute. discriminate.
  - reflexivity.
Defined.

(** X21: the cache of [own_lists] held by value, and peer 3 inserted for
    info-hash 6 at time 500. *)
Lemma cache_by_value_agrees_witness :
  exists w' : @World objects environment,
    @_add_cache_peers objects environment 6 [3] by_value_world =
      Returned tt w' /\
    _cached_lookups (ctl w') = [(400%Q, 5, [1]); (450%Q, 6, [2; 3])].
Proof.
  destruct (@cache_by_value_agrees objects environment 6 2 own_lists
              by_value_world eq_refl) as [_ H].
  destruct H as (w' & Ha & Hc & _).
  - simpl. constructor; [intros [H|[]]; discriminate|].
    constructor; [intros []|constructor].
  - exists w'. split; [exact Ha|exact Hc].
Defined.

(** X17: a query of lookup 42 times out and the lookup reports done. *)
Lemma timeout_handled_witness :
  exists w' ext,
    @_on_timeout objects environment peers_query done_world =
      Returned [4; 6] w' /\
    trace w' = trace done_world ++ ext /\
    ctl w' = ctl done_world /\
    @registered objects ext = [] /\
    callbacks ext = [Called (Callback (O := objects) 1 42 None None) tt].
Proof.
  destruct (@timeout_handled objects environment peers_query peers_lookup
              done_world eq_refl eq_refl)
    as (w' & ext & wa & wm & H & T & C & R & Cb & _ & _).
  eassert (H0 : @_on_timeout objects environment peers_query done_world =
                Returned _ _) by (vm_compute; reflexivity).
  rewrite H0 in H. injection H as _ Hw.
  exists w', ext.
  split; [rewrite H0; f_equal; exact Hw|].
  split; [exact T|]. split; [exact C|]. split; [exact R|exact Cb].
Defined.

(** X18: from construction, the probe to the node at ip 1 times out. *)
Lemma probe_timeout_recorded_witness :
  let self' :=
    snd (@Plugin.on_timeout objects nat nat Nat.eq_dec ip experimental_obj
           (Plugin.__init__ (O := objects) (Ip := nat) 7) timed_out) in
  Plugin.dict_get Nat.eq_dec (Plugin.pinged_ips self') 1 =
    Some Plugin.STATUS_FAIL /\
  Plugin.dict_get Nat.eq_dec (Plugin.pinged_ips self') 2 = None.
Proof.
  destruct (@probe_timeout_recorded objects nat nat Nat.eq_dec ip
              experimental_obj (Plugin.__init__ (O := objects) (Ip := nat) 7) timed_out 1 2)
    as (_ & H1 & H2 & _).
  - reflexivity.
  - simpl. discriminate.
  - split; [exact H1|exact H2].
Defined.
